(** * nice-table: a shallow embedding of [src/index.ts]

    The layout engine of [createTable] is translated function by function.
    Conventions of the embedding:

    - a JavaScript string is the list of its UTF-16 code units ([str]), so
      that [length] is the [.length] of the source;
    - a number that the source only ever uses as an integer (a string
      length, a column width, [maxWidth]) is a [Z]; this is faithful for the
      integers that a double represents exactly (magnitude below 2^53);
    - the two genuinely fractional computations of the source, the shrink
      and grow factors, are computed in IEEE 754 binary64 with the
      executable specification of the Rocq core library ([SpecFloat]);
    - a computation of the source either completes with a value, throws,
      loops forever, or leaves the integers ([completion]);
    - strings, arrays and argument lists have any length: the bounds that
      an engine puts on them (a longest string, the arguments that fit on
      its stack) are not modelled, and what is stated about the ways a call
      ends is stated for calls within them ([withinCapacity]);
    - the first lines of [createTable], which build new arrays from the
      arguments, are translated a second time on a store of objects at
      addresses, where writes in place and aliasing are visible. *)

From Stdlib Require Import ZArith NArith Lia String Ascii DecimalString.
From Stdlib Require Import Floats.SpecFloat.
From stdpp Require Import base tactics option list list_numbers gmap.

Local Open Scope Z_scope.

(** ** The parts of the JavaScript runtime that the source uses *)

Module JS.

Abbreviation str := (list N).

(** An ASCII literal as a string of code units. *)
Definition lit (s : string) : str := N_of_ascii <$> list_ascii_of_string s.

(** [.length] of a string or of an array, as a number. *)
Definition len {A} (l : list A) : Z := Z.of_nat (length l).

Inductive exn :=
| Error (message : str)
| RangeError (message : str)
| TypeError (message : str).

(** How an evaluation of source code ends.  [Diverge] is a loop that never
    exits; [NotFinite] is the floor of a NaN or of an infinity, which is
    not an integer and has no image in [Z]. *)
Inductive completion (A : Type) :=
| Normal (a : A)
| Throw (e : exn)
| Diverge
| NotFinite.
Arguments Normal {A} a.
Arguments Throw {A} e.
Arguments Diverge {A}.
Arguments NotFinite {A}.

#[global] Instance completion_ret : MRet completion := @Normal.
#[global] Instance completion_bind : MBind completion := λ A B f m,
  match m with
  | Normal a => f a
  | Throw e => Throw e
  | Diverge => Diverge
  | NotFinite => NotFinite
  end.

(** [l.map(f)] for a callback that receives the element and its index and
    may throw. *)
Definition imapM {A B} (f : nat → A → completion B) (l : list A)
  : completion (list B) :=
  mapM (λ p, f p.1 p.2) (imap pair l).

(** *** Numbers *)

Definition double := spec_float.
Definition of_int (z : Z) : double := binary_normalize 53 1024 z 0 false.
Definition fadd : double → double → double := SFadd 53 1024.
Definition fsub : double → double → double := SFsub 53 1024.
Definition fmul : double → double → double := SFmul 53 1024.
Definition fdiv : double → double → double := SFdiv 53 1024.

(** [Math.floor] of a double. *)
Definition Math_floor (x : double) : completion Z :=
  match x with
  | S754_zero _ => Normal 0
  | S754_finite s m e =>
      let n := if s then Z.neg m else Z.pos m in
      Normal (if 0 <=? e then n * 2 ^ e else n `div` 2 ^ (- e))
  | S754_infinity _ | S754_nan => NotFinite
  end.

(** [Math.max(...l)]; the maximum of no number at all is [-Infinity],
    here [None]. *)
Definition Math_max (l : list Z) : option Z :=
  match l with
  | [] => None
  | x :: l => Some (foldl Z.max x l)
  end.

(** [n.toString()] and the interpolation of an integer in a template. *)
Definition Number_toString (z : Z) : str :=
  lit (NilZero.string_of_int (Z.to_int z)).

(** *** Strings and arrays *)

(** The relative index of [slice]: negative counts from the end, and the
    result is clamped to the bounds. *)
Definition relativeIndex (n : nat) (i : Z) : nat :=
  if i <? 0 then Z.to_nat (Z.max 0 (Z.of_nat n + i))
  else Z.to_nat (Z.min i (Z.of_nat n)).

(** [l.slice(start, end)], with [None] for an omitted [end]. *)
Definition slice {A} (l : list A) (start : Z) (end_ : option Z) : list A :=
  let from := relativeIndex (length l) start in
  let to := from_option (relativeIndex (length l)) (length l) end_ in
  take (to - from) (drop from l).

(** [s.repeat(count)] *)
Definition String_repeat (s : str) (count : Z) : completion str :=
  if count <? 0
  then Throw (RangeError (lit "Invalid count value: " ++ Number_toString count))
  else Normal (concat (replicate (Z.to_nat count) s)).

(** [s.padEnd(target, fill)] and [s.padStart(target, fill)] for a filler
    of one code unit. *)
Definition padEnd (s : str) (target : Z) (fill : N) : str :=
  s ++ replicate (Z.to_nat target - length s) fill.
Definition padStart (s : str) (target : Z) (fill : N) : str :=
  replicate (Z.to_nat target - length s) fill ++ s.

(** White space and line terminators, as [trim] sees them. *)
Definition isWhiteSpace (c : N) : bool :=
  bool_decide (c ∈ [9; 10; 11; 12; 13; 32; 160; 5760; 8192; 8193; 8194; 8195;
                    8196; 8197; 8198; 8199; 8200; 8201; 8202; 8232; 8233;
                    8239; 8287; 12288; 65279]%N).

Fixpoint trimStart (s : str) : str :=
  match s with
  | c :: s' => if isWhiteSpace c then trimStart s' else s
  | [] => []
  end.
Definition trimEnd (s : str) : str := reverse (trimStart (reverse s)).
Definition trim (s : str) : str := trimEnd (trimStart s).

(** [l.join(sep)] *)
Fixpoint join (sep : str) (l : list str) : str :=
  match l with
  | [] => []
  | [s] => s
  | s :: l' => s ++ sep ++ join sep l'
  end.

(** [s.split(sep)] for a separator of one code unit. *)
Fixpoint split (sep : N) (s : str) : list str :=
  match s with
  | [] => [[]]
  | c :: s' =>
      if decide (c = sep) then [] :: split sep s'
      else match split sep s' with
           | line :: lines => (c :: line) :: lines
           | [] => [[c]]
           end
  end.

(** A value that may be [undefined], used as a string operand of [+]. *)
Definition orUndefined (o : option str) : str :=
  default (lit "undefined") o.

Definition LF : N := 10%N.
Definition SPACE : N := 32%N.

End JS.
Export JS.

(** ** The source, in its order *)

Inductive HorizontalAlignment := h_left | h_middle | h_right.
Inductive VerticalAlignment := v_top | v_middle | v_bottom.
(** The declared type has two members; an untyped caller may pass any other
    string, which is what the [default] branch of the source is for. *)
Inductive ColumnSizing := stretch | even | unknownSizing (name : str).

Record TableOptions := {
  maxWidth : Z;
  columnSizing : ColumnSizing;
  horizontalAlignment : HorizontalAlignment;
  verticalAlignment : VerticalAlignment;
  fullWidth : bool;
  throwIfTooSmall : bool;
  indexColumn : bool;
}.

(** The defaults of the destructured parameter. *)
Definition defaultOptions : TableOptions := {|
  maxWidth := 80;
  columnSizing := stretch;
  horizontalAlignment := h_middle;
  verticalAlignment := v_middle;
  fullWidth := false;
  throwIfTooSmall := true;
  indexColumn := false;
|}.

Definition TOP_LEFT : N := 9484%N.
Definition TOP_RIGHT : N := 9488%N.
Definition TOP_MIDDLE : N := 9516%N.
Definition BOTTOM_LEFT : N := 9492%N.
Definition BOTTOM_RIGHT : N := 9496%N.
Definition BOTTOM_MIDDLE : N := 9524%N.
Definition LEFT_MIDDLE : N := 9500%N.
Definition RIGHT_MIDDLE : N := 9508%N.
Definition MIDDLE : N := 9532%N.
Definition HORIZONTAL : N := 9472%N.
Definition VERTICAL : N := 9474%N.

Definition createTableTop (columnWidths : list Z) : completion str :=
  runs ← mapM (λ size, String_repeat [HORIZONTAL] size) columnWidths;
  mret ([TOP_LEFT] ++ join [TOP_MIDDLE] runs ++ [TOP_RIGHT]).

Definition createTableMiddleLine (columnWidths : list Z) : completion str :=
  runs ← mapM (λ size, String_repeat [HORIZONTAL] size) columnWidths;
  mret ([LEFT_MIDDLE] ++ join [MIDDLE] runs ++ [RIGHT_MIDDLE]).

Definition createTableBottom (columnWidths : list Z) : completion str :=
  runs ← mapM (λ size, String_repeat [HORIZONTAL] size) columnWidths;
  mret ([BOTTOM_LEFT] ++ join [BOTTOM_MIDDLE] runs ++ [BOTTOM_RIGHT]).

(** [text] is [None] when the caller passes [undefined], on which [.trim]
    is a type error. *)
Definition centerText (text : option str) (width : Z) : completion str :=
  match text with
  | None =>
      Throw (TypeError (lit "Cannot read properties of undefined (reading 'trim')"))
  | Some text =>
      let text := trim text in
      let padding := (width - len text) `div` 2 in
      spaces ← String_repeat [SPACE] padding;
      mret (padEnd (spaces ++ text) width SPACE)
  end.

Definition createRow (cells : list str) (columnWidths : list Z)
    (horizontalAlignment : HorizontalAlignment) : completion str :=
  parts ← imapM (λ i columnWidth,
             match horizontalAlignment with
             | h_left =>
                 mret (padEnd ([SPACE] ++ orUndefined (cells !! i)) columnWidth SPACE)
             | h_right =>
                 mret (padStart (orUndefined (cells !! i) ++ [SPACE]) columnWidth SPACE)
             | h_middle => centerText (cells !! i) columnWidth
             end) columnWidths;
  mret ([VERTICAL] ++ join [VERTICAL] parts ++ [VERTICAL]).

(** The [while (cell.length)] loop that cuts one cell into lines.  The loop
    has no bound in the source; [fuel] bounds the number of iterations and
    [Diverge] is the answer when it is used up. *)
Fixpoint cellLinesLoop (fuel : nat) (cell : str) (columnWidth : Z)
  : completion (list str) :=
  match fuel with
  | O => Diverge
  | S fuel =>
      if decide (length cell = 0%nat) then mret []
      else
        rest ← cellLinesLoop fuel (slice cell (columnWidth - 2) None) columnWidth;
        mret (slice cell 0 (Some (columnWidth - 2)) :: rest)
  end.

(** One more iteration than the cell has code units: enough whenever the
    loop exits at all ([cellLinesLoop_exits], [cellLinesLoop_never_exits]). *)
Definition cellLines (cell : str) (columnWidth : Z) : completion (list str) :=
  cellLinesLoop (S (length cell)) cell columnWidth.

(** The first loop of [createMultiLineRows]: every cell of the row cut into
    its lines.  A row shorter than [columnWidths] reads [undefined], whose
    [.length] is a type error. *)
Definition splitCells (row : list str) (columnWidths : list Z)
  : completion (list (list str)) :=
  imapM (λ i columnWidth,
    match row !! i with
    | None =>
        Throw (TypeError (lit "Cannot read properties of undefined (reading 'length')"))
    | Some cell => cellLines cell columnWidth
    end) columnWidths.

(** [rowHeight], the running maximum of the line counts. *)
Definition rowHeightOf (cells : list (list str)) : nat :=
  foldl (λ rowHeight cellLines, Nat.max rowHeight (length cellLines)) 0%nat cells.

(** The number of empty lines put before the lines of one cell.  The source
    computes it with [Math.floor] on numbers; [rowHeight] is at least the
    line count of every cell, so the count is never negative. *)
Definition verticalPadding (verticalAlignment : VerticalAlignment)
    (rowHeight : nat) (cellLines : list str) : nat :=
  match verticalAlignment with
  | v_top => 0
  | v_middle => Z.to_nat ((Z.of_nat rowHeight - len cellLines) `div` 2)
  | v_bottom => Z.to_nat (Z.of_nat rowHeight - len cellLines)
  end.

(** The second loop: [cells[i].unshift(...Array(padding).fill(''))]. *)
Definition alignCells (verticalAlignment : VerticalAlignment)
    (rowHeight : nat) (cells : list (list str)) : list (list str) :=
  match verticalAlignment with
  | v_top => cells
  | _ =>
      (λ cellLines,
         replicate (verticalPadding verticalAlignment rowHeight cellLines) []
           ++ cellLines) <$> cells
  end.

(** The third loop: physical line [i] takes line [i] of every cell, or the
    empty string where the cell has none. *)
Definition cellRowsOf (rowHeight : nat) (cells : list (list str))
  : list (list str) :=
  (λ i, (λ cell : list str, default [] (cell !! i)) <$> cells) <$> seq 0 rowHeight.

Definition createMultiLineRows (row : list str) (columnWidths : list Z)
    (horizontalAlignment : HorizontalAlignment)
    (verticalAlignment : VerticalAlignment) : completion str :=
  cells ← splitCells row columnWidths;
  let rowHeight := rowHeightOf cells in
  let cells := alignCells verticalAlignment rowHeight cells in
  let cellRows := cellRowsOf rowHeight cells in
  lines ← mapM (λ row, createRow row columnWidths horizontalAlignment) cellRows;
  mret (join [LF] lines).

Definition createTableRows (tableContent : list (list str))
    (columnWidths : list Z) (horizontalAlignment : HorizontalAlignment)
    (verticalAlignment : VerticalAlignment) : completion str :=
  blocks ← mapM (λ row, createMultiLineRows row columnWidths
                          horizontalAlignment verticalAlignment) tableContent;
  mret (join [LF] blocks).

Definition createTableColumnNames (columnNames : list str)
    (columnWidths : list Z) (horizontalAlignment : HorizontalAlignment)
    (verticalAlignment : VerticalAlignment) : completion str :=
  names ← createMultiLineRows columnNames columnWidths
            horizontalAlignment verticalAlignment;
  line ← createTableMiddleLine columnWidths;
  mret (names ++ [LF] ++ line).

(** [reduce((a, b) => a + b, 0)] *)
Definition sumOf (l : list Z) : Z := foldl Z.add 0 l.

(** [Array.from({ length: n }, (_, i) => i)] *)
Definition indices {A} (l : list A) : list nat := seq 0 (length l).

(** [1 - overflow / excess], in doubles. *)
Definition shrinkFactorOf (overflow excess : Z) : double :=
  fsub (of_int 1) (fdiv (of_int overflow) (of_int excess)).

(** [1 + growth / smallColumnsWidth], in doubles. *)
Definition growFactorOf (growth smallColumnsWidth : Z) : double :=
  fadd (of_int 1) (fdiv (of_int growth) (of_int smallColumnsWidth)).

(** The variables that the loop of [shrinkColumns] and of [growColumns]
    assigns: the array, the running amount, the running total. *)
Definition loopState : Type := list Z * Z * Z.

(** One iteration of the loop of [shrinkColumns]. *)
Definition shrinkStep (shrinkFactor : double) (minimumWidth : Z)
    (st : loopState) (columnIndex : nat) : completion loopState :=
  let '(columnWidths, overflow, bigColumnsWidth) := st in
  let currentColumnWidth := columnWidths !!! columnIndex in
  floored ← Math_floor (fmul shrinkFactor (of_int currentColumnWidth));
  let fixedWidth := Z.max minimumWidth floored in
  let widthReduction := currentColumnWidth - fixedWidth in
  mret (<[columnIndex := fixedWidth]> columnWidths,
        overflow - widthReduction,
        bigColumnsWidth - widthReduction).

(** [for (const x of l) body], threading the assigned variables. *)
Fixpoint forOf {S A} (body : S → A → completion S) (l : list A) (st : S)
  : completion S :=
  match l with
  | [] => mret st
  | x :: l => st' ← body st x; forOf body l st'
  end.

(** [shrinkColumns] changes [columnWidths] in place and returns nothing;
    here it returns the array after the call.  When no column is big, the
    last statement reads index [-1] of an empty array and assigns to the
    property named [undefined]: no element of the array changes. *)
Definition shrinkColumns (columnWidths : list Z) (minimumWidth overflow : Z)
  : completion (list Z) :=
  let bigColumnIndices :=
    filter (λ i, minimumWidth < columnWidths !!! i) (indices columnWidths) in
  let bigColumnsWidth :=
    foldl (λ totalWidth columnIndex, totalWidth + columnWidths !!! columnIndex)
          0 bigColumnIndices in
  let shrinkFactor :=
    shrinkFactorOf overflow (bigColumnsWidth - len bigColumnIndices * minimumWidth) in
  '(columnWidths, overflow, _) ←
    forOf (shrinkStep shrinkFactor minimumWidth)
          (slice bigColumnIndices 0 (Some (-1)))
          (columnWidths, overflow, bigColumnsWidth);
  match last bigColumnIndices with
  | None => mret columnWidths
  | Some columnIndex =>
      mret (<[columnIndex := columnWidths !!! columnIndex - overflow]> columnWidths)
  end.

(** One iteration of the loop of [growColumns]. *)
Definition growStep (growFactor : double) (st : loopState) (columnIndex : nat)
  : completion loopState :=
  let '(columnWidths, growth, smallColumnsWidth) := st in
  let currentColumnWidth := columnWidths !!! columnIndex in
  fixedWidth ← Math_floor (fmul growFactor (of_int currentColumnWidth));
  let widthGrowth := fixedWidth - currentColumnWidth in
  mret (<[columnIndex := fixedWidth]> columnWidths,
        growth - widthGrowth,
        smallColumnsWidth + widthGrowth).

(** [growColumns], with the same conventions as [shrinkColumns]. *)
Definition growColumns (columnWidths : list Z) (minimumWidth growth : Z)
  : completion (list Z) :=
  let smallColumnIndices :=
    filter (λ i, columnWidths !!! i < minimumWidth) (indices columnWidths) in
  let smallColumnsWidth :=
    foldl (λ totalWidth columnIndex, totalWidth + columnWidths !!! columnIndex)
          0 smallColumnIndices in
  let growFactor := growFactorOf growth smallColumnsWidth in
  '(columnWidths, growth, _) ←
    forOf (growStep growFactor)
          (slice smallColumnIndices 0 (Some (-1)))
          (columnWidths, growth, smallColumnsWidth);
  match last smallColumnIndices with
  | None => mret columnWidths
  | Some columnIndex =>
      mret (<[columnIndex := columnWidths !!! columnIndex + growth]> columnWidths)
  end.

(** *** [createTable], in the phases of its body *)

Definition tooSmallMessage (columnCount maxWidth : Z) : str :=
  lit "The table does not fit. The width should be set to at least "
  ++ Number_toString (4 * columnCount + 1)
  ++ lit " (4 * ColumnCount + 1) for this table to fit (received width "
  ++ Number_toString maxWidth ++ lit ").".

Definition unknownSizingMessage (name : str) : str :=
  lit "Unknown column sizing '" ++ name ++ lit "'".

Definition bugReportMessage : str :=
  lit "Table does not fit. Please file a bug report as this error should not happen: https://github.com/timvandam/nice-table/issues/new".

(** Lines 54 to 56: the width of every column before any sizing.  Every row
    of [tableContent] is as long as [columnNames] by construction; the
    default of [!!!] is never read. *)
Definition naturalWidths (columnNames : list str)
    (tableContent : list (list str)) : list Z :=
  imap (λ i columnName,
          foldl Z.max (len columnName + 2)
                ((λ row : list str, len (row !!! i) + 2) <$> tableContent))
       columnNames.

(** Lines 58 to 87: the [switch] on the sizing strategy and the growth to
    the full width.  [overflow] is [None] when the source holds NaN in it
    ([-Infinity * 0] for a table without columns): every comparison with
    NaN is false. *)
Definition sizeColumns (columnSizing : ColumnSizing) (fullWidth : bool)
    (columnCount availableColumnWidth averageColumnWidth : Z)
    (columnWidths : list Z) : completion (list Z) :=
  let overflow := sumOf columnWidths - availableColumnWidth in
  '(columnWidths, overflow) ←
    match columnSizing with
    | stretch =>
        if 0 <? overflow then
          columnWidths ← shrinkColumns columnWidths averageColumnWidth overflow;
          mret (columnWidths, Some 0)
        else mret (columnWidths, Some overflow)
    | even =>
        match Math_max columnWidths with
        | None => mret (columnWidths, None)
        | Some maxColumnWidth =>
            let columnWidths := (λ _, maxColumnWidth) <$> columnWidths in
            let overflow := maxColumnWidth * columnCount - availableColumnWidth in
            if 0 <? overflow then
              columnWidths ← shrinkColumns columnWidths averageColumnWidth overflow;
              mret (columnWidths, Some 0)
            else mret (columnWidths, Some overflow)
        end
    | unknownSizing name => Throw (Error (unknownSizingMessage name))
    end;
  match overflow with
  | Some overflow =>
      if fullWidth && (overflow <? 0)
      then growColumns columnWidths averageColumnWidth (- overflow)
      else mret columnWidths
  | None => mret columnWidths
  end.

(** Lines 89 to 95: the check after the sizing. *)
Definition checkWidths (columnWidths : list Z) : completion () :=
  if decide (Exists (λ columnWidth, columnWidth < 3) columnWidths)
  then Throw (Error bugReportMessage)
  else mret ().

(** Lines 97 to 102: the four blocks, evaluated in order and joined. *)
Definition renderTable (columnNames : list str) (tableContent : list (list str))
    (columnWidths : list Z) (horizontalAlignment : HorizontalAlignment)
    (verticalAlignment : VerticalAlignment) : completion str :=
  top ← createTableTop columnWidths;
  names ← createTableColumnNames columnNames columnWidths
            horizontalAlignment verticalAlignment;
  rows ← createTableRows tableContent columnWidths
           horizontalAlignment verticalAlignment;
  bottom ← createTableBottom columnWidths;
  mret (join [LF] [top; names; rows; bottom]).

(** Lines 40 to 102: the feasibility check, the sizing, the check of the
    widths and the rendering, on the cells that lines 30 to 38 produce.
    [averageColumnWidth] is [Math.floor] of a quotient of two integers,
    which is the integer quotient rounded down; for a table without columns
    the source divides by zero, and no column is there to be compared with
    the outcome. *)
Definition layoutTable (columnNames : list str) (tableContent : list (list str))
    (columnCount : Z) (options : TableOptions) : completion str :=
  let minimumWidth := 4 * columnCount + 1 in
  if maxWidth options <? minimumWidth then
    let message := tooSmallMessage columnCount (maxWidth options) in
    if throwIfTooSmall options then Throw (Error message) else mret message
  else
    let availableColumnWidth := maxWidth options - columnCount - 1 in
    let averageColumnWidth := availableColumnWidth `div` columnCount in
    let columnWidths := naturalWidths columnNames tableContent in
    columnWidths ← sizeColumns (columnSizing options) (fullWidth options)
                     columnCount availableColumnWidth averageColumnWidth
                     columnWidths;
    _ ← checkWidths columnWidths;
    renderTable columnNames tableContent columnWidths
      (horizontalAlignment options) (verticalAlignment options).

Section CreateTable.

(** A key of the record type, with its [toString]; the value of a field,
    with the [inspect] of Node's [util].  An item gives a value to every
    key ([undefined] is a value). *)
Context {Key Value : Type}.
Variable toString : Key → str.
Variable inspect : Value → str.

(** Lines 30 to 38: the header row, the data rows and the number of
    columns, with the index column in front when it is asked for. *)
Definition tableCells (items : list (Key → Value)) (keys : list Key)
    (indexColumn : bool) : list str * list (list str) * Z :=
  let columnCount := len keys in
  let columnNames := toString <$> keys in
  let tableContent :=
    (λ item : Key → Value, (λ key, inspect (item key)) <$> keys) <$> items in
  if indexColumn
  then (lit "(index)" :: columnNames,
        imap (λ i row, Number_toString (Z.of_nat i) :: row) tableContent,
        columnCount + 1)
  else (columnNames, tableContent, columnCount).

Definition createTable (items : list (Key → Value)) (keys : list Key)
    (options : TableOptions) : completion str :=
  let '(columnNames, tableContent, columnCount) :=
    tableCells items keys (indexColumn options) in
  layoutTable columnNames tableContent columnCount options.

(** The widths that [createTable] renders with, when it gets as far as the
    check after the sizing: the same lines 52 to 87 on the same cells. *)
Definition finalWidths (items : list (Key → Value)) (keys : list Key)
    (options : TableOptions) : completion (list Z) :=
  let '(columnNames, tableContent, columnCount) :=
    tableCells items keys (indexColumn options) in
  let availableColumnWidth := maxWidth options - columnCount - 1 in
  let averageColumnWidth := availableColumnWidth `div` columnCount in
  sizeColumns (columnSizing options) (fullWidth options) columnCount
    availableColumnWidth averageColumnWidth
    (naturalWidths columnNames tableContent).

End CreateTable.

(** ** The arguments as objects of a store

    [createTable] receives references: to the array [items], whose elements
    are references to records, and to the array [keys].  What follows is
    lines 30 to 38 of the source again, this time on a store of objects, so
    that what the call writes, and where, is explicit.  The arrays that the
    rest of the body creates ([columnWidths] and the line arrays of
    [createMultiLineRows]) are local to it and are threaded as values
    above; they are not put in the store. *)

Section Store.

Context {Key Value : Type}.
Variable toString : Key → str.
Variable inspect : Value → str.

Inductive object :=
| KeyArray (elements : list Key)
| RefArray (elements : list positive)
| ItemRecord (fields : Key → Value)
| StringArray (elements : list str).

(** A step on the store: the value it yields and the store it leaves, or
    [None] when the store does not hold an object of the kind that the
    types of the source promise. *)
Definition step (A : Type) : Type :=
  gmap positive object → option (A * gmap positive object).

Definition stepRet {A} (a : A) : step A := λ σ, Some (a, σ).
Definition stepBind {A B} (m : step A) (f : A → step B) : step B :=
  λ σ, match m σ with Some (a, σ') => f a σ' | None => None end.

(** A new object, at an address that the store does not use. *)
Definition allocate (o : object) : step positive :=
  λ σ, let l := fresh (dom σ) in Some (l, <[l := o]> σ).

Definition readKeys (l : positive) : step (list Key) :=
  λ σ, match σ !! l with Some (KeyArray ks) => Some (ks, σ) | _ => None end.
Definition readRefs (l : positive) : step (list positive) :=
  λ σ, match σ !! l with Some (RefArray rs) => Some (rs, σ) | _ => None end.
Definition readRecord (l : positive) : step (Key → Value) :=
  λ σ, match σ !! l with Some (ItemRecord f) => Some (f, σ) | _ => None end.
Definition readStrings (l : positive) : step (list str) :=
  λ σ, match σ !! l with Some (StringArray ss) => Some (ss, σ) | _ => None end.

(** [array.unshift(s)] on an array of strings: the same object, changed. *)
Definition unshift (l : positive) (s : str) : step () :=
  stepBind (readStrings l) (λ elements,
    λ σ, Some ((), <[l := StringArray (s :: elements)]> σ)).

(** [keys.map((key) => key.toString())]: a new array. *)
Definition columnNamesOfKeys (keys : positive) : step positive :=
  stepBind (readKeys keys) (λ ks, allocate (StringArray (toString <$> ks))).

(** [keys.map((key) => inspect(item[key]))]: a new array for one item. *)
Definition rowOfItem (keys item : positive) : step positive :=
  stepBind (readRecord item) (λ fields,
  stepBind (readKeys keys) (λ ks,
    allocate (StringArray ((λ key, inspect (fields key)) <$> ks)))).

Fixpoint stepMap {A B} (f : A → step B) (l : list A) : step (list B) :=
  match l with
  | [] => stepRet []
  | x :: l => stepBind (f x) (λ y, stepBind (stepMap f l) (λ k, stepRet (y :: k)))
  end.

(** [items.map((item) => ...)]: a new array of the new rows. *)
Definition tableContentOfItems (items keys : positive) : step positive :=
  stepBind (readRefs items) (λ refs,
  stepBind (stepMap (rowOfItem keys) refs) (λ rows,
    allocate (RefArray rows))).

(** One call of the callback of [tableContent.forEach]: element [i] is read
    from the array as it is at that moment. *)
Definition prependIndex (tableContent : positive) (i : nat) : step () :=
  stepBind (readRefs tableContent) (λ rows,
    match rows !! i with
    | Some row => unshift row (Number_toString (Z.of_nat i))
    | None => stepRet ()
    end).

Fixpoint forEachIndex (body : nat → step ()) (indices : list nat) : step () :=
  match indices with
  | [] => stepRet ()
  | i :: indices => stepBind (body i) (λ _, forEachIndex body indices)
  end.

(** Lines 30 to 38 on the store: the references to [columnNames] and to
    [tableContent], and [columnCount]. *)
Definition buildCells (items keys : positive) (indexColumn : bool)
  : step (positive * positive * Z) :=
  stepBind (readKeys keys) (λ ks,
  let columnCount := len ks in
  stepBind (columnNamesOfKeys keys) (λ columnNames,
  stepBind (tableContentOfItems items keys) (λ tableContent,
  if indexColumn then
    stepBind (unshift columnNames (lit "(index)")) (λ _,
    stepBind (readRefs tableContent) (λ rows,
    stepBind (forEachIndex (prependIndex tableContent) (seq 0 (length rows)))
      (λ _, stepRet (columnNames, tableContent, columnCount + 1))))
  else stepRet (columnNames, tableContent, columnCount)))).

(** The array of strings at [l], and the array of arrays of strings at [l],
    read from the store. *)
Definition stringsAt (σ : gmap positive object) (l : positive) : option (list str) :=
  match σ !! l with Some (StringArray ss) => Some ss | _ => None end.

Definition rowsAt (σ : gmap positive object) (l : positive)
  : option (list (list str)) :=
  match σ !! l with
  | Some (RefArray rows) => mapM (stringsAt σ) rows
  | _ => None
  end.

(** [createTable] on the store: lines 30 to 38 on the objects, and the rest
    of the body, which only reads [columnNames] and [tableContent], on what
    they hold. *)
Definition createTableOnStore (items keys : positive) (options : TableOptions)
  : step (completion str) :=
  stepBind (buildCells items keys (indexColumn options))
    (λ '(columnNames, tableContent, columnCount) σ,
       match stringsAt σ columnNames, rowsAt σ tableContent with
       | Some names, Some content =>
           Some (layoutTable names content columnCount options, σ)
       | _, _ => None
       end).

(** The arguments of a call, as the types of the source have them: [keys]
    is an array of keys, [items] an array of references to records. *)
Definition argumentsIn (σ : gmap positive object) (items keys : positive)
    (records : list (Key → Value)) (ks : list Key) : Prop :=
  σ !! keys = Some (KeyArray ks)
  ∧ ∃ refs, σ !! items = Some (RefArray refs)
      ∧ Forall2 (λ ref fields, σ !! ref = Some (ItemRecord fields)) refs records.

End Store.

(** ** Notions that the statements below use *)

(** The count of columns that [createTable] works with is the number of keys,
    plus one for the index column. *)
Definition columnCountOf {Key} (keys : list Key) (options : TableOptions) : Z :=
  len keys + (if indexColumn options then 1 else 0).

(** A computation whose exceptions, if any, all satisfy [P]. *)
Definition throwsOnly {A} (P : exn → Prop) (m : completion A) : Prop :=
  ∀ e, m = Throw e → P e.

(** A computation that does not end in an exception. *)
Definition noThrow {A} (m : completion A) : Prop := throwsOnly (λ _, False) m.

(** The exceptions that the runtime raises, as opposed to the [Error]s that
    the source constructs. *)
Definition isRuntimeError (e : exn) : Prop :=
  match e with Error _ => False | _ => True end.

(** *** The shrink step, following the words of the specification

    The big columns are those wider than [averageWidth].  Every big column
    but the last becomes [max(averageWidth, floor(shrinkFactor * width))]
    and the running overflow loses what the column lost; the last big
    column loses all of the overflow that remains; the other columns stay.
    [shrinkFactor] is [1 - overflow / (sum(big widths) - count(big) *
    averageWidth)], from the overflow at the start. *)
Fixpoint shrinkWalk (shrinkFactor : double) (averageWidth overflow : Z)
    (widths : list Z) : completion (list Z) :=
  match widths with
  | [] => mret []
  | width :: others =>
      if decide (averageWidth < width) then
        if decide (Exists (λ w, averageWidth < w) others) then
          floored ← Math_floor (fmul shrinkFactor (of_int width));
          let newWidth := Z.max averageWidth floored in
          others ← shrinkWalk shrinkFactor averageWidth
                      (overflow - (width - newWidth)) others;
          mret (newWidth :: others)
        else mret (width - overflow :: others)
      else
        others ← shrinkWalk shrinkFactor averageWidth overflow others;
        mret (width :: others)
  end.

Definition shrinkSpec (widths : list Z) (averageWidth overflow : Z)
  : completion (list Z) :=
  let big := filter (λ w, averageWidth < w) widths in
  let shrinkFactor :=
    fsub (of_int 1)
         (fdiv (of_int overflow)
               (of_int (foldr Z.add 0 big - len big * averageWidth))) in
  shrinkWalk shrinkFactor averageWidth overflow widths.

(** The indices of the columns that satisfy [P] in [suffix], which starts at
    index [k] of the array: what [Array.from(...).filter(...)] collects. *)
Fixpoint selectedFrom (P : Z → Prop) `{!∀ w, Decision (P w)} (k : nat)
    (suffix : list Z) : list nat :=
  match suffix with
  | [] => []
  | w :: suffix =>
      if decide (P w) then k :: selectedFrom P (S k) suffix
      else selectedFrom P (S k) suffix
  end.

(** *** The grow step, as a walk along the columns

    The small columns are those narrower than [averageWidth].  Every small
    column but the last becomes [floor(growFactor * width)] and the running
    growth loses what the column gained; the last small column gains all of
    the growth that remains; the other columns stay.  [growFactor] is
    [1 + growth / sum(small widths)], from the growth at the start. *)
Fixpoint growWalk (growFactor : double) (averageWidth growth : Z)
    (widths : list Z) : completion (list Z) :=
  match widths with
  | [] => mret []
  | width :: others =>
      if decide (width < averageWidth) then
        if decide (Exists (λ w, w < averageWidth) others) then
          newWidth ← Math_floor (fmul growFactor (of_int width));
          others ← growWalk growFactor averageWidth
                      (growth - (newWidth - width)) others;
          mret (newWidth :: others)
        else mret (width + growth :: others)
      else
        others ← growWalk growFactor averageWidth growth others;
        mret (width :: others)
  end.

Definition growSpec (widths : list Z) (averageWidth growth : Z)
  : completion (list Z) :=
  let small := filter (λ w, w < averageWidth) widths in
  let growFactor :=
    fadd (of_int 1) (fdiv (of_int growth) (of_int (foldr Z.add 0 small))) in
  growWalk growFactor averageWidth growth widths.

(** A text without line break. *)
Definition singleLine (text : str) : Prop := LF ∉ text.

(** Line [i] of a text cut every [innerWidth] code units, if there is one. *)
Definition sliceAt (innerWidth : nat) (text : str) (i : nat) : option str :=
  if decide (i * innerWidth < length text)%nat
  then Some (take innerWidth (drop (i * innerWidth) text))
  else None.

(** Texts that fit in their columns with a space on each side. *)
Definition fitsColumns (texts : list str) (columnWidths : list Z) : Prop :=
  Forall2 (λ text columnWidth, len text ≤ columnWidth - 2) texts columnWidths.

(** A line between two border glyphs, with [between] between the parts. *)
Definition framed (first between last_ : N) (parts : list str) : str :=
  [first] ++ join [between] parts ++ [last_].


(** The header row and the data rows that lines 30 to 38 of [createTable]
    build, and the two together, the header first. *)
Definition columnNamesOf {Key Value} (toString : Key → str)
    (inspect : Value → str) (items : list (Key → Value)) (keys : list Key)
    (options : TableOptions) : list str :=
  (tableCells toString inspect items keys (indexColumn options)).1.1.

Definition tableContentOf {Key Value} (toString : Key → str)
    (inspect : Value → str) (items : list (Key → Value)) (keys : list Key)
    (options : TableOptions) : list (list str) :=
  (tableCells toString inspect items keys (indexColumn options)).1.2.

Definition tableRows {Key Value} (toString : Key → str) (inspect : Value → str)
    (items : list (Key → Value)) (keys : list Key) (options : TableOptions)
  : list (list str) :=
  columnNamesOf toString inspect items keys options
  :: tableContentOf toString inspect items keys options.

(** A row that the layout renders on lines of their own: no text of it has a
    line break in it, and not all of its texts are empty. *)
Definition plainRow (row : list str) : Prop :=
  Forall singleLine row ∧ Exists (λ text, text ≠ []) row.

#[global] Instance singleLine_dec text : Decision (singleLine text).
Proof. unfold singleLine. apply _. Defined.

#[global] Instance plainRow_dec row : Decision (plainRow row).
Proof. unfold plainRow. apply _. Defined.

(** The last statement of [shrinkColumns] and of [growColumns], on the
    variables that the loop leaves. *)
Definition shrinkFinish (st : loopState) (lastIndex : option nat)
  : completion (list Z) :=
  let '(columnWidths, overflow, _) := st in
  match lastIndex with
  | None => mret columnWidths
  | Some columnIndex =>
      mret (<[columnIndex := columnWidths !!! columnIndex - overflow]> columnWidths)
  end.

Definition growFinish (st : loopState) (lastIndex : option nat)
  : completion (list Z) :=
  let '(columnWidths, growth, _) := st in
  match lastIndex with
  | None => mret columnWidths
  | Some columnIndex =>
      mret (<[columnIndex := columnWidths !!! columnIndex + growth]> columnWidths)
  end.

(** A double that is a zero, or finite with an exponent of at least [lo] and
    a magnitude below [2 ^ hi]: neither a NaN nor an infinity. *)
Definition within (lo hi : Z) (x : double) : Prop :=
  match x with
  | S754_zero _ => True
  | S754_finite _ m e => lo ≤ e ∧ e + Z.pos (digits2_pos m) ≤ hi
  | _ => False
  end.

(** The number of lines that a text takes in a column:
    [ceil(length / (columnWidth - 2))]. *)
Definition lineCount (text : str) (columnWidth : Z) : nat :=
  Z.to_nat ((len text + (columnWidth - 2) - 1) `div` (columnWidth - 2)).

(** The number of lines of a row: that of its tallest cell. *)
Definition heightOf (columnWidths : list Z) (row : list str) : nat :=
  max_list (zip_with lineCount row columnWidths).

(** *** The sizes that an engine holds

    The model has strings and argument lists of any length.  An engine has
    a longest string (in V8, [2 ^ 29 - 24] code units) and passes only as
    many arguments to a call as its stack holds (in V8, some [10 ^ 5]);
    past them a call ends in a [RangeError] that the model does not have.
    The source spreads one argument for every item ([Math.max] over a
    column, line 55), for every column ([Math.max] over the widths, line
    69) and for every empty line put above a cell ([unshift], line 199),
    and the longest string that it builds is the table: at most
    [3 + (items + 1) * max(1, longest)] lines, [longest] being the length
    of the longest text, each of at most [maxWidth] code units and a line
    break.  [withinCapacity] keeps every one of these well below the
    bounds. *)
Definition longestOf (texts : list str) : Z := foldr Z.max 0 (len <$> texts).

Definition withinCapacity (columnNames : list str)
    (tableContent : list (list str)) (maxWidth : Z) : Prop :=
  let longest := longestOf (columnNames ++ concat tableContent) in
  len tableContent < 2 ^ 14
  ∧ len columnNames < 2 ^ 14
  ∧ longest < 2 ^ 14
  ∧ (3 + (len tableContent + 1) * Z.max 1 longest) * (maxWidth + 1) < 2 ^ 24.

(** ** Concrete inputs

    Records whose keys are strings ([toString] of a string is the string
    itself) and whose fields are integers, which [inspect] prints in
    decimal. *)

Definition stringKey (key : str) : str := key.
Definition inspectInteger (value : Z) : str := Number_toString value.

Definition allOnes : str → Z := λ _, 1.

(** [createTable([{ab: 1, cd: 1}], ['ab', 'cd'], {maxWidth: 12, fullWidth: true})] *)
Definition fullWidth12 : TableOptions := {|
  maxWidth := 12; columnSizing := stretch;
  horizontalAlignment := h_middle; verticalAlignment := v_middle;
  fullWidth := true; throwIfTooSmall := true; indexColumn := false |}.

(** [createTable([{a: 1, b: 1}], ['a', 'b'],
                 {maxWidth: 20, columnSizing: 'even', fullWidth: true})] *)
Definition evenFullWidth20 : TableOptions := {|
  maxWidth := 20; columnSizing := even;
  horizontalAlignment := h_middle; verticalAlignment := v_middle;
  fullWidth := true; throwIfTooSmall := true; indexColumn := false |}.

(** The same without [fullWidth]. *)
Definition even20 : TableOptions := {|
  maxWidth := 20; columnSizing := even;
  horizontalAlignment := h_middle; verticalAlignment := v_middle;
  fullWidth := false; throwIfTooSmall := true; indexColumn := false |}.

(** [{maxWidth: 5}], the minimum for one column. *)
Definition width5 : TableOptions := {|
  maxWidth := 5; columnSizing := stretch;
  horizontalAlignment := h_middle; verticalAlignment := v_middle;
  fullWidth := false; throwIfTooSmall := true; indexColumn := false |}.

(** [{maxWidth: 8, throwIfTooSmall: false}], one short of the minimum for two
    columns. *)
Definition width8 : TableOptions := {|
  maxWidth := 8; columnSizing := stretch;
  horizontalAlignment := h_middle; verticalAlignment := v_middle;
  fullWidth := false; throwIfTooSmall := false; indexColumn := false |}.

(** [{maxWidth: 9}], the minimum for two columns. *)
Definition width9 : TableOptions := {|
  maxWidth := 9; columnSizing := stretch;
  horizontalAlignment := h_middle; verticalAlignment := v_middle;
  fullWidth := false; throwIfTooSmall := true; indexColumn := false |}.

(** [{maxWidth: 9, columnSizing: 'even'}] *)
Definition evenWidth9 : TableOptions := {|
  maxWidth := 9; columnSizing := even;
  horizontalAlignment := h_middle; verticalAlignment := v_middle;
  fullWidth := false; throwIfTooSmall := true; indexColumn := false |}.

(** [{indexColumn: true}] *)
Definition indexed : TableOptions := {|
  maxWidth := 80; columnSizing := stretch;
  horizontalAlignment := h_middle; verticalAlignment := v_middle;
  fullWidth := false; throwIfTooSmall := true; indexColumn := true |}.

(** A store with the arguments of [createTable([{a: 1}], ['a'])]: the array
    of keys at 1, the array of items at 2, the record at 3. *)
Definition exampleStore : gmap positive (@object str Z) :=
  <[1%positive := KeyArray [lit "a"]]>
    (<[2%positive := RefArray [3%positive]]>
       (<[3%positive := ItemRecord allOnes]> ∅)).

(** The key [""]: the empty name. *)
Definition emptyKey : str := [].

(** The key ["a\nb"]: a name with a line break in it. *)
Definition brokenKey : str := lit "a" ++ [LF] ++ lit "b".

(** What [createTable] returns on a call, or the empty string when it does
    not return. *)
Definition returned (result : completion str) : str :=
  match result with Normal out => out | _ => [] end.

(** [createTable([{name: 1, age: 1}], ['name', 'age'])] with the defaults. *)
Definition smallTable : str :=
  Eval vm_compute in
    returned (createTable stringKey inspectInteger [allOnes]
                [lit "name"; lit "age"] defaultOptions).



(** [{maxWidth: 20, fullWidth: true}] *)
Definition fullWidth20 : TableOptions := {|
  maxWidth := 20; columnSizing := stretch;
  horizontalAlignment := h_middle; verticalAlignment := v_middle;
  fullWidth := true; throwIfTooSmall := true; indexColumn := false |}.

(** [{columnSizing: name}], for a name that the type does not allow. *)
Definition sizedBy (name : str) : TableOptions := {|
  maxWidth := 80; columnSizing := unknownSizing name;
  horizontalAlignment := h_middle; verticalAlignment := v_middle;
  fullWidth := false; throwIfTooSmall := true; indexColumn := false |}.

(** No item at all, for records with string keys and integer fields. *)
Definition noItems : list (str → Z) := [].

(** [createTable([], ['a'])] with the defaults. *)
Definition emptyTable : str :=
  Eval vm_compute in
    returned (createTable stringKey inspectInteger noItems [lit "a"]
                defaultOptions).

(** * Properties *)

(** ** The completion monad *)

Lemma bind_Normal {A B} (m : completion A) (f : A → completion B) b :
  m ≫= f = Normal b ↔ ∃ a, m = Normal a ∧ f a = Normal b.
Proof.
  destruct m; simpl; split; try (intros [a' [? ?]]); try discriminate; eauto.
  by simplify_eq.
Qed.

Lemma mapM_Normal {A B} (f : A → completion B) l k :
  mapM f l = Normal k ↔ Forall2 (λ x y, f x = Normal y) l k.
Proof.
  revert k. induction l as [|x l IH]; intros k; simpl.
  - split; [intros [= <-]; constructor | by inversion 1].
  - rewrite bind_Normal. split.
    + intros (y & Hy & Hk). apply bind_Normal in Hk as (k' & Hk' & [= <-]).
      constructor; [done | by apply IH].
    + inversion 1 as [|? y ? k' Hy Hk']; subst. exists y. split; [done|].
      apply bind_Normal. exists k'. split; [by apply IH | done].
Qed.

Ltac inv_bind H :=
  repeat match type of H with
  | _ ≫= _ = Normal _ =>
      let a := fresh "a" in let Ha := fresh "Ha" in
      apply bind_Normal in H as (a & Ha & H)
  | mret _ = Normal _ => injection H as H
  | Normal _ = Normal _ => injection H as H
  end.

Lemma throwsOnly_bind {A B} P (m : completion A) (f : A → completion B) :
  throwsOnly P m → (∀ a, m = Normal a → throwsOnly P (f a)) →
  throwsOnly P (m ≫= f).
Proof.
  intros Hm Hf e. destruct m as [a| | |]; simpl; try done.
  - by apply Hf.
  - intros [= ->]. by apply Hm.
Qed.

Lemma throwsOnly_Normal {A} P (a : A) : throwsOnly P (Normal a).
Proof. by intros e. Qed.

Lemma throwsOnly_mret {A} P (a : A) : throwsOnly P (mret a).
Proof. by intros e. Qed.

Lemma throwsOnly_mapM {A B} P (f : A → completion B) l :
  (∀ x, throwsOnly P (f x)) → throwsOnly P (mapM f l).
Proof.
  intros Hf. induction l as [|x l IH]; simpl.
  - apply throwsOnly_mret.
  - apply throwsOnly_bind; [apply Hf | intros y _].
    apply throwsOnly_bind; [apply IH | intros; apply throwsOnly_mret].
Qed.

Lemma throwsOnly_imapM {A B} P (f : nat → A → completion B) l :
  (∀ i x, throwsOnly P (f i x)) → throwsOnly P (imapM f l).
Proof. intros Hf. apply throwsOnly_mapM. intros [i x]. apply Hf. Qed.

Lemma noThrow_bind {A B} (m : completion A) (f : A → completion B) :
  noThrow m → (∀ a, m = Normal a → noThrow (f a)) → noThrow (m ≫= f).
Proof. apply throwsOnly_bind. Qed.

Lemma noThrow_Normal {A} (a : A) : noThrow (Normal a).
Proof. by intros e. Qed.

Lemma noThrow_Math_floor x : noThrow (Math_floor x).
Proof. intros e. by destruct x. Qed.

Lemma noThrow_forOf {S A} (body : S → A → completion S) l st :
  (∀ st x, noThrow (body st x)) → noThrow (forOf body l st).
Proof.
  intros Hb. revert st. induction l as [|x l IH]; intros st; simpl.
  - apply noThrow_Normal.
  - apply noThrow_bind; [apply Hb | intros; apply IH].
Qed.

Lemma noThrow_shrinkColumns ws m o : noThrow (shrinkColumns ws m o).
Proof.
  unfold shrinkColumns. apply noThrow_bind.
  - apply noThrow_forOf. intros [[ws' o'] b'] i. unfold shrinkStep.
    apply noThrow_bind; [apply noThrow_Math_floor | intros; apply noThrow_Normal].
  - intros [[ws' o'] b'] _. destruct (last _); apply noThrow_Normal.
Qed.

Lemma noThrow_growColumns ws m g : noThrow (growColumns ws m g).
Proof.
  unfold growColumns. apply noThrow_bind.
  - apply noThrow_forOf. intros [[ws' o'] b'] i. unfold growStep.
    apply noThrow_bind; [apply noThrow_Math_floor | intros; apply noThrow_Normal].
  - intros [[ws' o'] b'] _. destruct (last _); apply noThrow_Normal.
Qed.

(** The only exception of the sizing is the one for an unknown strategy. *)
Lemma sizeColumns_Throw sizing fw c avail avg ws e :
  sizeColumns sizing fw c avail avg ws = Throw e →
  ∃ name, sizing = unknownSizing name ∧ e = Error (unknownSizingMessage name).
Proof.
  unfold sizeColumns. intros H.
  destruct sizing as [| |name]; [| |simpl in H; simplify_eq; eauto]; exfalso;
    revert H; apply (noThrow_bind _ _).
  - case_match; [|apply noThrow_Normal].
    apply noThrow_bind; [apply noThrow_shrinkColumns|intros; apply noThrow_Normal].
  - intros [ws' [o|]] _; [|apply noThrow_Normal].
    case_match; [apply noThrow_growColumns|apply noThrow_Normal].
  - destruct (Math_max ws); [|apply noThrow_Normal].
    case_match; [|apply noThrow_Normal].
    apply noThrow_bind; [apply noThrow_shrinkColumns|intros; apply noThrow_Normal].
  - intros [ws' [o|]] _; [|apply noThrow_Normal].
    case_match; [apply noThrow_growColumns|apply noThrow_Normal].
Qed.

(** ** The feasibility check *)

Section Feasibility.

Context {Key Value : Type}.
Variable toString : Key → str.
Variable inspect : Value → str.

Lemma tableCells_columnCount items keys options :
  (tableCells toString inspect items keys (indexColumn options)).2
  = columnCountOf keys options.
Proof.
  unfold tableCells, columnCountOf. destruct (indexColumn options); simpl; lia.
Qed.

Lemma tooSmallMessage_head c w : ∃ rest, tooSmallMessage c w = 84%N :: 104%N :: rest.
Proof. unfold tooSmallMessage. eexists. reflexivity. Qed.

Lemma createTableTop_head ws top :
  createTableTop ws = Normal top → ∃ rest, top = TOP_LEFT :: rest.
Proof.
  unfold createTableTop. intros H. inv_bind H. subst. eexists. reflexivity.
Qed.

Lemma renderTable_head names content ws ha va out :
  renderTable names content ws ha va = Normal out →
  ∃ rest, out = TOP_LEFT :: rest.
Proof.
  unfold renderTable. intros H. inv_bind H. subst.
  match goal with H : createTableTop _ = _ |- _ =>
    apply createTableTop_head in H as [rest ->] end.
  eexists. reflexivity.
Qed.

Lemma throwsOnly_String_repeat s n : throwsOnly isRuntimeError (String_repeat s n).
Proof. unfold String_repeat. intros e. case_match; by intros [= <-]. Qed.

Lemma throwsOnly_border ws :
  throwsOnly isRuntimeError (mapM (λ size, String_repeat [HORIZONTAL] size) ws).
Proof. apply throwsOnly_mapM. intros. apply throwsOnly_String_repeat. Qed.

Lemma throwsOnly_createRow cells ws ha :
  throwsOnly isRuntimeError (createRow cells ws ha).
Proof.
  unfold createRow. apply throwsOnly_bind; [|intros; apply throwsOnly_mret].
  apply throwsOnly_imapM. intros i w. destruct ha; try apply throwsOnly_mret.
  unfold centerText. destruct (cells !! i); [|by intros e [= <-]].
  apply throwsOnly_bind; [apply throwsOnly_String_repeat|intros; apply throwsOnly_mret].
Qed.

Lemma noThrow_cellLinesLoop fuel cell w : noThrow (cellLinesLoop fuel cell w).
Proof.
  revert cell. induction fuel as [|fuel IH]; intros cell; simpl; [by intros e|].
  case_decide; [apply noThrow_Normal|].
  apply noThrow_bind; [apply IH | intros; apply noThrow_Normal].
Qed.

Lemma throwsOnly_createMultiLineRows row ws ha va :
  throwsOnly isRuntimeError (createMultiLineRows row ws ha va).
Proof.
  unfold createMultiLineRows. apply throwsOnly_bind.
  - apply throwsOnly_imapM. intros i w. destruct (row !! i); [|by intros e [= <-]].
    intros e He. by apply noThrow_cellLinesLoop in He.
  - intros cells _. apply throwsOnly_bind; [|intros; apply throwsOnly_mret].
    apply throwsOnly_mapM. intros. apply throwsOnly_createRow.
Qed.

(** The rendering raises no [Error] of the source's own. *)
Lemma throwsOnly_renderTable names content ws ha va :
  throwsOnly isRuntimeError (renderTable names content ws ha va).
Proof.
  unfold renderTable, createTableTop, createTableBottom, createTableColumnNames,
    createTableRows, createTableMiddleLine.
  repeat first
    [ apply throwsOnly_mret
    | apply throwsOnly_border
    | apply throwsOnly_createMultiLineRows
    | apply throwsOnly_mapM; intros
    | apply throwsOnly_bind; [|intros ? _] ].
Qed.

Lemma sizing_messages_differ c w name :
  tooSmallMessage c w ≠ unknownSizingMessage name
  ∧ tooSmallMessage c w ≠ bugReportMessage.
Proof.
  destruct (tooSmallMessage_head c w) as [rest ->]. split; discriminate.
Qed.

(** C1. With [columnCount] the number of keys plus one for the index column:
    when [maxWidth < 4 * columnCount + 1] the call ends at the check, with an
    error whose message spells out [4 * columnCount + 1] and [maxWidth] when
    [throwIfTooSmall] is set, and with that message as its result otherwise;
    when [maxWidth >= 4 * columnCount + 1] the call ends neither way. *)
Theorem createTable_minimum_width items keys options :
  let columnCount := columnCountOf keys options in
  let message :=
    lit "The table does not fit. The width should be set to at least "
    ++ Number_toString (4 * columnCount + 1)
    ++ lit " (4 * ColumnCount + 1) for this table to fit (received width "
    ++ Number_toString (maxWidth options) ++ lit ")." in
  (maxWidth options < 4 * columnCount + 1 →
     createTable toString inspect items keys options
     = if throwIfTooSmall options then Throw (Error message) else Normal message)
  ∧ (4 * columnCount + 1 ≤ maxWidth options →
     createTable toString inspect items keys options ≠ Throw (Error message)
     ∧ createTable toString inspect items keys options ≠ Normal message).
Proof.
  intros columnCount message.
  assert (Hmsg : message = tooSmallMessage columnCount (maxWidth options)) by done.
  clearbody message. subst message.
  pose proof (tableCells_columnCount items keys options) as Hc.
  fold columnCount in Hc. unfold createTable, layoutTable.
  destruct (tableCells _ _ _ _ _) as [[names content] c]. simpl in Hc. subst c.
  split; intros Hw.
  - apply Z.ltb_lt in Hw. by rewrite Hw.
  - apply Z.ltb_ge in Hw. rewrite Hw.
    destruct (sizing_messages_differ columnCount (maxWidth options) []) as [_ Hbug].
    destruct (sizeColumns _ _ _ _ _ _) as [ws|e| |] eqn:Hsize; simpl; try done.
    + unfold checkWidths. case_decide; simpl.
      * split; [congruence | done].
      * split; [|intros Hr; apply renderTable_head in Hr as [rest Hr];
                 destruct (tooSmallMessage_head columnCount (maxWidth options))
                   as [rest' Hm]; rewrite Hm in Hr; discriminate].
        intros Hr. by apply throwsOnly_renderTable in Hr.
    + apply sizeColumns_Throw in Hsize as (name & _ & ->).
      split; [|done]. intros [= Heq].
Qed.

End Feasibility.

(** ** Arrays of numbers *)

Lemma foldl_add_shift (l : list Z) a : foldl Z.add a l = a + foldl Z.add 0 l.
Proof.
  revert a. induction l as [|x l IH]; intros a; simpl; [lia|].
  rewrite (IH (a + x)), (IH (0 + x)). lia.
Qed.

Lemma sum_cons x l : sumOf (x :: l) = x + sumOf l.
Proof. unfold sumOf. simpl. rewrite foldl_add_shift. lia. Qed.

Lemma sum_nil : sumOf [] = 0.
Proof. done. Qed.

Lemma sum_foldr l : sumOf l = foldr Z.add 0 l.
Proof. induction l as [|x l IH]; [done|]. rewrite sum_cons, IH. done. Qed.

Lemma sum_app l k : sumOf (l ++ k) = sumOf l + sumOf k.
Proof.
  induction l as [|x l IH]; simpl; [by rewrite sum_nil|].
  rewrite !sum_cons, IH. lia.
Qed.

Lemma slice_all_but_last {A} (l : list A) :
  slice l 0 (Some (-1)) = take (length l - 1) l.
Proof.
  unfold slice, relativeIndex. simpl.
  replace (Z.to_nat (Z.min 0 (Z.of_nat (length l)))) with 0%nat by lia.
  rewrite drop_0. f_equal. lia.
Qed.

Lemma take_pred_cons {A} (x : A) l :
  take (length (x :: l) - 1) (x :: l)
  = match l with [] => [] | _ => x :: take (length l - 1) l end.
Proof. destruct l as [|y l]; simpl; [done|]. by rewrite Nat.sub_0_r. Qed.

Lemma forOf_app {S A} (body : S → A → completion S) l k st :
  forOf body (l ++ k) st = forOf body l st ≫= forOf body k.
Proof.
  revert st. induction l as [|x l IH]; intros st; simpl; [done|].
  destruct (body st x); simpl; auto.
Qed.

(** ** The indices that the two steps select *)

Section Selected.

Context (P : Z → Prop) `{!∀ w, Decision (P w)}.

Lemma selected_indices_from prefix suffix :
  filter (λ i, P ((prefix ++ suffix) !!! i))
         (seq (length prefix) (length suffix))
  = selectedFrom P (length prefix) suffix.
Proof.
  revert prefix. induction suffix as [|w suffix IH]; intros prefix; simpl; [done|].
  rewrite filter_cons.
  replace ((prefix ++ w :: suffix) !!! length prefix) with w
    by (by rewrite list_lookup_total_middle).
  specialize (IH (prefix ++ [w])). rewrite <- app_assoc in IH. simpl in IH.
  rewrite length_app in IH. simpl in IH. rewrite Nat.add_1_r in IH.
  rewrite IH. by case_decide.
Qed.

Lemma selected_indices ws :
  filter (λ i, P (ws !!! i)) (indices ws) = selectedFrom P 0 ws.
Proof. apply (selected_indices_from [] ws). Qed.

Lemma selectedFrom_nil k suffix :
  selectedFrom P k suffix = [] ↔ ¬ Exists P suffix.
Proof.
  revert k. induction suffix as [|w suffix IH]; intros k; simpl.
  - split; [intros _ Hex; inversion Hex | done].
  - rewrite Exists_cons. case_decide.
    + split; [done | intros []; by left].
    + rewrite IH. split; [intros Hs [?|?]; done | intros Hs ?; apply Hs; by right].
Qed.

Lemma selectedFrom_length k suffix :
  length (selectedFrom P k suffix) = length (filter P suffix).
Proof.
  revert k. induction suffix as [|w suffix IH]; intros k; simpl; [done|].
  rewrite filter_cons. case_decide; simpl; by rewrite IH.
Qed.

Lemma selectedFrom_total prefix suffix a :
  foldl (λ total i, total + (prefix ++ suffix) !!! i) a
        (selectedFrom P (length prefix) suffix)
  = a + foldr Z.add 0 (filter P suffix).
Proof.
  revert prefix a. induction suffix as [|w suffix IH]; intros prefix a; simpl; [lia|].
  specialize (IH (prefix ++ [w])). rewrite <- app_assoc in IH. simpl in IH.
  rewrite length_app in IH. simpl in IH. rewrite Nat.add_1_r in IH.
  rewrite filter_cons. case_decide; simpl.
  - rewrite list_lookup_total_middle by done. rewrite IH. lia.
  - apply IH.
Qed.

End Selected.

Lemma insert_middle {A} (prefix : list A) x y suffix :
  <[length prefix := y]> (prefix ++ x :: suffix) = prefix ++ y :: suffix.
Proof.
  rewrite insert_app_r_alt by lia. by rewrite Nat.sub_diag.
Qed.

Lemma bind_mret {A} (m : completion A) : m ≫= mret = m.
Proof. by destruct m. Qed.

(** ** The shrink step *)

Section Shrink.

Variable minimumWidth : Z.

Local Abbreviation bigFrom := (selectedFrom (λ w, minimumWidth < w)).

Lemma shrinkStep_middle shrinkFactor prefix w suffix o b :
  shrinkStep shrinkFactor minimumWidth (prefix ++ w :: suffix, o, b) (length prefix)
  = Math_floor (fmul shrinkFactor (of_int w)) ≫= λ floored,
      let fixedWidth := Z.max minimumWidth floored in
      mret (prefix ++ fixedWidth :: suffix, o - (w - fixedWidth), b - (w - fixedWidth)).
Proof.
  unfold shrinkStep. rewrite list_lookup_total_middle by done.
  destruct (Math_floor _); simpl; [|done..]. by rewrite insert_middle.
Qed.

(** The loop over the indices, then the last statement, is the walk along
    the columns. *)
Lemma shrink_loop_walk shrinkFactor suffix : ∀ prefix overflow bigColumnsWidth,
  let bigColumnIndices := bigFrom (length prefix) suffix in
  forOf (shrinkStep shrinkFactor minimumWidth)
        (take (length bigColumnIndices - 1) bigColumnIndices)
        (prefix ++ suffix, overflow, bigColumnsWidth)
    ≫= (λ st, shrinkFinish st (last bigColumnIndices))
  = shrinkWalk shrinkFactor minimumWidth overflow suffix
      ≫= (λ suffix', mret (prefix ++ suffix')).
Proof.
  induction suffix as [|w suffix IH]; intros prefix o b; simpl; [done|].
  assert (Hnext : ∀ w', (prefix ++ [w']) ++ suffix = prefix ++ w' :: suffix)
    by (intros; by rewrite <- app_assoc).
  assert (Hlen : ∀ w', length (prefix ++ [w']) = Datatypes.S (length prefix))
    by (intros; rewrite length_app; simpl; lia).
  destruct (decide (minimumWidth < w)) as [Hbig|Hsmall].
  - destruct (decide (Exists (λ w0, minimumWidth < w0) suffix)) as [Hmore|Hlast].
    + assert (Hne : bigFrom (Datatypes.S (length prefix)) suffix ≠ [])
        by (by rewrite selectedFrom_nil; intros []).
      rewrite take_pred_cons.
      destruct (bigFrom (Datatypes.S (length prefix)) suffix) as [|j idx] eqn:Hidx;
        [done|]. clear Hne.
      cbn [forOf]. rewrite shrinkStep_middle.
      destruct (Math_floor _) as [fl| | |]; [|done..].
      cbn [mbind completion_bind mret completion_ret].
      specialize (IH (prefix ++ [Z.max minimumWidth fl])
                     (o - (w - Z.max minimumWidth fl))
                     (b - (w - Z.max minimumWidth fl))).
      cbn zeta in IH. rewrite Hlen, Hnext, Hidx in IH.
      replace (last (length prefix :: j :: idx)) with (last (j :: idx)) by done.
      etrans; [apply IH|].
      destruct (shrinkWalk _ _ _ suffix); [|done..].
      cbn. by rewrite <- app_assoc.
    + apply (selectedFrom_nil _ (Datatypes.S (length prefix))) in Hlast.
      rewrite Hlast. cbn.
      rewrite list_lookup_total_middle by done. by rewrite insert_middle.
  - specialize (IH (prefix ++ [w]) o b). cbn zeta in IH.
    rewrite Hlen, Hnext in IH. etrans; [apply IH|].
    destruct (shrinkWalk _ _ _ suffix); [|done..].
    cbn. by rewrite <- app_assoc.
Qed.

Lemma shrinkColumns_walk columnWidths overflow :
  shrinkColumns columnWidths minimumWidth overflow
  = shrinkSpec columnWidths minimumWidth overflow.
Proof.
  unfold shrinkColumns, shrinkSpec.
  rewrite (selected_indices (λ w, minimumWidth < w)), slice_all_but_last.
  pose proof (selectedFrom_total (λ w, minimumWidth < w) [] columnWidths 0) as Ht.
  cbn [app length] in Ht. rewrite Ht. clear Ht. unfold len.
  rewrite selectedFrom_length, Z.add_0_l.
  pose proof (shrink_loop_walk
    (shrinkFactorOf overflow
       (foldr Z.add 0 (filter (λ w, minimumWidth < w) columnWidths)
        - Z.of_nat (length (filter (λ w, minimumWidth < w) columnWidths))
          * minimumWidth))
    columnWidths [] overflow
    (foldr Z.add 0 (filter (λ w, minimumWidth < w) columnWidths))) as H.
  cbn zeta in H. simpl length in H. simpl app in H.
  rewrite <- (bind_mret (shrinkWalk _ _ _ _)). etrans; [|apply H].
  by rewrite selectedFrom_length.
Qed.

End Shrink.

Lemma foldl_max_ge x l : x ≤ foldl Z.max x l ∧ Forall (λ y, y ≤ foldl Z.max x l) l.
Proof.
  revert x. induction l as [|y l IH]; intros x; simpl; [split; [lia|constructor]|].
  destruct (IH (Z.max x y)) as [H1 H2]. split; [lia|].
  constructor; [lia|done].
Qed.

Lemma Math_max_bound l m :
  Math_max l = Some m → Forall (λ y, y ≤ m) l ∧ m ∈ l.
Proof.
  destruct l as [|x l]; [done|]. intros [= <-]. split.
  - destruct (foldl_max_ge x l). constructor; done.
  - revert x. induction l as [|y l IH]; intros x; simpl; [left|].
    destruct (Z.max_spec x y) as [[_ ->]|[_ ->]].
    + right. apply IH.
    + specialize (IH x). apply elem_of_cons in IH as [->|IH]; [left|].
      right. by right.
Qed.

Lemma sum_le_max l m : Forall (λ y, y ≤ m) l → sumOf l ≤ m * len l.
Proof.
  unfold len. induction 1 as [|y l Hy Hl IH]; [rewrite sum_nil; simpl; lia|].
  rewrite sum_cons. simpl length. lia.
Qed.

Lemma sum_const {A} (l : list A) m : sumOf ((λ _, m) <$> l) = m * len l.
Proof.
  unfold len. induction l as [|y l IH]; [simpl; rewrite sum_nil; lia|].
  rewrite fmap_cons, sum_cons, IH. simpl length. lia.
Qed.

(** ** The grow step *)

Section Grow.

Variable minimumWidth : Z.

Local Abbreviation smallFrom := (selectedFrom (λ w, w < minimumWidth)).

Lemma growStep_middle growFactor prefix w suffix g t :
  growStep growFactor (prefix ++ w :: suffix, g, t) (length prefix)
  = Math_floor (fmul growFactor (of_int w)) ≫= λ fixedWidth,
      mret (prefix ++ fixedWidth :: suffix, g - (fixedWidth - w), t + (fixedWidth - w)).
Proof.
  unfold growStep. rewrite list_lookup_total_middle by done.
  destruct (Math_floor _); simpl; [|done..]. by rewrite insert_middle.
Qed.

Lemma grow_loop_walk growFactor suffix : ∀ prefix growth smallColumnsWidth,
  let smallColumnIndices := smallFrom (length prefix) suffix in
  forOf (growStep growFactor)
        (take (length smallColumnIndices - 1) smallColumnIndices)
        (prefix ++ suffix, growth, smallColumnsWidth)
    ≫= (λ st, growFinish st (last smallColumnIndices))
  = growWalk growFactor minimumWidth growth suffix
      ≫= (λ suffix', mret (prefix ++ suffix')).
Proof.
  induction suffix as [|w suffix IH]; intros prefix g t; simpl; [done|].
  assert (Hnext : ∀ w', (prefix ++ [w']) ++ suffix = prefix ++ w' :: suffix)
    by (intros; by rewrite <- app_assoc).
  assert (Hlen : ∀ w', length (prefix ++ [w']) = Datatypes.S (length prefix))
    by (intros; rewrite length_app; simpl; lia).
  destruct (decide (w < minimumWidth)) as [Hsmall|Hwide].
  - destruct (decide (Exists (λ w0, w0 < minimumWidth) suffix)) as [Hmore|Hlast].
    + assert (Hne : smallFrom (Datatypes.S (length prefix)) suffix ≠ [])
        by (by rewrite selectedFrom_nil; intros []).
      rewrite take_pred_cons.
      destruct (smallFrom (Datatypes.S (length prefix)) suffix) as [|j idx] eqn:Hidx;
        [done|]. clear Hne.
      cbn [forOf]. rewrite growStep_middle.
      destruct (Math_floor _) as [fl| | |]; [|done..].
      cbn [mbind completion_bind mret completion_ret].
      specialize (IH (prefix ++ [fl]) (g - (fl - w)) (t + (fl - w))).
      cbn zeta in IH. rewrite Hlen, Hnext, Hidx in IH.
      replace (last (length prefix :: j :: idx)) with (last (j :: idx)) by done.
      etrans; [apply IH|].
      destruct (growWalk _ _ _ suffix); [|done..].
      cbn. by rewrite <- app_assoc.
    + apply (selectedFrom_nil _ (Datatypes.S (length prefix))) in Hlast.
      rewrite Hlast. cbn.
      rewrite list_lookup_total_middle by done. by rewrite insert_middle.
  - specialize (IH (prefix ++ [w]) g t). cbn zeta in IH.
    rewrite Hlen, Hnext in IH. etrans; [apply IH|].
    destruct (growWalk _ _ _ suffix); [|done..].
    cbn. by rewrite <- app_assoc.
Qed.

Lemma growColumns_walk columnWidths growth :
  growColumns columnWidths minimumWidth growth
  = growSpec columnWidths minimumWidth growth.
Proof.
  unfold growColumns, growSpec.
  pose proof (selected_indices (λ w, w < minimumWidth) columnWidths) as Hs.
  cbv beta in Hs. rewrite Hs, slice_all_but_last. clear Hs.
  pose proof (selectedFrom_total (λ w, w < minimumWidth) [] columnWidths 0) as Ht.
  cbn [app length] in Ht. rewrite Ht. clear Ht. rewrite Z.add_0_l.
  pose proof (grow_loop_walk
    (growFactorOf growth
       (foldr Z.add 0 (filter (λ w, w < minimumWidth) columnWidths)))
    columnWidths [] growth
    (foldr Z.add 0 (filter (λ w, w < minimumWidth) columnWidths))) as H.
  cbn zeta in H. simpl length in H. simpl app in H.
  rewrite <- (bind_mret (growWalk _ _ _ _)). etrans; [|apply H]. done.
Qed.

End Grow.

(** ** What the two steps do to the total width *)

Lemma shrinkWalk_total shrinkFactor averageWidth widths :
  ∀ overflow widths',
    shrinkWalk shrinkFactor averageWidth overflow widths = Normal widths' →
    length widths' = length widths
    ∧ (Exists (λ w, averageWidth < w) widths → sumOf widths' = sumOf widths - overflow)
    ∧ (¬ Exists (λ w, averageWidth < w) widths → widths' = widths).
Proof.
  induction widths as [|w widths IH]; intros o ws' H; simpl in H.
  - injection H as <-. split; [done|]. split; [by inversion 1|done].
  - destruct (decide (averageWidth < w)) as [Hbig|Hsmall].
    + destruct (decide (Exists _ widths)) as [Hmore|Hlast].
      * inv_bind H. subst ws'.
        match goal with H : shrinkWalk _ _ _ _ = _ |- _ =>
          apply IH in H as (Hl & Hs & _) end.
        split; [simpl; lia|]. split; [|intros Hn; destruct Hn; by left].
        intros _. rewrite !sum_cons, Hs by done. lia.
      * injection H as <-. split; [done|].
        split; [|intros Hn; destruct Hn; by left].
        intros _. rewrite !sum_cons. lia.
    + inv_bind H. subst ws'.
      match goal with H : shrinkWalk _ _ _ _ = _ |- _ =>
        apply IH in H as (Hl & Hs & Hn) end.
      split; [simpl; lia|]. split.
      * intros Hex. apply Exists_cons in Hex as [?|Hex]; [done|].
        rewrite !sum_cons, Hs by done. lia.
      * intros Hex. f_equal. apply Hn. intros ?. apply Hex. by right.
Qed.

Lemma growWalk_total growFactor averageWidth widths :
  ∀ growth widths',
    growWalk growFactor averageWidth growth widths = Normal widths' →
    length widths' = length widths
    ∧ (Exists (λ w, w < averageWidth) widths → sumOf widths' = sumOf widths + growth)
    ∧ (¬ Exists (λ w, w < averageWidth) widths → widths' = widths).
Proof.
  induction widths as [|w widths IH]; intros g ws' H; simpl in H.
  - injection H as <-. split; [done|]. split; [by inversion 1|done].
  - destruct (decide (w < averageWidth)) as [Hsmall|Hwide].
    + destruct (decide (Exists _ widths)) as [Hmore|Hlast].
      * inv_bind H. subst ws'.
        match goal with H : growWalk _ _ _ _ = _ |- _ =>
          apply IH in H as (Hl & Hs & _) end.
        split; [simpl; lia|]. split; [|intros Hn; destruct Hn; by left].
        intros _. rewrite !sum_cons, Hs by done. lia.
      * injection H as <-. split; [done|].
        split; [|intros Hn; destruct Hn; by left].
        intros _. rewrite !sum_cons. lia.
    + inv_bind H. subst ws'.
      match goal with H : growWalk _ _ _ _ = _ |- _ =>
        apply IH in H as (Hl & Hs & Hn) end.
      split; [simpl; lia|]. split.
      * intros Hex. apply Exists_cons in Hex as [?|Hex]; [done|].
        rewrite !sum_cons, Hs by done. lia.
      * intros Hex. f_equal. apply Hn. intros ?. apply Hex. by right.
Qed.

(** ** The sizing *)

Lemma not_Exists_big_total averageWidth widths :
  ¬ Exists (λ w, averageWidth < w) widths → sumOf widths ≤ averageWidth * len widths.
Proof.
  intros Hn. apply sum_le_max. apply Forall_forall. intros w Hw.
  destruct (decide (averageWidth < w)); [|lia].
  destruct Hn. apply Exists_exists. eauto.
Qed.

Lemma average_fits budget columnCount :
  0 ≤ budget → 0 ≤ columnCount → budget `div` columnCount * columnCount ≤ budget.
Proof.
  intros Hb Hc. destruct (decide (columnCount = 0)) as [->|Hne]; [lia|].
  pose proof (Z.mul_div_le budget columnCount). lia.
Qed.

(** The shrink step, when the sizing calls it, brings the total to the
    budget exactly. *)
Lemma shrinkColumns_to_budget widths budget averageWidth widths' :
  averageWidth * len widths ≤ budget →
  budget < sumOf widths →
  shrinkColumns widths averageWidth (sumOf widths - budget) = Normal widths' →
  length widths' = length widths ∧ sumOf widths' = budget.
Proof.
  intros Havg Hover H. rewrite shrinkColumns_walk in H.
  apply shrinkWalk_total in H as (Hl & Hs & _). split; [done|].
  rewrite Hs; [lia|].
  destruct (decide (Exists (λ w, averageWidth < w) widths)) as [?|Hn]; [done|].
  apply not_Exists_big_total in Hn. lia.
Qed.

(** The grow step brings the total to the budget when some column is
    narrower than the average, and changes nothing otherwise. *)
Lemma growColumns_total widths averageWidth growth widths' :
  growColumns widths averageWidth growth = Normal widths' →
  length widths' = length widths
  ∧ (Exists (λ w, w < averageWidth) widths → sumOf widths' = sumOf widths + growth)
  ∧ (¬ Exists (λ w, w < averageWidth) widths → widths' = widths).
Proof. rewrite growColumns_walk. apply growWalk_total. Qed.

(** The total width after the sizing never exceeds the budget. *)
Lemma sizeColumns_within_budget sizing fullWidth budget widths widths' :
  0 ≤ budget →
  sizeColumns sizing fullWidth (len widths) budget (budget `div` len widths)
              widths = Normal widths' →
  length widths' = length widths ∧ sumOf widths' ≤ budget.
Proof.
  intros Hb H. unfold sizeColumns in H.
  assert (Havg : ∀ l : list Z, length l = length widths →
            budget `div` len widths * len l ≤ budget).
  { intros l Hl. unfold len. rewrite Hl. apply average_fits; lia. }
  apply bind_Normal in H as ([ws1 o1] & H1 & H2).
  assert (length ws1 = length widths ∧ sumOf ws1 ≤ budget
          ∧ ∀ o, o1 = Some o → o = 0 ∨ (o = sumOf ws1 - budget))
    as (Hl1 & Hs1 & Ho1).
  { destruct sizing as [| |name]; [| |done].
    - destruct (0 <? sumOf widths - budget) eqn:Ho.
      + apply Z.ltb_lt in Ho. inv_bind H1. simplify_eq.
        match goal with H : shrinkColumns _ _ _ = _ |- _ =>
          apply shrinkColumns_to_budget in H as [? ?]; [|by apply Havg|lia] end.
        split; [done|]. split; [lia|]. intros o [= <-]. by left.
      + apply Z.ltb_ge in Ho. injection H1 as <- <-.
        split; [done|]. split; [lia|]. intros o [= <-]. by right.
    - destruct (Math_max widths) as [m|] eqn:Hm.
      + pose proof (sum_const widths m) as Hsum.
        destruct (0 <? m * len widths - budget) eqn:Ho.
        * apply Z.ltb_lt in Ho. inv_bind H1. simplify_eq. rewrite <- Hsum in *.
          match goal with H : shrinkColumns _ _ _ = _ |- _ =>
            apply shrinkColumns_to_budget in H as [? ?];
              [|apply Havg; by rewrite length_fmap|lia] end.
          rewrite length_fmap in *.
          split; [done|]. split; [lia|]. intros o [= <-]. by left.
        * apply Z.ltb_ge in Ho. injection H1 as <- <-.
          rewrite length_fmap. split; [done|]. split; [lia|].
          intros o [= <-]. right. lia.
      + injection H1 as <- <-. destruct widths; [|done].
        split; [done|]. split; [by rewrite sum_nil|done]. }
  destruct o1 as [o|]; [|injection H2 as <-; done].
  destruct (fullWidth && (o <? 0)) eqn:Hg; [|injection H2 as <-; done].
  apply andb_true_iff in Hg as [_ Hneg%Z.ltb_lt].
  apply growColumns_total in H2 as (Hl & Hs & Hn).
  split; [lia|].
  destruct (decide (Exists (λ w, w < budget `div` len widths) ws1)) as [Hex|Hex].
  - rewrite Hs by done. destruct (Ho1 o eq_refl); lia.
  - by rewrite Hn.
Qed.

Lemma naturalWidths_length columnNames tableContent :
  length (naturalWidths columnNames tableContent) = length columnNames.
Proof. unfold naturalWidths. apply length_imap. Qed.

(** ** Cutting a cell into lines *)

Lemma slice_head {A} (l : list A) (n : Z) :
  0 ≤ n → slice l 0 (Some n) = take (Z.to_nat n) l.
Proof.
  intros Hn. unfold slice, relativeIndex. simpl.
  replace (n <? 0) with false by (symmetry; apply Z.ltb_ge; lia).
  replace (Z.to_nat (Z.min 0 (Z.of_nat (length l)))) with 0%nat by lia.
  rewrite drop_0, Nat.sub_0_r.
  destruct (decide (Z.to_nat n ≤ length l)%nat).
  - f_equal. lia.
  - rewrite !take_ge by lia. done.
Qed.

Lemma slice_tail {A} (l : list A) (n : Z) :
  0 ≤ n → slice l n None = drop (Z.to_nat n) l.
Proof.
  intros Hn. unfold slice, relativeIndex. simpl.
  replace (n <? 0) with false by (symmetry; apply Z.ltb_ge; lia).
  destruct (decide (Z.to_nat n ≤ length l)%nat).
  - replace (Z.to_nat (Z.min n (Z.of_nat (length l)))) with (Z.to_nat n) by lia.
    apply take_ge. rewrite length_drop. lia.
  - replace (Z.to_nat (Z.min n (Z.of_nat (length l)))) with (length l) by lia.
    rewrite !drop_ge by lia. by rewrite take_nil.
Qed.

Lemma slice_tail_nonempty {A} (l : list A) (n : Z) :
  n ≤ 0 → l ≠ [] → slice l n None ≠ [].
Proof.
  intros Hn Hl. unfold slice, relativeIndex. simpl.
  assert (0 < length l)%nat by (destruct l; [done|simpl; lia]).
  intros Heq. apply (f_equal length) in Heq.
  rewrite length_take, length_drop in Heq. simpl in Heq.
  destruct (n <? 0) eqn:Hneg; [apply Z.ltb_lt in Hneg|apply Z.ltb_ge in Hneg]; lia.
Qed.

(** With a column narrower than three, the loop never exits on a cell that
    is not empty: no amount of fuel is enough. *)
Lemma cellLinesLoop_never_exits fuel cell columnWidth :
  columnWidth ≤ 2 → cell ≠ [] → cellLinesLoop fuel cell columnWidth = Diverge.
Proof.
  intros Hw. revert cell. induction fuel as [|fuel IH]; intros cell Hcell; [done|].
  simpl. case_decide as Hlen; [by destruct cell|].
  rewrite IH; [done|]. apply slice_tail_nonempty; [lia|done].
Qed.

(** With a column of width three or more, the loop exits, and line [i] of
    its result is the [i]-th slice of the text. *)
Lemma cellLinesLoop_exits fuel cell columnWidth :
  3 ≤ columnWidth → (length cell < fuel)%nat →
  ∃ lines, cellLinesLoop fuel cell columnWidth = Normal lines
    ∧ ∀ i, lines !! i = sliceAt (Z.to_nat (columnWidth - 2)) cell i.
Proof.
  intros Hw. set (n := Z.to_nat (columnWidth - 2)).
  assert (0 < n)%nat by lia.
  revert cell. induction fuel as [|fuel IH]; intros cell Hfuel; [lia|].
  simpl. case_decide as Hlen.
  - exists []. split; [done|]. intros i. unfold sliceAt.
    rewrite decide_False by lia. done.
  - rewrite slice_tail, slice_head by lia. fold n.
    destruct (IH (drop n cell)) as (rest & -> & Hrest).
    { rewrite length_drop. lia. }
    exists (take n cell :: rest). split; [done|].
    intros [|i]; unfold sliceAt; simpl.
    + rewrite decide_True by lia. by rewrite drop_0.
    + rewrite Hrest. unfold sliceAt. rewrite length_drop, drop_drop.
      destruct (decide (i * n < length cell - n)%nat);
        [rewrite decide_True by lia|rewrite decide_False by lia]; done.
Qed.

Lemma sliceAt_lines innerWidth text lines :
  (0 < innerWidth)%nat →
  (∀ i, lines !! i = sliceAt innerWidth text i) →
  concat lines = text
  ∧ Forall (λ line, (0 < length line ≤ innerWidth)%nat) lines
  ∧ (length lines * innerWidth < length text + innerWidth)%nat
  ∧ (length text ≤ length lines * innerWidth)%nat.
Proof.
  intros Hn. revert text.
  induction lines as [|line lines IH]; intros text Hlines.
  - pose proof (Hlines 0%nat) as H0. unfold sliceAt in H0. simpl in H0.
    case_decide; [done|]. destruct text; [|simpl in *; lia].
    repeat split; [constructor|simpl; lia|simpl; lia].
  - pose proof (Hlines 0%nat) as H0. unfold sliceAt in H0. simpl in H0.
    case_decide as Hlen; [|done]. injection H0 as ->. rewrite drop_0.
    destruct (IH (drop innerWidth text)) as (Hc & Hf & Hu & Hl).
    { intros i. specialize (Hlines (Datatypes.S i)). simpl in Hlines.
      rewrite Hlines. unfold sliceAt. rewrite length_drop, drop_drop.
      destruct (decide (i * innerWidth < length text - innerWidth)%nat);
        [rewrite decide_True by lia|rewrite decide_False by lia]; done. }
    rewrite length_drop in Hu, Hl.
    split; [simpl; by rewrite Hc, take_drop|].
    split; [constructor; [rewrite length_take; lia|done]|].
    simpl.
    assert (length lines * innerWidth = 0 ∨ innerWidth ≤ length lines * innerWidth)%nat
      by (destruct (length lines); simpl; lia).
    destruct (decide (innerWidth ≤ length text)%nat); lia.
Qed.

(** ** Mapping a callback that may throw *)

Lemma mapM_imap_shift {A B} (f : nat → A → completion B) l :
  ∀ p : nat → nat,
    mapM (λ q, f q.1 q.2) (imap (λ i x, (Datatypes.S (p i), x)) l)
    = mapM (λ q, f (Datatypes.S q.1) q.2) (imap (λ i x, (p i, x)) l).
Proof.
  induction l as [|x l IH]; intros p; [done|].
  rewrite !imap_cons. simpl. destruct (f _ x); [|done..]. simpl.
  f_equal. exact (IH (p ∘ Datatypes.S)).
Qed.

Lemma imapM_cons {A B} (f : nat → A → completion B) x l :
  imapM f (x :: l)
  = f 0%nat x ≫= λ y, imapM (λ i, f (Datatypes.S i)) l ≫= λ k, mret (y :: k).
Proof.
  unfold imapM. rewrite imap_cons. simpl.
  destruct (f 0%nat x); [|done..]. simpl.
  f_equal. exact (mapM_imap_shift f l id).
Qed.

Lemma imapM_Normal {A B} (f : nat → A → completion B) l k :
  imapM f l = Normal k ↔
  length k = length l
  ∧ ∀ i x, l !! i = Some x → ∃ y, k !! i = Some y ∧ f i x = Normal y.
Proof.
  revert f k. induction l as [|x l IH]; intros f k.
  - split.
    + intros [= <-]. split; [done|]. intros i x. by rewrite lookup_nil.
    + intros [Hl _]. destruct k; done.
  - rewrite imapM_cons. split.
    + intros H. inv_bind H. subst k.
      match goal with H : imapM _ _ = _ |- _ => apply IH in H as [Hl Hk] end.
      split; [simpl; lia|]. intros [|i] x'; simpl.
      * intros [= <-]. eauto.
      * apply Hk.
    + intros [Hl Hk]. destruct k as [|y k]; [done|].
      destruct (Hk 0%nat x eq_refl) as (y' & [= <-] & ->). simpl.
      assert (imapM (λ i, f (Datatypes.S i)) l = Normal k) as ->; [|done].
      apply IH. split; [simpl in Hl; lia|].
      intros i x' Hx. apply (Hk (Datatypes.S i) x' Hx).
Qed.

Lemma imapM_total {A B} (f : nat → A → completion B) l :
  (∀ i x, l !! i = Some x → ∃ y, f i x = Normal y) →
  ∃ k, imapM f l = Normal k.
Proof.
  revert f. induction l as [|x l IH]; intros f Hf; [by exists []|].
  rewrite imapM_cons. destruct (Hf 0%nat x eq_refl) as [y ->].
  destruct (IH (λ i, f (Datatypes.S i))) as [k ->].
  { intros i x' Hx. apply (Hf (Datatypes.S i) x' Hx). }
  by exists (y :: k).
Qed.

Lemma mapM_total {A B} (f : A → completion B) l :
  Forall (λ x, ∃ y, f x = Normal y) l → ∃ k, mapM f l = Normal k.
Proof.
  induction 1 as [|x l [y Hy] _ [k Hk]]; [by exists []|].
  exists (y :: k). simpl. by rewrite Hy, Hk.
Qed.

(** ** Joining and splitting *)

Lemma join_cons sep s l :
  l ≠ [] → join sep (s :: l) = s ++ sep ++ join sep l.
Proof. by destruct l. Qed.

Lemma join_length sep parts :
  parts ≠ [] →
  len (join sep parts) = sumOf (len <$> parts) + len sep * (len parts - 1).
Proof.
  unfold len. induction parts as [|s parts IH]; [done|]. intros _.
  destruct parts as [|s' parts].
  - simpl. rewrite sum_cons, sum_nil. lia.
  - rewrite join_cons by done. rewrite !length_app, fmap_cons, sum_cons.
    rewrite !Nat2Z.inj_add, IH by done. simpl length. lia.
Qed.

Lemma join_singleLine sep parts :
  singleLine sep → Forall singleLine parts → singleLine (join sep parts).
Proof.
  unfold singleLine. intros Hsep. induction 1 as [|s parts Hs Hparts IH]; simpl.
  - by intros ?%elem_of_nil.
  - destruct parts as [|s' parts]; [done|].
    rewrite !elem_of_app. tauto.
Qed.

Lemma split_singleLine line :
  singleLine line → split LF line = [line].
Proof.
  unfold singleLine. induction line as [|c line IH]; [done|].
  rewrite not_elem_of_cons. intros [Hc Hline]. simpl.
  rewrite decide_False by done. by rewrite IH.
Qed.

Lemma split_app_LF line rest :
  singleLine line → split LF (line ++ LF :: rest) = line :: split LF rest.
Proof.
  unfold singleLine. induction line as [|c line IH]; simpl.
  - done.
  - rewrite not_elem_of_cons. intros [Hc Hline].
    rewrite decide_False by done. by rewrite IH.
Qed.

(** Splitting at line breaks gives back the lines that were joined, as long
    as there is at least one line and none contains a line break. *)
Lemma split_join lines :
  lines ≠ [] → Forall singleLine lines → split LF (join [LF] lines) = lines.
Proof.
  intros Hne Hlines. induction Hlines as [|line lines Hline Hlines IH]; [done|].
  destruct lines as [|line' lines].
  - simpl. by apply split_singleLine.
  - rewrite join_cons by done. cbn [app]. rewrite split_app_LF by done.
    by rewrite IH.
Qed.

Lemma join_app sep l k :
  l ≠ [] → k ≠ [] → join sep (l ++ k) = join sep l ++ sep ++ join sep k.
Proof.
  intros Hl Hk. induction l as [|s l IH]; [done|].
  destruct l as [|s' l].
  - simpl. by destruct k.
  - rewrite <- app_comm_cons. rewrite (join_cons _ s) by done.
    rewrite IH by done. rewrite (join_cons _ s) by done.
    by rewrite <- !app_assoc.
Qed.

(** Joining blocks that were themselves joined is joining all their lines,
    as long as no block is without a line. *)
Lemma join_blocks (blocks : list (list str)) :
  Forall (λ block, block ≠ []) blocks →
  join [LF] (join [LF] <$> blocks) = join [LF] (concat blocks).
Proof.
  induction 1 as [|block blocks Hblock Hblocks IH]; [done|].
  destruct blocks as [|block' blocks].
  - simpl. by rewrite app_nil_r.
  - rewrite fmap_cons. rewrite join_cons by done. rewrite IH.
    change (concat (block :: block' :: blocks))
      with (block ++ concat (block' :: blocks)).
    rewrite join_app; [done|done|].
    inversion Hblocks; subst. simpl. by destruct block'.
Qed.

(** ** Borders and rows *)

Lemma String_repeat_unit c n :
  0 ≤ n → String_repeat [c] n = Normal (replicate (Z.to_nat n) c).
Proof.
  intros Hn. unfold String_repeat.
  replace (n <? 0) with false by (symmetry; apply Z.ltb_ge; lia).
  f_equal. induction (Z.to_nat n) as [|k IH]; [done|]. simpl. by rewrite IH.
Qed.

Lemma border_runs columnWidths :
  Forall (λ w, 0 ≤ w) columnWidths →
  mapM (λ size, String_repeat [HORIZONTAL] size) columnWidths
  = Normal ((λ w, replicate (Z.to_nat w) HORIZONTAL) <$> columnWidths).
Proof.
  induction 1 as [|w ws Hw Hws IH]; [done|].
  simpl. rewrite String_repeat_unit by done. simpl. by rewrite IH.
Qed.

(** A framed line has one glyph before each part and one at the end. *)
Lemma framed_length first between last_ parts columnWidths :
  columnWidths ≠ [] →
  Forall2 (λ part w, len part = w) parts columnWidths →
  len (framed first between last_ parts) = 1 + sumOf columnWidths + len columnWidths.
Proof.
  intros Hne Hparts. unfold framed.
  assert (Hsum : len <$> parts = columnWidths).
  { clear Hne. induction Hparts as [|part w parts ws Hp _ IH]; [done|].
    rewrite fmap_cons. by f_equal. }
  assert (parts ≠ []) by (destruct Hparts; done).
  assert (Hlen : len parts = len columnWidths).
  { unfold len. by rewrite (Forall2_length _ _ _ Hparts). }
  unfold len at 1. rewrite !length_app. simpl length.
  rewrite !Nat2Z.inj_add. fold (len (join [between] parts)).
  rewrite join_length by done. rewrite Hsum, Hlen. unfold len. simpl. lia.
Qed.

Lemma framed_singleLine first between last_ parts :
  first ≠ LF → between ≠ LF → last_ ≠ LF →
  Forall singleLine parts → singleLine (framed first between last_ parts).
Proof.
  intros Hf Hb Hl Hparts. unfold framed, singleLine.
  rewrite !elem_of_app, !list_elem_of_singleton.
  pose proof (join_singleLine [between] parts) as Hj. unfold singleLine in Hj.
  rewrite list_elem_of_singleton in Hj.
  intros [?|[?|?]]; [done| |done]. apply Hj; [naive_solver|done|done].
Qed.

Lemma border_line first between last_ columnWidths :
  columnWidths ≠ [] → Forall (λ w, 3 ≤ w) columnWidths →
  first ≠ LF → between ≠ LF → last_ ≠ LF →
  let line := framed first between last_
                ((λ w, replicate (Z.to_nat w) HORIZONTAL) <$> columnWidths) in
  len line = 1 + sumOf columnWidths + len columnWidths ∧ singleLine line.
Proof.
  intros Hne Hws Hf Hb Hl. split.
  - apply framed_length; [done|]. apply Forall2_fmap_l, Forall_Forall2_diag.
    eapply Forall_impl; [done|]. intros w Hw. simpl in *. unfold len.
    rewrite length_replicate. lia.
  - apply framed_singleLine; try done. apply Forall_fmap, Forall_forall.
    intros w _. unfold singleLine. simpl. by intros [? _]%elem_of_replicate.
Qed.

Lemma trimStart_suffix s : ∃ spaces, s = spaces ++ trimStart s.
Proof.
  induction s as [|c s [spaces IH]]; [by exists []|]. simpl.
  destruct (isWhiteSpace c); [|by exists []].
  exists (c :: spaces). simpl. by f_equal.
Qed.

Lemma trim_inside s : ∃ before after, s = before ++ trim s ++ after.
Proof.
  unfold trim, trimEnd.
  destruct (trimStart_suffix s) as [before Hs].
  destruct (trimStart_suffix (reverse (trimStart s))) as [after Hr].
  exists before, (reverse after). rewrite <- reverse_app, <- Hr.
  by rewrite reverse_involutive.
Qed.

Lemma trim_length s : len (trim s) ≤ len s.
Proof.
  destruct (trim_inside s) as (before & after & Hs). unfold len.
  rewrite Hs at 2. rewrite !length_app. lia.
Qed.

Lemma trim_singleLine s : singleLine s → singleLine (trim s).
Proof.
  destruct (trim_inside s) as (before & after & Hs). unfold singleLine.
  rewrite Hs at 1. rewrite !elem_of_app. tauto.
Qed.

(** One cell of a row, aligned: as wide as its column. *)
Lemma aligned_cell horizontalAlignment text columnWidth :
  len text ≤ columnWidth - 2 →
  ∃ part,
    match horizontalAlignment with
    | h_left => mret (padEnd ([SPACE] ++ text) columnWidth SPACE)
    | h_right => mret (padStart (text ++ [SPACE]) columnWidth SPACE)
    | h_middle => centerText (Some text) columnWidth
    end = Normal part
    ∧ len part = columnWidth
    ∧ (singleLine text → singleLine part).
Proof.
  intros Hfit. unfold len in *.
  assert (Hsp : ∀ k, singleLine (replicate k SPACE)).
  { intros k. unfold singleLine. by intros [? _]%elem_of_replicate. }
  destruct horizontalAlignment.
  - eexists. split; [done|]. unfold padEnd. split.
    + rewrite !length_app, length_replicate. simpl. lia.
    + unfold singleLine. rewrite !elem_of_app, list_elem_of_singleton.
      intros Ht [[?|?]|?]; [done|done|by eapply Hsp].
  - unfold centerText.
    pose proof (trim_length text) as Htrim. unfold len in Htrim.
    set (padding := (columnWidth - len (trim text)) `div` 2).
    assert (0 ≤ padding ≤ columnWidth - len (trim text)).
    { unfold padding, len. split; [apply Z.div_pos; lia|].
      apply Z.div_le_upper_bound; lia. }
    rewrite String_repeat_unit by lia. eexists. split; [done|].
    unfold padEnd. split.
    + rewrite !length_app, !length_replicate. unfold len in *. lia.
    + intros Ht%trim_singleLine. unfold singleLine in *.
      rewrite !elem_of_app. intros [[?|?]|?]; [by eapply Hsp|done|by eapply Hsp].
  - eexists. split; [done|]. unfold padStart. split.
    + rewrite !length_app, length_replicate. simpl. lia.
    + unfold singleLine. rewrite !elem_of_app, list_elem_of_singleton.
      intros Ht [?|[?|?]]; [by eapply Hsp|done|done].
Qed.

(** A row of texts that fit is rendered as one line of the width of the
    table. *)
Lemma createRow_line texts columnWidths horizontalAlignment :
  columnWidths ≠ [] → fitsColumns texts columnWidths →
  ∃ line, createRow texts columnWidths horizontalAlignment = Normal line
    ∧ len line = 1 + sumOf columnWidths + len columnWidths
    ∧ (Forall singleLine texts → singleLine line).
Proof.
  intros Hne Hfit. unfold createRow.
  set (f := λ (i : nat) (columnWidth : Z), match horizontalAlignment with
            | h_left => _ | h_middle => _ | h_right => _ end).
  assert (Hcell : ∀ i w, columnWidths !! i = Some w →
            ∃ text part, texts !! i = Some text ∧ f i w = Normal part
              ∧ len part = w ∧ (singleLine text → singleLine part)).
  { intros i w Hw.
    destruct (Forall2_lookup_r _ _ _ _ _ Hfit Hw) as (text & Ht & Hlen).
    destruct (aligned_cell horizontalAlignment text w Hlen) as (part & Hp & ? & ?).
    exists text, part. split; [done|]. split; [|done].
    unfold f. rewrite Ht. simpl. by destruct horizontalAlignment. }
  destruct (imapM_total f columnWidths) as [parts Hparts].
  { intros i w Hw. destruct (Hcell i w Hw) as (? & part & _ & ? & _). eauto. }
  rewrite Hparts. simpl. eexists. split; [done|].
  apply imapM_Normal in Hparts as [Hlen Hparts].
  change (len (framed VERTICAL VERTICAL VERTICAL parts)
          = 1 + sumOf columnWidths + len columnWidths
          ∧ (Forall singleLine texts →
             singleLine (framed VERTICAL VERTICAL VERTICAL parts))).
  split.
  - apply framed_length; [done|]. apply Forall2_same_length_lookup.
    split; [done|]. intros i part w Hp Hw.
    destruct (Hparts i w Hw) as (part' & Hp' & Hf).
    destruct (Hcell i w Hw) as (? & part'' & _ & Hf' & ? & _). congruence.
  - intros Htexts. apply framed_singleLine; try done.
    apply Forall_lookup. intros i part Hp.
    destruct (lookup_lt_is_Some_2 columnWidths i) as [w Hw].
    { rewrite <- Hlen. by eapply lookup_lt_Some. }
    destruct (Hparts i w Hw) as (part' & Hp' & Hf).
    destruct (Hcell i w Hw) as (text & part'' & Ht & Hf' & _ & Hs).
    assert (part = part'') as -> by congruence. apply Hs.
    by eapply Forall_lookup_1.
Qed.

(** ** The height of a row and the vertical alignment *)

Lemma rowHeight_fold a (cells : list (list str)) :
  foldl (λ rowHeight cellLines, Nat.max rowHeight (length cellLines)) a cells
  = Nat.max a (max_list (length <$> cells)).
Proof.
  revert a. induction cells as [|c cells IH]; intros a; csimpl; [lia|].
  rewrite IH. lia.
Qed.

Lemma rowHeightOf_max cells : rowHeightOf cells = max_list (length <$> cells).
Proof. unfold rowHeightOf. by rewrite rowHeight_fold. Qed.


Lemma rowHeightOf_positive cells :
  (0 < rowHeightOf cells)%nat ↔ Exists (λ lines : list str, lines ≠ []) cells.
Proof.
  rewrite rowHeightOf_max. induction cells as [|lines cells IH]; csimpl.
  - split; [lia|by inversion 1].
  - rewrite Exists_cons, <- IH. destruct lines; simpl; [|split; [by left|lia]].
    split; [by right|intros [?|?]; done].
Qed.


Lemma alignCells_lookup verticalAlignment rowHeight cells c lines :
  cells !! c = Some lines →
  alignCells verticalAlignment rowHeight cells !! c
  = Some (replicate (verticalPadding verticalAlignment rowHeight lines) []
          ++ lines).
Proof.
  intros Hc. unfold alignCells. destruct verticalAlignment;
    [done|by rewrite list_lookup_fmap, Hc..].
Qed.

Lemma alignCells_length verticalAlignment rowHeight cells :
  length (alignCells verticalAlignment rowHeight cells) = length cells.
Proof.
  unfold alignCells. destruct verticalAlignment; by rewrite ?length_fmap.
Qed.

Lemma cellRowsOf_length rowHeight cells :
  length (cellRowsOf rowHeight cells) = rowHeight.
Proof. unfold cellRowsOf. by rewrite length_fmap, length_seq. Qed.

Lemma cellRowsOf_lookup rowHeight cells i :
  (i < rowHeight)%nat →
  cellRowsOf rowHeight cells !! i
  = Some ((λ cell : list str, default [] (cell !! i)) <$> cells).
Proof.
  intros Hi. unfold cellRowsOf. rewrite list_lookup_fmap.
  by rewrite lookup_seq_lt.
Qed.

(** ** The cells of a row *)

Lemma sliceAt_line innerWidth text (lines : list str) line :
  (∀ j, lines !! j = sliceAt innerWidth text j) → line ∈ lines →
  (length line ≤ innerWidth)%nat ∧ (singleLine text → singleLine line).
Proof.
  intros Hlines [j Hj]%list_elem_of_lookup_1.
  rewrite Hlines in Hj. unfold sliceAt in Hj. case_decide; [|done].
  injection Hj as <-. split; [rewrite length_take; lia|].
  unfold singleLine. intros Ht Hin. apply Ht.
  rewrite <- (take_drop (j * innerWidth) text). apply elem_of_app. right.
  rewrite <- (take_drop innerWidth (drop _ text)). apply elem_of_app. by left.
Qed.

(** With every column at least three wide and a text for every column, the
    first loop of [createMultiLineRows] completes, and the lines of every
    cell are the slices of its text. *)
Lemma splitCells_Normal row columnWidths :
  Forall (λ w, 3 ≤ w) columnWidths → length row = length columnWidths →
  ∃ cells, splitCells row columnWidths = Normal cells
    ∧ length cells = length columnWidths
    ∧ ∀ c text w, row !! c = Some text → columnWidths !! c = Some w →
        ∃ lines, cells !! c = Some lines
          ∧ ∀ j, lines !! j = sliceAt (Z.to_nat (w - 2)) text j.
Proof.
  intros Hws Hlen. unfold splitCells.
  set (f := λ (i : nat) (columnWidth : Z), match row !! i with
            | Some cell => _ | None => _ end).
  assert (Hf : ∀ c w, columnWidths !! c = Some w →
            ∃ text lines, row !! c = Some text ∧ f c w = Normal lines
              ∧ ∀ j, lines !! j = sliceAt (Z.to_nat (w - 2)) text j).
  { intros c w Hw.
    destruct (lookup_lt_is_Some_2 row c) as [text Ht].
    { rewrite Hlen. by eapply lookup_lt_Some. }
    destruct (cellLinesLoop_exits (Datatypes.S (length text)) text w)
      as (lines & Hl & Hs); [by eapply Forall_lookup_1 in Hws|lia|].
    exists text, lines. unfold f. by rewrite Ht. }
  destruct (imapM_total f columnWidths) as [cells Hcells].
  { intros c w Hw. destruct (Hf c w Hw) as (? & lines & _ & ? & _). eauto. }
  exists cells. split; [done|].
  apply imapM_Normal in Hcells as [Hl Hcells]. split; [done|].
  intros c text w Ht Hw. destruct (Hcells c w Hw) as (lines & Hc & Hfc).
  destruct (Hf c w Hw) as (text' & lines' & Ht' & Hfc' & Hs).
  exists lines. split; [done|].
  rewrite Hfc in Hfc'. injection Hfc' as <-.
  rewrite Ht in Ht'. by injection Ht' as <-.
Qed.

Lemma padded_line (P : str → Prop) padding (lines : list str) i :
  P [] → Forall P lines → P (default [] ((replicate padding [] ++ lines) !! i)).
Proof.
  intros Hnil Hlines. destruct (_ !! i) as [line|] eqn:Hi; [|done]. simpl.
  apply list_elem_of_lookup_2, elem_of_app in Hi as [Hi|Hi].
  - by apply elem_of_replicate_inv in Hi as ->.
  - by eapply Forall_forall in Hlines.
Qed.

(** The block of one row: as many lines as the row is high, each of the
    width of the table. *)
Lemma createMultiLineRows_lines row columnWidths horizontalAlignment
    verticalAlignment :
  columnWidths ≠ [] → Forall (λ w, 3 ≤ w) columnWidths →
  length row = length columnWidths →
  ∃ cells lines,
    splitCells row columnWidths = Normal cells
    ∧ createMultiLineRows row columnWidths horizontalAlignment verticalAlignment
      = Normal (join [LF] lines)
    ∧ length lines = rowHeightOf cells
    ∧ Forall (λ line, len line = 1 + sumOf columnWidths + len columnWidths) lines
    ∧ (Forall singleLine row → Forall singleLine lines)
    ∧ (Exists (λ text, text ≠ []) row → lines ≠ []).
Proof.
  intros Hne Hws Hlen.
  destruct (splitCells_Normal row columnWidths Hws Hlen) as (cells & Hsplit & Hcl & Hcells).
  unfold createMultiLineRows. rewrite Hsplit. simpl.
  set (rowHeight := rowHeightOf cells).
  set (padded := alignCells verticalAlignment rowHeight cells).
  assert (Hrow : ∀ texts, texts ∈ cellRowsOf rowHeight padded →
            fitsColumns texts columnWidths
            ∧ (Forall singleLine row → Forall singleLine texts)).
  { intros texts [i Hi]%list_elem_of_lookup_1.
    assert (i < rowHeight)%nat as Hlt
      by (apply lookup_lt_Some in Hi; by rewrite cellRowsOf_length in Hi).
    rewrite cellRowsOf_lookup in Hi by done. injection Hi as <-.
    assert (Hcell : ∀ c text w, row !! c = Some text → columnWidths !! c = Some w →
              ∃ line, ((λ cell : list str, default [] (cell !! i)) <$> padded) !! c
                      = Some line
                ∧ len line ≤ w - 2 ∧ (singleLine text → singleLine line)).
    { intros c text w Ht Hw. destruct (Hcells c text w Ht Hw) as (lines & Hc & Hs).
      rewrite list_lookup_fmap. unfold padded.
      rewrite (alignCells_lookup _ _ _ _ _ Hc). simpl. eexists. split; [done|].
      assert (3 ≤ w) by (by eapply Forall_lookup_1 in Hws).
      apply (padded_line (λ line, len line ≤ w - 2
                                  ∧ (singleLine text → singleLine line))).
      - split; [unfold len; simpl; lia|]. intros _. apply not_elem_of_nil.
      - apply Forall_forall. intros line Hline.
        destruct (sliceAt_line _ _ _ _ Hs Hline) as [? ?]. split; [|done].
        unfold len. lia. }
    split.
    - apply Forall2_same_length_lookup. split.
      { unfold padded. by rewrite length_fmap, alignCells_length. }
      intros c line w Hline Hw.
      destruct (lookup_lt_is_Some_2 row c) as [text Ht].
      { rewrite Hlen. by eapply lookup_lt_Some. }
      destruct (Hcell c text w Ht Hw) as (line' & Hline' & ? & _). congruence.
    - intros Hsingle. apply Forall_lookup. intros c line Hline.
      destruct (lookup_lt_is_Some_2 row c) as [text Ht].
      { rewrite Hlen, <- Hcl, <- (alignCells_length verticalAlignment rowHeight).
        apply lookup_lt_Some in Hline. by rewrite length_fmap in Hline. }
      destruct (lookup_lt_is_Some_2 columnWidths c) as [w Hw].
      { rewrite <- Hlen. by eapply lookup_lt_Some. }
      destruct (Hcell c text w Ht Hw) as (line' & Hline' & _ & Hs).
      assert (line = line') as -> by congruence. apply Hs.
      by eapply Forall_lookup_1 in Hsingle. }
  destruct (mapM_total (λ texts, createRow texts columnWidths horizontalAlignment)
              (cellRowsOf rowHeight padded)) as [lines Hlines].
  { apply Forall_forall. intros texts Hin. destruct (Hrow texts Hin) as [Hfit _].
    destruct (createRow_line texts columnWidths horizontalAlignment Hne Hfit)
      as (line & ? & _). eauto. }
  exists cells, lines. rewrite Hlines. split; [done|]. split; [done|].
  apply mapM_Normal in Hlines.
  split; [by rewrite <- (Forall2_length _ _ _ Hlines), cellRowsOf_length|].
  assert (Hall : Forall (λ line,
            len line = 1 + sumOf columnWidths + len columnWidths
            ∧ (Forall singleLine row → singleLine line)) lines).
  { apply Forall_lookup. intros i line Hline.
    destruct (Forall2_lookup_r _ _ _ _ _ Hlines Hline) as (texts & Ht & Hrender).
    destruct (Hrow texts) as [Hfit Hsingle]; [by eapply list_elem_of_lookup_2|].
    destruct (createRow_line texts columnWidths horizontalAlignment Hne Hfit)
      as (line' & Hrender' & ? & Hs).
    assert (line = line') as -> by congruence. split; [done|].
    intros ?. apply Hs. by apply Hsingle. }
  split; [eapply Forall_impl; [done|]; by intros ? [? _]|].
  split.
  - intros Hsingle. eapply Forall_impl; [done|]. intros ? [_ Hs]. by apply Hs.
  - intros [text [[c Ht]%list_elem_of_lookup_1 Htext]]%Exists_exists.
    destruct (lookup_lt_is_Some_2 columnWidths c) as [w Hw].
    { rewrite <- Hlen. by eapply lookup_lt_Some. }
    destruct (Hcells c text w Ht Hw) as (cellLines & Hc & Hs).
    assert (0 < rowHeight)%nat as Hpos.
    { apply rowHeightOf_positive, Exists_exists. exists cellLines.
      split; [by eapply list_elem_of_lookup_2|].
      specialize (Hs 0%nat). unfold sliceAt in Hs. simpl in Hs.
      rewrite decide_True in Hs by (destruct text; [done|simpl; lia]).
      by destruct cellLines. }
    apply Forall2_length in Hlines. rewrite cellRowsOf_length in Hlines.
    destruct lines; [simpl in Hlines; lia|done].
Qed.

(** ** The whole table *)

Lemma blocks_of_rows (Q : list str → Prop) (f : list str → completion str)
    (content : list (list str)) blocks :
  Forall2 (λ row block, f row = Normal block) content blocks →
  Forall (λ row, ∀ block, f row = Normal block →
            ∃ lines, block = join [LF] lines ∧ Q lines) content →
  ∃ groups, blocks = join [LF] <$> groups ∧ Forall Q groups
    ∧ length groups = length content.
Proof.
  induction 1 as [|row block content blocks Hrow _ IH]; intros Hall.
  - by exists [].
  - inversion Hall as [|? ? Hq Hrest]; subst.
    destruct (Hq block Hrow) as (lines & -> & Hlines).
    destruct (IH Hrest) as (groups & -> & Hgroups & Hlen).
    exists (lines :: groups). split; [done|]. split; [by constructor|].
    simpl. by rewrite Hlen.
Qed.

(** With every column at least three wide, at least one data row, and rows
    that are plain, the four blocks are rendered and every line of the
    result has the width of the table. *)
Lemma renderTable_lines columnNames tableContent columnWidths
    horizontalAlignment verticalAlignment :
  Forall (λ w, 3 ≤ w) columnWidths →
  Forall (λ row, length row = length columnWidths) (columnNames :: tableContent) →
  Forall plainRow (columnNames :: tableContent) →
  tableContent ≠ [] →
  ∃ out,
    renderTable columnNames tableContent columnWidths horizontalAlignment
                verticalAlignment = Normal out
    ∧ Forall (λ line, len line = 1 + sumOf columnWidths + len columnWidths)
             (split LF out).
Proof.
  intros Hws Hshape Hplain Hcontent.
  set (width := 1 + sumOf columnWidths + len columnWidths).
  apply Forall_cons in Hshape as [Hnames Hshape].
  apply Forall_cons in Hplain as [[Hsingle Hsome] Hplain].
  assert (Hne : columnWidths ≠ []).
  { intros ->. destruct columnNames; [by inversion Hsome|done]. }
  assert (Hpos : Forall (λ w, 0 ≤ w) columnWidths)
    by (eapply Forall_impl; [done|]; simpl; lia).
  unfold renderTable, createTableTop, createTableColumnNames,
    createTableMiddleLine, createTableBottom, createTableRows.
  rewrite border_runs by done. simpl.
  destruct (createMultiLineRows_lines columnNames columnWidths
              horizontalAlignment verticalAlignment Hne Hws Hnames)
    as (cells & header & _ & -> & _ & Hhw & Hhs & Hhne). simpl.
  specialize (Hhs Hsingle). specialize (Hhne Hsome).
  destruct (mapM_total (λ row, createMultiLineRows row columnWidths
              horizontalAlignment verticalAlignment) tableContent)
    as [blocks Hblocks].
  { eapply Forall_impl; [exact Hshape|]. intros row Hrow.
    destruct (createMultiLineRows_lines row columnWidths horizontalAlignment
                verticalAlignment Hne Hws Hrow) as (? & lines & _ & ? & _).
    eauto. }
  rewrite Hblocks. simpl. eexists. split; [done|].
  apply mapM_Normal in Hblocks.
  destruct (blocks_of_rows
    (λ lines, lines ≠ [] ∧ Forall (λ line, len line = width ∧ singleLine line) lines)
    _ _ _ Hblocks) as (groups & -> & Hgroups & Hlen).
  { apply Forall_forall. intros row Hrow block Hblock.
    destruct (createMultiLineRows_lines row columnWidths horizontalAlignment
                verticalAlignment Hne Hws) as (? & lines & _ & Hl & _ & Hw & Hs & Hn).
    { by eapply Forall_forall in Hshape. }
    eapply Forall_forall in Hplain as [Hps Hpe]; [|done].
    exists lines. split; [congruence|]. split; [by apply Hn|].
    apply Forall_forall. intros line Hline. split.
    - by eapply Forall_forall in Hw.
    - eapply Forall_forall in Hs; done. }
  pose (runs := (λ w, replicate (Z.to_nat w) HORIZONTAL) <$> columnWidths).
  pose (top := framed TOP_LEFT TOP_MIDDLE TOP_RIGHT runs).
  pose (middle := framed LEFT_MIDDLE MIDDLE RIGHT_MIDDLE runs).
  pose (bottom := framed BOTTOM_LEFT BOTTOM_MIDDLE BOTTOM_RIGHT runs).
  change (Forall (λ line, len line = width)
    (split LF (join [LF] [top; join [LF] header ++ [LF] ++ middle;
                          join [LF] (join [LF] <$> groups); bottom]))).
  assert (Hborder : ∀ a b c, a ≠ LF → b ≠ LF → c ≠ LF →
    let line := framed a b c ((λ w, replicate (Z.to_nat w) HORIZONTAL) <$> columnWidths)
    in len line = width ∧ singleLine line).
  { intros. by apply border_line. }
  destruct (Hborder TOP_LEFT TOP_MIDDLE TOP_RIGHT) as [Htw Hts]; [done..|].
  destruct (Hborder LEFT_MIDDLE MIDDLE RIGHT_MIDDLE) as [Hmw Hms]; [done..|].
  destruct (Hborder BOTTOM_LEFT BOTTOM_MIDDLE BOTTOM_RIGHT) as [Hbw Hbs]; [done..|].
  fold runs in Htw, Hts, Hmw, Hms, Hbw, Hbs.
  fold top in Htw, Hts. fold middle in Hmw, Hms. fold bottom in Hbw, Hbs.
  clearbody top middle bottom.
  assert (Hgne : concat groups ≠ []).
  { destruct groups as [|group groups]; [by destruct tableContent|].
    inversion Hgroups as [|? ? [Hg _] _]; subst. simpl. by destruct group. }
  replace (join [LF] header ++ [LF] ++ middle)
    with (join [LF] (header ++ [middle])) by (by rewrite join_app).
  rewrite join_blocks by (eapply Forall_impl; [done|]; by intros ? [? _]).
  change [top; join [LF] (header ++ [middle]); join [LF] (concat groups); bottom]
    with (join [LF] <$> [[top]; header ++ [middle]; concat groups; [bottom]]).
  rewrite join_blocks.
  2:{ repeat constructor; try done. by destruct header. }
  assert (Hall : Forall (λ line, len line = width ∧ singleLine line)
            (concat [[top]; header ++ [middle]; concat groups; [bottom]])).
  { simpl. constructor; [done|].
    rewrite !Forall_app. split; [split|split].
    - apply Forall_forall. intros line Hline. split.
      + by eapply Forall_forall in Hhw.
      + by eapply Forall_forall in Hhs.
    - by constructor.
    - apply Forall_concat. eapply Forall_impl; [done|]. by intros ? [_ ?].
    - by constructor. }
  rewrite split_join.
  - eapply Forall_impl; [done|]. by intros ? [? _].
  - done.
  - eapply Forall_impl; [done|]. by intros ? [_ ?].
Qed.

(** The rendering completes whenever every column is at least three wide
    and every row has a text for every column. *)
Lemma renderTable_total columnNames tableContent columnWidths
    horizontalAlignment verticalAlignment :
  Forall (λ w, 3 ≤ w) columnWidths →
  Forall (λ row, length row = length columnWidths) (columnNames :: tableContent) →
  ∃ out,
    renderTable columnNames tableContent columnWidths horizontalAlignment
                verticalAlignment = Normal out.
Proof.
  intros Hws Hshape. apply Forall_cons in Hshape as [Hnames Hshape].
  assert (Hrow : ∀ row, length row = length columnWidths →
            ∃ block, createMultiLineRows row columnWidths horizontalAlignment
                       verticalAlignment = Normal block).
  { intros row Hrow. destruct columnWidths as [|w ws]; [by eexists|].
    destruct (createMultiLineRows_lines row (w :: ws) horizontalAlignment
                verticalAlignment) as (? & lines & _ & ? & _); eauto. }
  assert (Hpos : Forall (λ w, 0 ≤ w) columnWidths)
    by (eapply Forall_impl; [done|]; simpl; lia).
  unfold renderTable, createTableTop, createTableColumnNames,
    createTableMiddleLine, createTableBottom, createTableRows.
  rewrite border_runs by done. simpl.
  destruct (Hrow columnNames Hnames) as [header ->]. simpl.
  destruct (mapM_total (λ row, createMultiLineRows row columnWidths
              horizontalAlignment verticalAlignment) tableContent)
    as [blocks ->]; [|by eexists].
  eapply Forall_impl; [exact Hshape|]. intros row. apply Hrow.
Qed.

Lemma shrinkWalk_outcome shrinkFactor averageWidth widths : ∀ overflow,
  (∃ widths', shrinkWalk shrinkFactor averageWidth overflow widths = Normal widths')
  ∨ shrinkWalk shrinkFactor averageWidth overflow widths = NotFinite.
Proof.
  induction widths as [|w widths IH]; intros o; simpl; [by left; eexists|].
  repeat case_decide; try (by left; eexists).
  - destruct (Math_floor _) as [fl| | |] eqn:Hfl; try (by destruct (fmul _ _));
      [|by right]. simpl.
    destruct (IH (o - (w - Z.max averageWidth fl))) as [[ws' ->]| ->];
      [by left; eexists|by right].
  - destruct (IH o) as [[ws' ->]| ->]; [by left; eexists|by right].
Qed.

Lemma growWalk_outcome growFactor averageWidth widths : ∀ growth,
  (∃ widths', growWalk growFactor averageWidth growth widths = Normal widths')
  ∨ growWalk growFactor averageWidth growth widths = NotFinite.
Proof.
  induction widths as [|w widths IH]; intros g; simpl; [by left; eexists|].
  repeat case_decide; try (by left; eexists).
  - destruct (Math_floor _) as [fl| | |] eqn:Hfl; try (by destruct (fmul _ _));
      [|by right]. simpl.
    destruct (IH (g - (fl - w))) as [[ws' ->]| ->];
      [by left; eexists|by right].
  - destruct (IH g) as [[ws' ->]| ->]; [by left; eexists|by right].
Qed.

(** The sizing never loops: it completes, or throws on an unknown strategy,
    or leaves the integers. *)
Lemma sizeColumns_outcome sizing fullWidth columnCount budget averageWidth widths :
  (∃ widths', sizeColumns sizing fullWidth columnCount budget averageWidth widths
              = Normal widths')
  ∨ (∃ name, sizeColumns sizing fullWidth columnCount budget averageWidth widths
             = Throw (Error (unknownSizingMessage name)))
  ∨ sizeColumns sizing fullWidth columnCount budget averageWidth widths = NotFinite.
Proof.
  unfold sizeColumns.
  assert (Hgrow : ∀ ws o,
    (∃ ws', match o with
            | Some o => if fullWidth && (o <? 0)
                        then growColumns ws averageWidth (- o) else mret ws
            | None => mret ws
            end = Normal ws')
    ∨ match o with
      | Some o => if fullWidth && (o <? 0)
                  then growColumns ws averageWidth (- o) else mret ws
      | None => mret ws
      end = NotFinite).
  { intros ws [o|]; [|by left; eexists].
    destruct (fullWidth && _); [|by left; eexists].
    rewrite growColumns_walk. apply growWalk_outcome. }
  assert (Hshrink : ∀ ws o,
    (∃ ws', shrinkColumns ws averageWidth o = Normal ws')
    ∨ shrinkColumns ws averageWidth o = NotFinite).
  { intros. rewrite shrinkColumns_walk. apply shrinkWalk_outcome. }
  destruct sizing as [| |name]; [| |right; left; by eexists].
  - destruct (0 <? _).
    + destruct (Hshrink widths (sumOf widths - budget)) as [[ws' ->]| ->];
        [|by right; right].
      simpl. destruct (Hgrow ws' (Some 0)) as [[? Hg]|Hg]; [left|right; right];
        rewrite ?Hg; eauto.
    + simpl. destruct (Hgrow widths (Some (sumOf widths - budget))) as [[? Hg]|Hg];
        [left|right; right]; rewrite ?Hg; eauto.
  - destruct (Math_max widths) as [m|]; [|left; by eexists].
    destruct (0 <? _).
    + destruct (Hshrink ((λ _, m) <$> widths) (m * columnCount - budget))
        as [[ws' ->]| ->]; [|by right; right].
      simpl. destruct (Hgrow ws' (Some 0)) as [[? Hg]|Hg]; [left|right; right];
        rewrite ?Hg; eauto.
    + simpl. destruct (Hgrow ((λ _, m) <$> widths) (Some (m * columnCount - budget)))
        as [[? Hg]|Hg]; [left|right; right]; rewrite ?Hg; eauto.
Qed.

Lemma checkWidths_Normal columnWidths u :
  checkWidths columnWidths = Normal u ↔ Forall (λ w, 3 ≤ w) columnWidths.
Proof.
  unfold checkWidths. case_decide as Hex; split; try done.
  - intros Hall. apply Exists_exists in Hex as (w & Hw & Hlt).
    eapply Forall_forall in Hall; [|done]. lia.
  - intros _. apply Forall_forall. intros w Hw.
    destruct (decide (3 ≤ w)); [done|]. destruct Hex. apply Exists_exists.
    exists w. split; [done|lia].
  - by destruct u.
Qed.

Section Table.

Context {Key Value : Type}.
Variable toString : Key → str.
Variable inspect : Value → str.

Lemma tableCells_shape items keys indexColumn columnNames tableContent columnCount :
  tableCells toString inspect items keys indexColumn
  = (columnNames, tableContent, columnCount) →
  columnCount = len columnNames
  ∧ Forall (λ row, length row = length columnNames) tableContent
  ∧ length tableContent = length items.
Proof.
  unfold tableCells, len. destruct indexColumn; intros [= <- <- <-].
  - split; [simpl; rewrite length_fmap; lia|]. split.
    + apply Forall_lookup. intros i row. rewrite list_lookup_imap.
      rewrite list_lookup_fmap. destruct (items !! i); [|done].
      intros [= <-]. simpl. by rewrite !length_fmap.
    + by rewrite length_imap, length_fmap.
  - split; [by rewrite length_fmap|]. split; [|by rewrite length_fmap].
    apply Forall_fmap, Forall_forall. intros item _. simpl.
    by rewrite !length_fmap.
Qed.

(** What a call that passes the feasibility check goes through: the sizing,
    the check of the widths, the rendering. *)
Lemma createTable_feasible items keys options :
  4 * columnCountOf keys options + 1 ≤ maxWidth options →
  createTable toString inspect items keys options
  = finalWidths toString inspect items keys options ≫= λ columnWidths,
      checkWidths columnWidths ≫= λ _,
        renderTable (columnNamesOf toString inspect items keys options)
          (tableContentOf toString inspect items keys options) columnWidths
          (horizontalAlignment options) (verticalAlignment options).
Proof.
  intros Hw. pose proof (tableCells_columnCount toString inspect items keys options) as Hc.
  unfold createTable, layoutTable, finalWidths, columnNamesOf, tableContentOf.
  destruct (tableCells _ _ _ _ _) as [[names content] c]. simpl in Hc. subst c.
  by replace (maxWidth options <? 4 * columnCountOf keys options + 1)
    with false by (symmetry; apply Z.ltb_ge; lia).
Qed.

(** The widths that the sizing chooses: one for every column, and a total
    within the budget, whatever the strategy and the options. *)
Lemma finalWidths_within_maxWidth items keys options columnWidths :
  4 * columnCountOf keys options + 1 ≤ maxWidth options →
  finalWidths toString inspect items keys options = Normal columnWidths →
  len columnWidths = columnCountOf keys options
  ∧ sumOf columnWidths + columnCountOf keys options + 1 ≤ maxWidth options.
Proof.
  intros Hw. pose proof (tableCells_columnCount toString inspect items keys options) as Hc.
  unfold finalWidths.
  destruct (tableCells _ _ _ _ _) as [[names content] c] eqn:Hcells.
  simpl in Hc. subst c.
  apply tableCells_shape in Hcells as (Hcount & _ & _).
  assert (Hn : columnCountOf keys options = len (naturalWidths names content)).
  { unfold len. rewrite naturalWidths_length. exact Hcount. }
  rewrite Hn. intros H. apply sizeColumns_within_budget in H as [Hl Hs].
  - unfold len in *. rewrite Hl. lia.
  - unfold len in *. lia.
Qed.

(** C4, as the source has it.  When the call passes the feasibility check
    and returns, there is at least one item, and every row of the table (the
    header and each data row) is plain, that is, has no line break in its
    texts and has a text that is not empty, then every line of the result,
    split at the line breaks, has the length
    [1 + sum(final_widths) + columnCount], which is at most [maxWidth]. *)
Theorem createTable_line_lengths items keys options out :
  4 * columnCountOf keys options + 1 ≤ maxWidth options →
  createTable toString inspect items keys options = Normal out →
  items ≠ [] →
  Forall plainRow (tableRows toString inspect items keys options) →
  ∃ columnWidths,
    finalWidths toString inspect items keys options = Normal columnWidths
    ∧ Forall (λ line,
        len line = 1 + sumOf columnWidths + columnCountOf keys options
        ∧ len line ≤ maxWidth options) (split LF out).
Proof.
  intros Hw Hout Hitems Hplain.
  rewrite createTable_feasible in Hout by done.
  apply bind_Normal in Hout as (ws & Hws & Hout).
  apply bind_Normal in Hout as (u & Hcheck & Hout).
  apply checkWidths_Normal in Hcheck.
  exists ws. split; [done|].
  destruct (finalWidths_within_maxWidth _ _ _ _ Hw Hws) as [Hlen Hsum].
  unfold tableRows, columnNamesOf, tableContentOf in *.
  pose proof (tableCells_columnCount toString inspect items keys options) as Hc.
  destruct (tableCells _ _ _ _ _) as [[names content] c] eqn:Hcells.
  simpl in Hc, Hout, Hplain. subst c.
  apply tableCells_shape in Hcells as (Hcount & Hshape & Hcontent).
  assert (Hnames : length names = length ws) by (unfold len in *; lia).
  destruct (renderTable_lines names content ws (horizontalAlignment options)
              (verticalAlignment options)) as (out' & Hout' & Hlines).
  - done.
  - constructor; [done|]. by rewrite <- Hnames.
  - done.
  - destruct content; [by destruct items|done].
  - assert (out = out') as <- by congruence.
    eapply Forall_impl; [done|]. intros line Hline. simpl in Hline. lia.
Qed.

(** C5. The shrink step of the source is the one that the specification
    words: the columns wider than the average are the big ones; every big
    column but the last in index order becomes
    [max(averageWidth, floor(shrinkFactor * width))] with
    [shrinkFactor = 1 - overflow / (sum(big widths) - count(big) * averageWidth)],
    and the running overflow loses what was removed; the last big column
    loses all that remains of the overflow, unclamped; every other column is
    left as it is.  Whenever the natural widths do not fit in the budget
    [maxWidth - columnCount - 1], the sizing is this step with
    [averageWidth = floor(budget / columnCount)]: on the natural widths under
    [stretch], on the evened widths under [even]. *)
Theorem shrinkColumns_spec :
  (∀ columnWidths averageWidth overflow,
     shrinkColumns columnWidths averageWidth overflow
     = shrinkSpec columnWidths averageWidth overflow)
  ∧ (∀ items keys options,
       let columnCount := columnCountOf keys options in
       let budget := maxWidth options - columnCount - 1 in
       let natural := naturalWidths (columnNamesOf toString inspect items keys options)
                        (tableContentOf toString inspect items keys options) in
       budget < sumOf natural →
       (columnSizing options = stretch →
        finalWidths toString inspect items keys options
        = shrinkSpec natural (budget `div` columnCount) (sumOf natural - budget))
       ∧ (columnSizing options = even →
          ∀ widest, Math_max natural = Some widest →
            finalWidths toString inspect items keys options
            = shrinkSpec ((λ _, widest) <$> natural) (budget `div` columnCount)
                         (widest * columnCount - budget))).
Proof.
  split; [intros; apply shrinkColumns_walk|].
  intros items keys options columnCount budget natural Hover.
  pose proof (tableCells_columnCount toString inspect items keys options) as Hc.
  unfold finalWidths. subst natural. unfold columnNamesOf, tableContentOf in *.
  destruct (tableCells _ _ _ _ _) as [[names content] c] eqn:Hcells.
  simpl in Hc, Hover |- *. subst c. fold columnCount budget.
  apply tableCells_shape in Hcells as (Hcount & _ & _). fold columnCount in Hcount.
  set (natural := naturalWidths names content) in *.
  assert (Hlen : len natural = columnCount).
  { unfold len, natural. rewrite naturalWidths_length. by rewrite Hcount. }
  split.
  - intros ->. unfold sizeColumns. rewrite <- shrinkColumns_walk.
    replace (0 <? sumOf natural - budget) with true by (symmetry; apply Z.ltb_lt; lia).
    destruct (shrinkColumns _ _ _); simpl; try done.
    by rewrite andb_false_r.
  - intros -> m Hm. unfold sizeColumns. rewrite Hm, <- shrinkColumns_walk.
    apply Math_max_bound in Hm as [Hm _]. apply sum_le_max in Hm.
    rewrite Hlen in Hm.
    replace (0 <? m * columnCount - budget) with true by (symmetry; apply Z.ltb_lt; lia).
    destruct (shrinkColumns _ _ _); simpl; try done.
    by rewrite andb_false_r.
Qed.

(** The check after the sizing: a width below three ends the call in an
    error of its own, which is not the one of the feasibility check. *)
Lemma createTable_post_check items keys options columnWidths :
  4 * columnCountOf keys options + 1 ≤ maxWidth options →
  finalWidths toString inspect items keys options = Normal columnWidths →
  Exists (λ w, w < 3) columnWidths →
  createTable toString inspect items keys options = Throw (Error bugReportMessage)
  ∧ bugReportMessage
    ≠ tooSmallMessage (columnCountOf keys options) (maxWidth options).
Proof.
  intros Hw Hws Hex. split.
  - rewrite createTable_feasible by done. rewrite Hws. simpl.
    unfold checkWidths. by rewrite decide_True.
  - intros Heq. symmetry in Heq.
    by destruct (sizing_messages_differ (columnCountOf keys options)
                   (maxWidth options) []) as [_ ?].
Qed.

(** How a call can end: with a result, with one of the three errors that
    the source constructs, or outside the integers in the sizing.  It never
    loops, and the runtime raises nothing in the rendering. *)
Lemma createTable_outcomes items keys options :
  (∃ out, createTable toString inspect items keys options = Normal out)
  ∨ (∃ message, createTable toString inspect items keys options
                = Throw (Error message))
  ∨ createTable toString inspect items keys options = NotFinite.
Proof.
  destruct (decide (4 * columnCountOf keys options + 1 ≤ maxWidth options))
    as [Hw|Hw].
  - rewrite createTable_feasible by done.
    pose proof (finalWidths_within_maxWidth items keys options) as Hfinal.
    unfold finalWidths, columnNamesOf, tableContentOf in *.
    pose proof (tableCells_columnCount toString inspect items keys options) as Hc.
    destruct (tableCells _ _ _ _ _) as [[names content] c] eqn:Hcells.
    simpl in Hc |- *. subst c.
    apply tableCells_shape in Hcells as (Hcount & Hshape & _).
    destruct (sizeColumns_outcome (columnSizing options) (fullWidth options)
                (columnCountOf keys options)
                (maxWidth options - columnCountOf keys options - 1)
                ((maxWidth options - columnCountOf keys options - 1)
                   `div` columnCountOf keys options)
                (naturalWidths names content)) as [[ws Hws]|[[name Hn]|Hn]];
      rewrite ?Hn; [|right; left; by eexists|by right; right].
    rewrite Hws. simpl. destruct (Hfinal ws Hw Hws) as [Hlen _].
    unfold checkWidths. case_decide as Hex; [right; left; by eexists|].
    left. simpl. apply renderTable_total.
    + apply Forall_forall. intros w Hin. destruct (decide (3 ≤ w)); [done|].
      destruct Hex. apply Exists_exists. exists w. split; [done|lia].
    + assert (length names = length ws) by (unfold len in *; lia).
      constructor; [done|]. eapply Forall_impl; [done|]. simpl. congruence.
  - pose proof (tableCells_columnCount toString inspect items keys options) as Hc.
    unfold createTable, layoutTable.
    destruct (tableCells _ _ _ _ _) as [[names content] c]. simpl in Hc. subst c.
    replace (maxWidth options <? 4 * columnCountOf keys options + 1) with true
      by (symmetry; apply Z.ltb_lt; lia).
    destruct (throwIfTooSmall options); [right; left|left]; by eexists.
Qed.

End Table.

(** ** The cell wrapper *)

(** The fuel that [cellLines] gives the loop is never what ends it: more
    fuel gives the same lines. *)
Lemma cellLines_fuel fuel text columnWidth :
  3 ≤ columnWidth → (length text < fuel)%nat →
  cellLinesLoop fuel text columnWidth = cellLines text columnWidth.
Proof.
  intros Hw Hfuel.
  destruct (cellLinesLoop_exits fuel text columnWidth Hw Hfuel) as (l1 & H1 & Hs1).
  destruct (cellLinesLoop_exits (Datatypes.S (length text)) text columnWidth Hw)
    as (l2 & H2 & Hs2); [lia|].
  unfold cellLines. rewrite H1, H2. f_equal. apply list_eq. intros i.
  by rewrite Hs1, Hs2.
Qed.

(** C3, as the source has it.  For a column at least three wide, that is, an
    inner width of at least one, the wrapper returns the consecutive slices
    of the text, each of at most [innerWidth] code units and none empty, in
    the order of the text, up to its end; for the empty text it returns no
    line at all; and a row in which some text is not empty is at least one
    line high. *)
Theorem cellLines_slices text columnWidth :
  3 ≤ columnWidth →
  let innerWidth := Z.to_nat (columnWidth - 2) in
  (∃ lines,
     cellLines text columnWidth = Normal lines
     ∧ (∀ i, lines !! i = sliceAt innerWidth text i)
     ∧ concat lines = text
     ∧ Forall (λ line, (0 < length line ≤ innerWidth)%nat) lines
     ∧ (text = [] → lines = []))
  ∧ ∀ row columnWidths cells,
      Forall (λ w, 3 ≤ w) columnWidths → length row = length columnWidths →
      splitCells row columnWidths = Normal cells →
      Exists (λ text, text ≠ []) row → (1 ≤ rowHeightOf cells)%nat.
Proof.
  intros Hw innerWidth. split.
  - destruct (cellLinesLoop_exits (Datatypes.S (length text)) text columnWidth Hw)
      as (lines & Hlines & Hs); [lia|].
    exists lines. split; [done|]. split; [done|].
    destruct (sliceAt_lines innerWidth text lines) as (Hc & Hf & _ & Hl);
      [unfold innerWidth; lia|done|].
    split; [done|]. split; [done|].
    intros ->. specialize (Hs 0%nat). by destruct lines.
  - intros row ws cells Hws Hlen Hsplit.
    intros [t [[c Ht]%list_elem_of_lookup_1 Hne]]%Exists_exists.
    destruct (splitCells_Normal row ws Hws Hlen) as (cells' & Hsplit' & _ & Hcells).
    assert (cells' = cells) as -> by congruence.
    destruct (lookup_lt_is_Some_2 ws c) as [w Hwc].
    { rewrite <- Hlen. by eapply lookup_lt_Some. }
    destruct (Hcells c t w Ht Hwc) as (cellLines & Hc & Hs).
    apply rowHeightOf_positive, Exists_exists. exists cellLines.
    split; [by eapply list_elem_of_lookup_2|].
    specialize (Hs 0%nat). unfold sliceAt in Hs. simpl in Hs.
    rewrite decide_True in Hs by (destruct t; [done|simpl; lia]).
    by destruct cellLines.
Qed.

(** ** The vertical alignment *)







(** ** The [even] strategy *)

Lemma growWalk_none growFactor averageWidth growth widths :
  ¬ Exists (λ w, w < averageWidth) widths →
  growWalk growFactor averageWidth growth widths = Normal widths.
Proof.
  induction widths as [|w widths IH]; [done|]. intros Hn. simpl.
  rewrite decide_False by (intros ?; apply Hn; by left).
  rewrite IH; [done|]. intros ?. apply Hn. by right.
Qed.

(** The [even] branch of the sizing, on any widths. *)
Lemma sizeColumns_even fullWidth budget averageWidth naturalWidths widest :
  Math_max naturalWidths = Some widest →
  let columnCount := len naturalWidths in
  let evened := (λ _, widest) <$> naturalWidths in
  (widest * columnCount ≤ budget →
   fullWidth = false ∨ averageWidth ≤ widest →
   sizeColumns even fullWidth columnCount budget averageWidth naturalWidths
   = Normal evened)
  ∧ (budget < widest * columnCount →
     sizeColumns even fullWidth columnCount budget averageWidth naturalWidths
     = shrinkColumns evened averageWidth (widest * columnCount - budget)
     ∧ sizeColumns stretch fullWidth columnCount budget averageWidth evened
       = shrinkColumns evened averageWidth (widest * columnCount - budget)).
Proof.
  intros Hmax columnCount evened. split.
  - intros Hfit Hgrow. unfold sizeColumns. rewrite Hmax.
    replace (0 <? widest * columnCount - budget) with false
      by (symmetry; apply Z.ltb_ge; lia).
    simpl. destruct (fullWidth && _) eqn:Hg; [|done].
    apply andb_true_iff in Hg as [-> _].
    destruct Hgrow as [?|Hwide]; [done|].
    rewrite growColumns_walk. unfold growSpec. apply growWalk_none.
    intros (w & Hw & Hlt)%Exists_exists.
    apply list_elem_of_fmap in Hw as (? & -> & _). lia.
  - intros Hover. unfold sizeColumns. rewrite Hmax.
    pose proof (sum_const naturalWidths widest) as Hsum.
    fold evened columnCount in Hsum. rewrite Hsum.
    replace (0 <? widest * columnCount - budget) with true
      by (symmetry; apply Z.ltb_lt; lia).
    split; destruct (shrinkColumns _ _ _); simpl; try done;
      by rewrite andb_false_r.
Qed.

Section Even.

Context {Key Value : Type}.
Variable toString : Key → str.
Variable inspect : Value → str.

(** C6, as the source has it.  Under [even] every column is first given the
    width of the widest.  When the total of these does not exceed the budget
    and no growth takes place ([fullWidth] is off, or the widest column is
    not below the average width), these equal widths are final.  When the
    total exceeds the budget, the shrink step runs on them with the budget
    as its target, the very call that [stretch] makes on such widths. *)
Theorem even_sizing items keys options widest :
  let columnCount := columnCountOf keys options in
  let budget := maxWidth options - columnCount - 1 in
  let averageWidth := budget `div` columnCount in
  let natural := naturalWidths (columnNamesOf toString inspect items keys options)
                   (tableContentOf toString inspect items keys options) in
  let evened := (λ _, widest) <$> natural in
  columnSizing options = even →
  Math_max natural = Some widest →
  (widest * columnCount ≤ budget →
   fullWidth options = false ∨ averageWidth ≤ widest →
   finalWidths toString inspect items keys options = Normal evened)
  ∧ (budget < widest * columnCount →
     finalWidths toString inspect items keys options
     = shrinkColumns evened averageWidth (widest * columnCount - budget)
     ∧ sizeColumns stretch (fullWidth options) columnCount budget averageWidth
                   evened
       = shrinkColumns evened averageWidth (widest * columnCount - budget)).
Proof.
  intros columnCount budget averageWidth natural evened Heven Hmax.
  pose proof (tableCells_columnCount toString inspect items keys options) as Hc.
  pose proof (tableCells_shape toString inspect items keys (indexColumn options))
    as Hshape.
  unfold finalWidths. subst evened natural.
  unfold columnNamesOf, tableContentOf in *.
  destruct (tableCells _ _ _ _ _) as [[names content] c].
  destruct (Hshape names content c eq_refl) as (Hcount & _ & _).
  simpl in Hc, Hmax |- *. subst c. fold columnCount budget averageWidth.
  fold columnCount in Hcount.
  assert (Hlen : len (naturalWidths names content) = columnCount).
  { unfold len. rewrite naturalWidths_length. by rewrite Hcount. }
  rewrite Heven.
  pose proof (sizeColumns_even (fullWidth options) budget averageWidth
                (naturalWidths names content) widest Hmax) as Hsize.
  cbn zeta in Hsize. by rewrite Hlen in Hsize.
Qed.

End Even.

(** ** Doubles

    The two facts about binary64 that the layout at the minimum width rests
    on: an integer below 2^53 is a finite double, and a finite double divided
    by itself is one. *)

Lemma digits2_pos_lower p : 2 ^ (Z.pos (digits2_pos p) - 1) ≤ Z.pos p.
Proof.
  induction p as [p IH|p IH|]; simpl; [| |done].
  - rewrite Pos2Z.inj_succ. replace (Z.succ (Z.pos (digits2_pos p)) - 1)
      with (Z.succ (Z.pos (digits2_pos p) - 1)) by lia.
    rewrite Z.pow_succ_r by lia. lia.
  - rewrite Pos2Z.inj_succ. replace (Z.succ (Z.pos (digits2_pos p)) - 1)
      with (Z.succ (Z.pos (digits2_pos p) - 1)) by lia.
    rewrite Z.pow_succ_r by lia. lia.
Qed.

Lemma digits2_pos_bound p k : 0 ≤ k → Z.pos p < 2 ^ k → Z.pos (digits2_pos p) ≤ k.
Proof.
  intros Hk Hp. pose proof (digits2_pos_lower p) as Hl.
  destruct (decide (Z.pos (digits2_pos p) ≤ k)) as [|Hgt]; [done|].
  assert (2 ^ k ≤ 2 ^ (Z.pos (digits2_pos p) - 1)) by (apply Z.pow_le_mono_r; lia).
  lia.
Qed.

Lemma digits2_pos_iter p k :
  digits2_pos (Pos.iter xO p k) = (digits2_pos p + k)%positive.
Proof.
  induction k as [|k IH] using Pos.peano_ind.
  - simpl. lia.
  - rewrite Pos.iter_succ. simpl. rewrite IH. lia.
Qed.

Lemma binary_round_aux_canonical s m e :
  Z.pos (digits2_pos m) = 53 → -1074 ≤ e ≤ 971 →
  binary_round_aux 53 1024 s (Z.pos m) e loc_Exact = S754_finite s m e.
Proof.
  intros Hd He. unfold binary_round_aux, shr_fexp. simpl Zdigits2. rewrite Hd.
  assert (Hfexp : fexp 53 1024 (53 + e) - e = 0) by (unfold fexp, emin; lia).
  rewrite Hfexp. simpl. rewrite Hd, Hfexp. simpl.
  replace (e <=? 1024 - 53) with true by (symmetry; apply Z.leb_le; lia). done.
Qed.

Lemma of_int_finite z :
  0 < z < 2 ^ 53 → ∃ m e, of_int z = S754_finite false m e.
Proof.
  intros [Hpos Hlt]. destruct z as [|p|p]; [lia| |lia].
  unfold of_int, binary_normalize, binary_round.
  pose proof (digits2_pos_bound p 53 ltac:(lia) Hlt) as Hd.
  assert (Hfexp : fexp 53 1024 (Z.pos (digits2_pos p) + 0)
                  = Z.pos (digits2_pos p) - 53).
  { unfold fexp, emin. lia. }
  rewrite Hfexp. unfold shl_align.
  destruct (Z.pos (digits2_pos p) - 53 - 0) as [|k|k] eqn:Hk; [|lia|].
  - rewrite binary_round_aux_canonical by lia. eauto.
  - rewrite binary_round_aux_canonical; [eauto| |lia].
    rewrite digits2_pos_iter. lia.
Qed.

Lemma fdiv_self s m e :
  fdiv (S754_finite s m e) (S754_finite s m e)
  = S754_finite false 4503599627370496 (-52).
Proof.
  unfold fdiv, SFdiv, SFdiv_core_binary.
  rewrite !Z.sub_diag.
  change (Z.min (fexp 53 1024 0) 0) with (-53).
  change (0 - -53) with 53.
  rewrite Z.shiftl_mul_pow2 by lia.
  assert (Hq : (Z.pos m * 2 ^ 53) `div` Z.pos m = 2 ^ 53)
    by (rewrite Z.mul_comm; apply Z.div_mul; lia).
  assert (Hr : (Z.pos m * 2 ^ 53) `mod` Z.pos m = 0)
    by (rewrite Z.mul_comm; apply Z.mod_mul; lia).
  unfold Z.div, Z.modulo in Hq, Hr.
  destruct (Z.div_eucl _ _) as [q r]. simpl in Hq, Hr. subst q r.
  unfold new_location, new_location_even, new_location_odd.
  by destruct (IntDef.Z.even (Z.pos m)), s.
Qed.

Lemma shrinkFactor_zero excess :
  0 < excess < 2 ^ 53 → shrinkFactorOf excess excess = S754_zero false.
Proof.
  intros Hd. unfold shrinkFactorOf.
  destruct (of_int_finite excess Hd) as (m & e & ->). by rewrite fdiv_self.
Qed.

Lemma floor_of_zero_times w :
  0 ≤ w < 2 ^ 53 → Math_floor (fmul (S754_zero false) (of_int w)) = Normal 0.
Proof.
  intros Hw. destruct (decide (w = 0)) as [->|Hne]; [done|].
  destruct (of_int_finite w) as (m & e & ->); [lia|done].
Qed.

(** ** The layout at the minimum width *)

(** A walk with a factor of zero over columns none of which is narrower than
    the average, with an overflow that is all their excess over the average,
    leaves every column at the average. *)
Lemma shrinkWalk_to_average averageWidth widths : ∀ overflow,
  0 ≤ averageWidth →
  Forall (λ w, averageWidth ≤ w < 2 ^ 53) widths →
  overflow = sumOf widths - averageWidth * len widths →
  shrinkWalk (S754_zero false) averageWidth overflow widths
  = Normal ((λ _, averageWidth) <$> widths).
Proof.
  unfold len. induction widths as [|w widths IH]; intros o Havg Hws Ho; [done|].
  apply Forall_cons in Hws as [Hw Hws]. rewrite sum_cons in Ho.
  simpl length in Ho. cbn [shrinkWalk].
  destruct (decide (averageWidth < w)) as [Hbig|Hsmall].
  - destruct (decide (Exists _ widths)) as [Hmore|Hlast].
    + rewrite floor_of_zero_times by lia. cbn [mbind completion_bind].
      rewrite Z.max_l by lia. rewrite IH; [done|done|done|lia].
    + assert (Hall : Forall (λ w', w' = averageWidth) widths).
      { apply Forall_forall. intros w' Hin.
        eapply Forall_forall in Hws; [|done].
        destruct (decide (averageWidth < w')); [|lia].
        destruct Hlast. apply Exists_exists. eauto. }
      assert (Hsum : sumOf widths = averageWidth * Z.of_nat (length widths)).
      { clear -Hall. induction Hall as [|w' ws -> _ IH];
          [rewrite sum_nil; simpl; lia|].
        rewrite sum_cons, IH. simpl length. lia. }
      rewrite fmap_cons. f_equal. f_equal; [lia|].
      clear -Hall. induction Hall as [|w' ws -> _ IH]; [done|].
      rewrite fmap_cons. by f_equal.
  - rewrite IH; [|done|done|lia]. rewrite fmap_cons. simpl. do 2 f_equal. lia.
Qed.

Lemma excess_of_big averageWidth widths :
  Forall (λ w, averageWidth ≤ w) widths →
  foldr Z.add 0 (filter (λ w, averageWidth < w) widths)
  - len (filter (λ w, averageWidth < w) widths) * averageWidth
  = sumOf widths - averageWidth * len widths.
Proof.
  unfold len. induction 1 as [|w widths Hw _ IH]; [rewrite sum_nil; simpl; lia|].
  rewrite filter_cons, sum_cons. simpl length.
  case_decide; simpl foldr; simpl length; lia.
Qed.

(** With a budget of three for every column, columns of three or more all
    end at three, under either strategy. *)
Lemma sizeColumns_at_minimum sizing fullWidth widths :
  sizing = stretch ∨ sizing = even →
  widths ≠ [] →
  Forall (λ w, 3 ≤ w ∧ w * len widths < 2 ^ 53) widths →
  sizeColumns sizing fullWidth (len widths) (3 * len widths) 3 widths
  = Normal ((λ _, 3) <$> widths).
Proof.
  intros Hsizing Hne Hws.
  assert (Hlen : 1 ≤ len widths) by (unfold len; destruct widths; [done|simpl; lia]).
  assert (Hshrink : ∀ ws, length ws = length widths →
            Forall (λ w, 3 ≤ w ∧ w * len widths < 2 ^ 53) ws →
            0 < sumOf ws - 3 * len widths →
            shrinkColumns ws 3 (sumOf ws - 3 * len widths)
            = Normal ((λ _, 3) <$> ws)).
  { intros ws Hl Hall Hover. rewrite shrinkColumns_walk. unfold shrinkSpec.
    change (fsub (of_int 1) (fdiv (of_int ?o) (of_int ?e))) with (shrinkFactorOf o e).
    rewrite excess_of_big by (eapply Forall_impl; [done|]; simpl; lia).
    assert (len ws = len widths) as Hl' by (unfold len; by rewrite Hl).
    assert (Hsum : sumOf ws * 1 < 2 ^ 53).
    { assert (sumOf ws ≤ (2 ^ 53 - 1) `div` len widths * len ws).
      { apply sum_le_max. eapply Forall_impl; [done|]. intros w [_ Hw]. simpl in *.
        apply Z.div_le_lower_bound; lia. }
      pose proof (Z.mul_div_le (2 ^ 53 - 1) (len widths) ltac:(lia)). lia. }
    rewrite Hl'. rewrite shrinkFactor_zero by lia.
    apply shrinkWalk_to_average; [lia| |lia].
    eapply Forall_impl; [done|]. intros w [? ?]. simpl in *. nia. }
  assert (Hthree : ∀ ws, length ws = length widths → Forall (λ w, 3 ≤ w) ws →
            sumOf ws - 3 * len widths ≤ 0 → ws = (λ _, 3) <$> ws).
  { intros ws Hl Hall Hover.
    assert (Hex : sumOf ws = 3 * len ws → ws = (λ _, 3) <$> ws).
    { clear -Hall. unfold len. induction Hall as [|w ws Hw Hall IH]; [done|].
      rewrite sum_cons, fmap_cons. simpl length. intros Hsum.
      assert (3 * Z.of_nat (length ws) ≤ sumOf ws).
      { clear -Hall. induction Hall as [|w' ws' ? ? IH'];
          [rewrite sum_nil; simpl; lia|].
        rewrite sum_cons. simpl length. lia. }
      f_equal; [lia|]. apply IH. lia. }
    apply Hex. unfold len in *. rewrite Hl in *.
    assert (3 * Z.of_nat (length widths) ≤ sumOf ws); [|lia].
    rewrite <- Hl. clear -Hall.
    induction Hall as [|w' ws' ? ? IH']; [rewrite sum_nil; simpl; lia|].
    rewrite sum_cons. simpl length. lia. }
  unfold sizeColumns. destruct Hsizing as [-> | ->].
  - destruct (0 <? sumOf widths - 3 * len widths) eqn:Ho.
    + apply Z.ltb_lt in Ho. rewrite Hshrink by done. simpl.
      by rewrite andb_false_r.
    + apply Z.ltb_ge in Ho.
      assert (Hall3 : Forall (λ w, 3 ≤ w) widths)
        by (eapply Forall_impl; [done|]; by intros ? [? _]).
      pose proof (Hthree widths eq_refl Hall3 Ho) as Heq.
      assert (sumOf widths = 3 * len widths) as Hsum
        by (rewrite Heq at 1; by rewrite sum_const).
      simpl. replace (sumOf widths - 3 * len widths <? 0) with false
        by (symmetry; apply Z.ltb_ge; lia).
      by rewrite andb_false_r, <- Heq.
  - destruct (Math_max widths) as [m|] eqn:Hm; [|by destruct widths].
    apply Math_max_bound in Hm as [Hle Hin].
    eapply Forall_forall in Hws as Hm3; [|exact Hin]. simpl in Hm3.
    pose proof (sum_const widths m) as Hsum.
    assert (Hconst : Forall (λ w, 3 ≤ w ∧ w * len widths < 2 ^ 53)
                       ((λ _, m) <$> widths)).
    { apply Forall_fmap, Forall_forall. by intros. }
    destruct (0 <? m * len widths - 3 * len widths) eqn:Ho.
    + apply Z.ltb_lt in Ho. rewrite <- Hsum in Ho |- *.
      rewrite Hshrink; [|by rewrite length_fmap|done|done]. simpl.
      rewrite andb_false_r. f_equal. by rewrite <- list_fmap_compose.
    + apply Z.ltb_ge in Ho. assert (m = 3) as -> by nia. simpl.
      replace (3 * len widths - 3 * len widths <? 0) with false
        by (symmetry; apply Z.ltb_ge; lia).
      by rewrite andb_false_r.
Qed.

Section Minimum.

Context {Key Value : Type}.
Variable toString : Key → str.
Variable inspect : Value → str.

(** With [maxWidth] exactly [4 * columnCount + 1] and no column narrower than
    three before the sizing, the call returns a table and every final width
    is three.  (The widths are taken in the range of the integers that a
    double holds exactly.) *)
Lemma createTable_at_minimum items keys options :
  let columnCount := columnCountOf keys options in
  let natural := naturalWidths (columnNamesOf toString inspect items keys options)
                   (tableContentOf toString inspect items keys options) in
  maxWidth options = 4 * columnCount + 1 →
  columnSizing options = stretch ∨ columnSizing options = even →
  Forall (λ w, 3 ≤ w ∧ w * columnCount < 2 ^ 53) natural →
  finalWidths toString inspect items keys options = Normal ((λ _, 3) <$> natural)
  ∧ ∃ out, createTable toString inspect items keys options = Normal out.
Proof.
  intros columnCount natural Hmax Hsizing Hnatural.
  assert (Hfinal : finalWidths toString inspect items keys options
                   = Normal ((λ _, 3) <$> natural)).
  { pose proof (tableCells_columnCount toString inspect items keys options) as Hc.
    unfold finalWidths. subst natural. unfold columnNamesOf, tableContentOf in *.
    destruct (tableCells _ _ _ _ _) as [[names content] c] eqn:Hcells.
    simpl in Hc, Hnatural |- *. subst c. fold columnCount.
    apply tableCells_shape in Hcells as (Hcount & _ & _). fold columnCount in Hcount.
    set (natural := naturalWidths names content) in *.
    assert (Hlen : len natural = columnCount).
    { unfold len, natural. rewrite naturalWidths_length. by rewrite Hcount. }
    destruct (decide (natural = [])) as [Hnil|Hne].
    - rewrite Hnil in *. unfold sizeColumns.
      assert (columnCount = 0) as -> by (by rewrite <- Hlen).
      rewrite Hmax. by destruct Hsizing as [-> | ->], (fullWidth options).
    - assert (1 ≤ columnCount).
      { rewrite <- Hlen. unfold len. destruct natural; [done|simpl; lia]. }
      replace (maxWidth options - columnCount - 1) with (3 * columnCount) by lia.
      rewrite (Z.div_mul 3 columnCount) by lia. rewrite <- Hlen.
      apply sizeColumns_at_minimum; [done|done|]. by rewrite Hlen. }
  split; [done|].
  destruct (createTable_outcomes toString inspect items keys options)
    as [?|[[message Hthrow]|Hnf]]; [done|exfalso..].
  - rewrite createTable_feasible in Hthrow by lia. rewrite Hfinal in Hthrow.
    simpl in Hthrow. unfold checkWidths in Hthrow.
    rewrite decide_False in Hthrow.
    + simpl in Hthrow. by apply throwsOnly_renderTable in Hthrow.
    + intros (w & Hin & Hlt)%Exists_exists.
      apply list_elem_of_fmap in Hin as (? & -> & _). lia.
  - rewrite createTable_feasible in Hnf by lia. rewrite Hfinal in Hnf.
    simpl in Hnf. unfold checkWidths in Hnf. rewrite decide_False in Hnf.
    + simpl in Hnf.
      destruct (renderTable_total
                  (columnNamesOf toString inspect items keys options)
                  (tableContentOf toString inspect items keys options)
                  ((λ _, 3) <$> natural) (horizontalAlignment options)
                  (verticalAlignment options)) as [out Hout]; [| |congruence].
      * apply Forall_fmap, Forall_forall. by intros.
      * pose proof (tableCells_shape toString inspect items keys
                      (indexColumn options)) as Hshape.
        unfold natural, columnNamesOf, tableContentOf.
        destruct (tableCells _ _ _ _ _) as [[names content] c]. simpl.
        destruct (Hshape names content c eq_refl) as (_ & Hrows & _).
        rewrite length_fmap, naturalWidths_length.
        by constructor.
    + intros (w & Hin & Hlt)%Exists_exists.
      apply list_elem_of_fmap in Hin as (? & -> & _). lia.
Qed.

End Minimum.

(** ** The range of the doubles that the sizing computes *)

Lemma Zdigits2_nonneg m : 0 ≤ Zdigits2 m.
Proof. destruct m; simpl; lia. Qed.

Lemma digits2_pos_upper p : Z.pos p < 2 ^ Z.pos (digits2_pos p).
Proof.
  induction p as [p IH|p IH|]; simpl; [| |done];
    rewrite Pos2Z.inj_succ, Z.pow_succ_r by lia; lia.
Qed.

Lemma Zdigits2_upper m : 0 ≤ m → m < 2 ^ Zdigits2 m.
Proof.
  destruct m as [|p|p]; [done| |lia]. intros _. apply digits2_pos_upper.
Qed.

Lemma Zdigits2_bound m k : 0 ≤ m → 0 ≤ k → m < 2 ^ k → Zdigits2 m ≤ k.
Proof.
  destruct m as [|p|p]; [simpl; lia| |lia]. intros _. apply digits2_pos_bound.
Qed.

Lemma Zdigits2_mono m n : 0 ≤ m ≤ n → Zdigits2 m ≤ Zdigits2 n.
Proof.
  intros [Hm Hn]. apply Zdigits2_bound; [done|apply Zdigits2_nonneg|].
  pose proof (Zdigits2_upper n). lia.
Qed.

Lemma Zdigits2_succ m : 0 ≤ m → Zdigits2 (m + 1) ≤ Zdigits2 m + 1.
Proof.
  intros Hm. pose proof (Zdigits2_nonneg m).
  apply Zdigits2_bound; [lia..|].
  pose proof (Zdigits2_upper m Hm). rewrite Z.pow_add_r by lia.
  change (2 ^ 1) with 2. lia.
Qed.

Lemma Zdigits2_mul_pow2 m k :
  0 ≤ m → 0 ≤ k → Zdigits2 (m * 2 ^ k) ≤ Zdigits2 m + k.
Proof.
  intros Hm Hk. pose proof (Zdigits2_nonneg m).
  apply Zdigits2_bound; [nia|lia|].
  pose proof (Zdigits2_upper m Hm). rewrite Z.pow_add_r by lia.
  assert (0 < 2 ^ k) by (apply Z.pow_pos_nonneg; lia). nia.
Qed.

Lemma Zdigits2_mul m n :
  0 ≤ m → 0 ≤ n → Zdigits2 (m * n) ≤ Zdigits2 m + Zdigits2 n.
Proof.
  intros Hm Hn. pose proof (Zdigits2_nonneg m). pose proof (Zdigits2_nonneg n).
  apply Zdigits2_bound; [nia|lia|].
  pose proof (Zdigits2_upper m Hm). pose proof (Zdigits2_upper n Hn).
  rewrite Z.pow_add_r by lia. nia.
Qed.

Lemma iter_pos_nat {A} (f : A → A) p x :
  SpecFloat.iter_pos f p x = Nat.iter (Pos.to_nat p) f x.
Proof.
  revert x. induction p as [p IH|p IH|]; intros x; [| |done].
  - change (SpecFloat.iter_pos f p~1 x)
      with (SpecFloat.iter_pos f p (SpecFloat.iter_pos f p (f x))).
    rewrite !IH, Pos2Nat.inj_xI, <- Nat.iter_add, <- Nat.iter_succ_r.
    f_equal. lia.
  - change (SpecFloat.iter_pos f p~0 x)
      with (SpecFloat.iter_pos f p (SpecFloat.iter_pos f p x)).
    rewrite !IH, Pos2Nat.inj_xO, <- Nat.iter_add. f_equal. lia.
Qed.

Lemma shr_1_digits mrs :
  0 ≤ shr_m mrs →
  0 ≤ shr_m (shr_1 mrs)
  ∧ Zdigits2 (shr_m (shr_1 mrs)) = Z.max 0 (Zdigits2 (shr_m mrs) - 1).
Proof.
  destruct mrs as [m r s]. destruct m as [|[p|p|]|p]; simpl; lia.
Qed.

Lemma shr_iter_digits n mrs :
  0 ≤ shr_m mrs →
  0 ≤ shr_m (Nat.iter n shr_1 mrs)
  ∧ Zdigits2 (shr_m (Nat.iter n shr_1 mrs))
    = Z.max 0 (Zdigits2 (shr_m mrs) - Z.of_nat n).
Proof.
  intros Hm. induction n as [|n [IH1 IH2]].
  - simpl. pose proof (Zdigits2_nonneg (shr_m mrs)). lia.
  - rewrite Nat.iter_succ. destruct (shr_1_digits _ IH1) as [H1 H2].
    split; [done|]. rewrite H2, IH2. lia.
Qed.

Lemma shr_fexp_digits m e l :
  0 ≤ m →
  0 ≤ shr_m (shr_fexp 53 1024 m e l).1
  ∧ (shr_fexp 53 1024 m e l).2 = Z.max e (fexp 53 1024 (Zdigits2 m + e))
  ∧ Zdigits2 (shr_m (shr_fexp 53 1024 m e l).1)
    = Z.max 0 (Zdigits2 m - ((shr_fexp 53 1024 m e l).2 - e)).
Proof.
  intros Hm. unfold shr_fexp, shr.
  assert (Hloc : shr_m (shr_record_of_loc m l) = m) by (by destruct l as [|[]]).
  pose proof (Zdigits2_nonneg m).
  destruct (fexp 53 1024 (Zdigits2 m + e) - e) as [|p|p] eqn:Hshift; simpl.
  - rewrite Hloc. lia.
  - rewrite iter_pos_nat.
    destruct (shr_iter_digits (Pos.to_nat p) (shr_record_of_loc m l)) as [H1 H2];
      [by rewrite Hloc|].
    rewrite H2, Hloc, positive_nat_Z. lia.
  - rewrite Hloc. lia.
Qed.

Lemma round_nearest_even_bounds m l : m ≤ round_nearest_even m l ≤ m + 1.
Proof. destruct l as [|[]]; simpl; try lia. destruct (Z.even m); lia. Qed.

(** Rounding keeps a mantissa that is not negative within its range: the
    exponent does not fall, and the magnitude rises by one binary place at
    most. *)
Lemma binary_round_aux_within s m e l lo hi :
  0 ≤ m → lo ≤ e → e + Zdigits2 m ≤ hi → -1074 ≤ hi ≤ 971 →
  within lo (hi + 1) (binary_round_aux 53 1024 s m e l).
Proof.
  intros Hm Hlo Hhi Hrange. unfold binary_round_aux.
  destruct (shr_fexp_digits m e l Hm) as (Hm1 & He1 & Hd1).
  destruct (shr_fexp 53 1024 m e l) as [mrs1 e1]. simpl in Hm1, He1, Hd1.
  set (mr := round_nearest_even (shr_m mrs1) (loc_of_shr_record mrs1)).
  pose proof (round_nearest_even_bounds (shr_m mrs1) (loc_of_shr_record mrs1)) as Hr.
  fold mr in Hr.
  assert (Hdr : Zdigits2 mr ≤ Zdigits2 (shr_m mrs1) + 1).
  { etrans; [apply (Zdigits2_mono mr (shr_m mrs1 + 1)); lia|].
    by apply Zdigits2_succ. }
  destruct (shr_fexp_digits mr e1 loc_Exact ltac:(lia)) as (Hm2 & He2 & Hd2).
  destruct (shr_fexp 53 1024 mr e1 loc_Exact) as [mrs2 e2]. simpl in Hm2, He2, Hd2.
  pose proof (Zdigits2_nonneg m). pose proof (Zdigits2_nonneg mr).
  unfold fexp, emin in *.
  destruct (shr_m mrs2) as [|p|p] eqn:Hp; [done| |lia].
  simpl in Hd2.
  replace (e2 <=? 1024 - 53) with true by (symmetry; apply Z.leb_le; lia).
  simpl. lia.
Qed.

Lemma within_weaken lo hi lo' hi' x :
  lo' ≤ lo → hi ≤ hi' → within lo hi x → within lo' hi' x.
Proof. destruct x; simpl; try done. lia. Qed.

Lemma Math_floor_within lo hi x : within lo hi x → ∃ n, Math_floor x = Normal n.
Proof. destruct x; simpl; try done; by eexists. Qed.

Lemma of_int_positive z :
  0 < z < 2 ^ 53 →
  ∃ m e, of_int z = S754_finite false m e ∧ within (-52) 53 (of_int z).
Proof.
  intros [Hpos Hlt]. destruct z as [|p|p]; [lia| |lia].
  unfold of_int, binary_normalize, binary_round.
  pose proof (digits2_pos_bound p 53 ltac:(lia) Hlt) as Hd.
  assert (Hfexp : fexp 53 1024 (Z.pos (digits2_pos p) + 0)
                  = Z.pos (digits2_pos p) - 53).
  { unfold fexp, emin. lia. }
  rewrite Hfexp. unfold shl_align.
  destruct (Z.pos (digits2_pos p) - 53 - 0) as [|k|k] eqn:Hk; [|lia|].
  - rewrite binary_round_aux_canonical by lia. do 2 eexists. split; [done|].
    simpl. lia.
  - rewrite binary_round_aux_canonical; [| |lia].
    + do 2 eexists. split; [done|]. simpl. rewrite digits2_pos_iter. lia.
    + rewrite digits2_pos_iter. lia.
Qed.

Lemma fmul_within lo1 hi1 lo2 hi2 x y :
  within lo1 hi1 x → within lo2 hi2 y → -1074 ≤ hi1 + hi2 ≤ 971 →
  within (lo1 + lo2) (hi1 + hi2 + 1) (fmul x y).
Proof.
  destruct x as [| | |sx mx ex], y as [| | |sy my ey]; simpl; try done.
  intros [Hl1 Hh1] [Hl2 Hh2] Hrange.
  apply binary_round_aux_within; [lia|lia| |done].
  pose proof (Zdigits2_mul (Z.pos mx) (Z.pos my) ltac:(lia) ltac:(lia)) as Hd.
  simpl in Hd |- *. lia.
Qed.

Lemma fdiv_within lo1 hi1 lo2 hi2 x sy my ey :
  within lo1 hi1 x → within lo2 hi2 (S754_finite sy my ey) →
  -1074 ≤ hi1 - lo2 ≤ 971 →
  within (lo1 - hi2 - 52) (hi1 - lo2 + 1) (fdiv x (S754_finite sy my ey)).
Proof.
  destruct x as [| | |sx mx ex]; simpl; try done.
  intros [Hl1 Hh1] [Hl2 Hh2] Hrange. unfold SFdiv_core_binary.
  set (d1 := Zdigits2 (Z.pos mx)). set (d2 := Zdigits2 (Z.pos my)).
  assert (d1 = Z.pos (digits2_pos mx)) as Hd1 by done.
  assert (d2 = Z.pos (digits2_pos my)) as Hd2 by done.
  set (e' := Z.min (fexp 53 1024 (d1 + ex - (d2 + ey))) (ex - ey)).
  set (s := ex - ey - e').
  assert (0 ≤ s) as Hs by (unfold s, e'; lia).
  set (m' := match s with Z.pos _ => Z.shiftl (Z.pos mx) s | 0 => Z.pos mx
             | Z.neg _ => 0 end).
  assert (m' = Z.pos mx * 2 ^ s) as Hm'.
  { unfold m'. destruct s as [|p|p] eqn:Hsp; [lia| |lia].
    by rewrite Z.shiftl_mul_pow2. }
  assert (0 < 2 ^ s) by (apply Z.pow_pos_nonneg; lia).
  pose proof (Z.div_pos m' (Z.pos my) ltac:(nia) ltac:(lia)) as Hq0.
  pose proof (Z.div_le_upper_bound m' (Z.pos my) m' ltac:(lia) ltac:(nia)) as Hq1.
  unfold Z.div in Hq0, Hq1. destruct (Z.div_eucl m' (Z.pos my)) as [q r].
  simpl in Hq0, Hq1.
  apply binary_round_aux_within; [done| | |done].
  - unfold e', fexp, emin. lia.
  - pose proof (Zdigits2_mono q m' ltac:(lia)) as Hdq.
    pose proof (Zdigits2_mul_pow2 (Z.pos mx) s ltac:(lia) Hs) as Hdm.
    rewrite <- Hm' in Hdm. fold d1 in Hdm. unfold s in *. lia.
Qed.

Lemma binary_round_within s m e lo hi :
  lo ≤ e → e + Z.pos (digits2_pos m) ≤ hi → -1074 ≤ hi ≤ 971 →
  within (lo - 52) (hi + 1) (binary_round 53 1024 s m e).
Proof.
  intros Hlo Hhi Hrange. unfold binary_round, shl_align.
  destruct (fexp 53 1024 (Z.pos (digits2_pos m) + e) - e) as [|k|k] eqn:Hk.
  - apply binary_round_aux_within; simpl; lia.
  - apply binary_round_aux_within; simpl; lia.
  - apply binary_round_aux_within; [lia| | |done].
    + unfold fexp, emin in *. lia.
    + simpl. rewrite digits2_pos_iter. unfold fexp, emin in *. lia.
Qed.

Lemma shl_align_digits m e ez :
  ez ≤ e →
  Z.pos (digits2_pos (shl_align m e ez).1) + ez = Z.pos (digits2_pos m) + e.
Proof.
  intros He. unfold shl_align.
  destruct (ez - e) as [|k|k] eqn:Hk; simpl; [lia|lia|].
  rewrite digits2_pos_iter. lia.
Qed.

Lemma binary_normalize_within z e lo hi :
  lo ≤ e → e + Zdigits2 (Z.abs z) ≤ hi → -1074 ≤ hi ≤ 971 →
  within (lo - 52) (hi + 1) (binary_normalize 53 1024 z e false).
Proof.
  intros Hlo Hhi Hrange. destruct z as [|p|p]; simpl; [done|..];
    by apply binary_round_within.
Qed.

Lemma aligned_sum_within (sx sy : bool) mx ex my ey lo1 hi1 lo2 hi2 z :
  lo1 ≤ ex → ex + Z.pos (digits2_pos mx) ≤ hi1 →
  lo2 ≤ ey → ey + Z.pos (digits2_pos my) ≤ hi2 →
  Z.abs z ≤ Z.pos (shl_align mx ex (Z.min ex ey)).1
            + Z.pos (shl_align my ey (Z.min ex ey)).1 →
  -1074 ≤ Z.max hi1 hi2 + 1 ≤ 971 →
  within (Z.min lo1 lo2 - 52) (Z.max hi1 hi2 + 2)
         (binary_normalize 53 1024 z (Z.min ex ey) false).
Proof.
  intros Hl1 Hh1 Hl2 Hh2 Hz Hrange.
  pose proof (shl_align_digits mx ex (Z.min ex ey) ltac:(lia)) as H1.
  pose proof (shl_align_digits my ey (Z.min ex ey) ltac:(lia)) as H2.
  set (M1 := (shl_align mx ex (Z.min ex ey)).1) in *.
  set (M2 := (shl_align my ey (Z.min ex ey)).1) in *.
  replace (Z.max hi1 hi2 + 2) with (Z.max hi1 hi2 + 1 + 1) by lia.
  apply binary_normalize_within; [lia| |done].
  pose proof (digits2_pos_upper M1) as HM1. pose proof (digits2_pos_upper M2) as HM2.
  set (d := Z.max (Z.pos (digits2_pos M1)) (Z.pos (digits2_pos M2))).
  assert (Zdigits2 (Z.abs z) ≤ d + 1); [|lia].
  apply Zdigits2_bound; [lia|lia|].
  rewrite Z.pow_add_r by lia. change (2 ^ 1) with 2.
  assert (2 ^ Z.pos (digits2_pos M1) ≤ 2 ^ d) by (apply Z.pow_le_mono_r; lia).
  assert (2 ^ Z.pos (digits2_pos M2) ≤ 2 ^ d) by (apply Z.pow_le_mono_r; lia).
  lia.
Qed.

Lemma fadd_within lo1 hi1 lo2 hi2 x y :
  within lo1 hi1 x → within lo2 hi2 y → -1074 ≤ Z.max hi1 hi2 + 1 ≤ 971 →
  within (Z.min lo1 lo2 - 52) (Z.max hi1 hi2 + 2) (fadd x y).
Proof.
  destruct x as [[]| | |sx mx ex], y as [[]| | |sy my ey]; simpl; try done;
    try lia.
  intros [Hl1 Hh1] [Hl2 Hh2] Hrange.
  eapply aligned_sum_within; try done.
  generalize (shl_align mx ex (Z.min ex ey)).1 (shl_align my ey (Z.min ex ey)).1.
  intros M1 M2. destruct sx, sy; cbv [cond_Zopp]; lia.
Qed.

Lemma fsub_within lo1 hi1 lo2 hi2 x y :
  within lo1 hi1 x → within lo2 hi2 y → -1074 ≤ Z.max hi1 hi2 + 1 ≤ 971 →
  within (Z.min lo1 lo2 - 52) (Z.max hi1 hi2 + 2) (fsub x y).
Proof.
  destruct x as [[]| | |sx mx ex], y as [[]| | |sy my ey]; simpl; try done;
    try lia.
  intros [Hl1 Hh1] [Hl2 Hh2] Hrange.
  eapply aligned_sum_within; try done.
  generalize (shl_align mx ex (Z.min ex ey)).1 (shl_align my ey (Z.min ex ey)).1.
  intros M1 M2. destruct sx, sy; cbv [cond_Zopp]; lia.
Qed.

Lemma shrinkFactorOf_within overflow excess :
  0 < overflow < 2 ^ 53 → 0 < excess < 2 ^ 53 →
  within (-209) 108 (shrinkFactorOf overflow excess).
Proof.
  intros Ho He. unfold shrinkFactorOf.
  destruct (of_int_positive overflow Ho) as (mo & eo & _ & Hwo).
  destruct (of_int_positive excess He) as (me & ee & Hee & Hwe).
  destruct (of_int_positive 1 ltac:(lia)) as (m1 & e1 & _ & Hw1).
  rewrite Hee in Hwe |- *.
  apply (fsub_within (-52) 53 (-157) 106); [done| |lia].
  by apply (fdiv_within (-52) 53 (-52) 53).
Qed.

Lemma growFactorOf_within growth smallColumnsWidth :
  0 < growth < 2 ^ 53 → 0 < smallColumnsWidth < 2 ^ 53 →
  within (-209) 108 (growFactorOf growth smallColumnsWidth).
Proof.
  intros Hg Hs. unfold growFactorOf.
  destruct (of_int_positive growth Hg) as (mg & eg & _ & Hwg).
  destruct (of_int_positive smallColumnsWidth Hs) as (ms & es & Hes & Hws).
  destruct (of_int_positive 1 ltac:(lia)) as (m1 & e1 & _ & Hw1).
  rewrite Hes in Hws |- *.
  apply (fadd_within (-52) 53 (-157) 106); [done| |lia].
  by apply (fdiv_within (-52) 53 (-52) 53).
Qed.

Lemma floor_of_product factor w :
  within (-209) 108 factor → 0 < w < 2 ^ 53 →
  ∃ n, Math_floor (fmul factor (of_int w)) = Normal n.
Proof.
  intros Hf Hw. destruct (of_int_positive w Hw) as (m & e & _ & Hww).
  apply (Math_floor_within (-209 + -52) (108 + 53 + 1)).
  by apply fmul_within.
Qed.

Lemma shrinkWalk_finite shrinkFactor averageWidth widths :
  (Exists (λ w, averageWidth < w) widths → within (-209) 108 shrinkFactor) →
  Forall (λ w, averageWidth < w → 0 < w < 2 ^ 53) widths →
  ∀ overflow, ∃ widths',
    shrinkWalk shrinkFactor averageWidth overflow widths = Normal widths'.
Proof.
  intros Hf Hws. induction Hws as [|w widths Hw Hws IH]; intros o;
    [by eexists|].
  cbn [shrinkWalk]. destruct (decide (averageWidth < w)) as [Hbig|Hsmall].
  - destruct (decide (Exists _ widths)) as [Hmore|Hlast]; [|by eexists].
    destruct (floor_of_product shrinkFactor w) as [n ->];
      [apply Hf; by left|by apply Hw|].
    cbn [mbind completion_bind].
    destruct (IH ltac:(intros; apply Hf; by right)
                 (o - (w - Z.max averageWidth n))) as [ws' ->].
    by eexists.
  - destruct (IH ltac:(intros; apply Hf; by right) o) as [ws' ->]. by eexists.
Qed.

Lemma growWalk_finite growFactor averageWidth widths :
  (Exists (λ w, w < averageWidth) widths → within (-209) 108 growFactor) →
  Forall (λ w, w < averageWidth → 0 < w < 2 ^ 53) widths →
  ∀ growth, ∃ widths',
    growWalk growFactor averageWidth growth widths = Normal widths'.
Proof.
  intros Hf Hws. induction Hws as [|w widths Hw Hws IH]; intros g;
    [by eexists|].
  cbn [growWalk]. destruct (decide (w < averageWidth)) as [Hsmall|Hwide].
  - destruct (decide (Exists _ widths)) as [Hmore|Hlast]; [|by eexists].
    destruct (floor_of_product growFactor w) as [n ->];
      [apply Hf; by left|by apply Hw|].
    cbn [mbind completion_bind].
    destruct (IH ltac:(intros; apply Hf; by right) (g - (n - w))) as [ws' ->].
    by eexists.
  - destruct (IH ltac:(intros; apply Hf; by right) g) as [ws' ->]. by eexists.
Qed.

Lemma sum_filter_bounds (P : Z → Prop) `{!∀ w, Decision (P w)} widths :
  Forall (λ w, 0 < w) widths →
  foldr Z.add 0 (filter P widths) ≤ sumOf widths
  ∧ (Exists P widths → 0 < foldr Z.add 0 (filter P widths))
  ∧ Forall (λ w, w ≤ sumOf widths) widths.
Proof.
  induction 1 as [|w widths Hw Hws (IH1 & IH2 & IH3)].
  - rewrite sum_nil. split; [done|]. split; [by inversion 1|done].
  - rewrite sum_cons, filter_cons. split; [|split].
    + case_decide; simpl; lia.
    + intros Hex. case_decide as HP; simpl.
      * assert (0 ≤ foldr Z.add 0 (filter P widths)); [|lia].
        clear -Hws. induction Hws; simpl; [done|].
        rewrite filter_cons. case_decide; simpl; lia.
      * apply Exists_cons in Hex as [?|?]; [done|by apply IH2].
    + constructor; [|eapply Forall_impl; [done|]; simpl; lia].
      assert (0 ≤ sumOf widths); [|lia].
      clear -Hws. induction Hws; [by rewrite sum_nil|]. rewrite sum_cons. lia.
Qed.

(** With widths that are positive and a total in the range of the integers
    that a double holds exactly, the two steps complete. *)
Lemma shrinkColumns_finite widths averageWidth overflow :
  0 ≤ averageWidth → 0 < overflow < 2 ^ 53 →
  Forall (λ w, 0 < w) widths → sumOf widths < 2 ^ 53 →
  ∃ widths', shrinkColumns widths averageWidth overflow = Normal widths'.
Proof.
  intros Havg Ho Hws Hsum. rewrite shrinkColumns_walk. unfold shrinkSpec.
    change (fsub (of_int 1) (fdiv (of_int ?o) (of_int ?e))) with (shrinkFactorOf o e).
  destruct (sum_filter_bounds (λ w, averageWidth < w) widths Hws)
    as (Hle & Hpos & Hall).
  apply shrinkWalk_finite.
  - intros Hex. apply shrinkFactorOf_within; [done|].
    set (big := filter (λ w, averageWidth < w) widths) in *.
    assert (0 < foldr Z.add 0 big - len big * averageWidth
            ∧ 0 ≤ len big * averageWidth) as [? ?]; [|lia].
    assert (Hbig : Forall (λ w, averageWidth < w) big).
    { apply Forall_forall. by intros w [? _]%list_elem_of_filter. }
    assert (big ≠ []) as Hne.
    { unfold big. apply Exists_exists in Hex as (w & Hin & Hw).
      intros Hnil. assert (w ∈ filter (λ w, averageWidth < w) widths) as Hf
        by (by apply list_elem_of_filter).
      rewrite Hnil in Hf. by apply elem_of_nil in Hf. }
    unfold len. clear -Hbig Hne Havg.
    induction Hbig as [|w big Hw Hbig IH]; [done|]. simpl.
    destruct big as [|w' big]; [simpl; lia|].
    destruct IH as [? ?]; [done|]. simpl length in *. lia.
  - eapply Forall_impl; [exact Hall|]. intros w Hw Hbig. simpl in *. lia.
Qed.

Lemma growColumns_finite widths averageWidth growth :
  0 < growth < 2 ^ 53 →
  Forall (λ w, 0 < w) widths → sumOf widths < 2 ^ 53 →
  ∃ widths', growColumns widths averageWidth growth = Normal widths'.
Proof.
  intros Hg Hws Hsum. rewrite growColumns_walk. unfold growSpec.
  destruct (sum_filter_bounds (λ w, w < averageWidth) widths Hws)
    as (Hle & Hpos & Hall).
  apply growWalk_finite.
  - intros Hex. apply growFactorOf_within; [done|].
    specialize (Hpos Hex). lia.
  - apply Forall_forall. intros w Hin _.
    eapply Forall_forall in Hall; [|done]. eapply Forall_forall in Hws; [|done].
    simpl in *. lia.
Qed.

Lemma sizeColumns_finite sizing fullWidth columnCount budget averageWidth widths :
  sizing = stretch ∨ sizing = even →
  0 ≤ averageWidth → 0 ≤ budget < 2 ^ 52 →
  Forall (λ w, 0 < w ∧ w * columnCount < 2 ^ 52) widths →
  columnCount = len widths →
  ∃ widths',
    sizeColumns sizing fullWidth columnCount budget averageWidth widths
    = Normal widths'.
Proof.
  intros Hsizing Havg Hbudget Hws ->.
  assert (Hbody : ∀ ws : list Z,
    Forall (λ w, 0 < w) ws → sumOf ws < 2 ^ 52 →
    ∃ ws',
      (if 0 <? sumOf ws - budget
       then shrinkColumns ws averageWidth (sumOf ws - budget)
            ≫= λ columnWidths, mret (columnWidths, Some 0)
       else mret (ws, Some (sumOf ws - budget)))
      ≫= (λ '(columnWidths, overflow),
            match overflow with
            | Some overflow =>
                if fullWidth && (overflow <? 0)
                then growColumns columnWidths averageWidth (- overflow)
                else mret columnWidths
            | None => mret columnWidths
            end) = Normal ws').
  { intros ws Hpos Hsum.
    assert (0 ≤ sumOf ws).
    { clear -Hpos. induction Hpos; [by rewrite sum_nil|]. rewrite sum_cons. lia. }
    destruct (0 <? sumOf ws - budget) eqn:Ho.
    - apply Z.ltb_lt in Ho.
      destruct (shrinkColumns_finite ws averageWidth (sumOf ws - budget))
        as [ws' ->]; [done|lia|done|lia|].
      simpl. rewrite andb_false_r. by eexists.
    - apply Z.ltb_ge in Ho. simpl.
      destruct (fullWidth && (sumOf ws - budget <? 0)) eqn:Hg; [|by eexists].
      apply andb_true_iff in Hg as [_ Hneg%Z.ltb_lt].
      apply growColumns_finite; [lia|done|lia]. }
  assert (Hpos : Forall (λ w, 0 < w) widths)
    by (eapply Forall_impl; [done|]; by intros ? [? _]).
  unfold sizeColumns. destruct Hsizing as [-> | ->].
  - apply Hbody; [done|].
    destruct (Math_max widths) as [widest|] eqn:Hmax.
    + destruct (Math_max_bound _ _ Hmax) as [Hle Hin].
      pose proof (sum_le_max widths widest Hle).
      eapply Forall_forall in Hws; [|exact Hin]. simpl in Hws. lia.
    + destruct widths; [by rewrite sum_nil|done].
  - destruct (Math_max widths) as [widest|] eqn:Hmax; [|by eexists].
    destruct (Math_max_bound _ _ Hmax) as [Hle Hin].
    eapply Forall_forall in Hws; [|exact Hin]. simpl in Hws.
    pose proof (sum_const widths widest) as Hsum. rewrite <- Hsum.
    apply Hbody; [|lia].
    apply Forall_fmap, Forall_forall. intros w _. simpl. lia.
Qed.

(** ** The arguments are not written to *)

Section Frame.

Context {Key Value : Type}.
Variable toString : Key → str.
Variable inspect : Value → str.

Local Abbreviation obj := (@object Key Value).
Local Abbreviation store := (gmap positive obj).

Lemma allocate_fresh (o : obj) (σ : store) :
  ∃ l, allocate o σ = Some (l, <[l := o]> σ) ∧ σ !! l = None.
Proof.
  exists (fresh (dom σ)). split; [done|].
  apply not_elem_of_dom, is_fresh.
Qed.

(** The rows of [items.map]: new objects, one for every item, different
    from each other, holding the texts of the item. *)
Lemma stepMap_rows keys ks refs : ∀ records (σ : store),
  σ !! keys = Some (KeyArray ks) →
  Forall2 (λ ref fields, σ !! ref = Some (ItemRecord fields)) refs records →
  ∃ rows σ',
    stepMap (rowOfItem inspect keys) refs σ = Some (rows, σ')
    ∧ σ ⊆ σ'
    ∧ Forall (λ row, σ !! row = None) rows
    ∧ NoDup rows
    ∧ Forall2 (λ row (fields : Key → Value),
                 σ' !! row = Some (StringArray ((λ key, inspect (fields key)) <$> ks)))
              rows records.
Proof.
  induction refs as [|ref refs IH]; intros records σ Hkeys Hrefs.
  - apply Forall2_nil_inv_l in Hrefs as ->. exists [], σ.
    repeat split; [done|constructor|constructor|constructor].
  - apply Forall2_cons_inv_l in Hrefs as (fields & records' & Href & Hrefs & ->).
    simpl. unfold stepBind at 1. unfold rowOfItem at 1.
    unfold stepBind at 1. unfold readRecord. rewrite Href.
    unfold stepBind at 1. unfold readKeys. rewrite Hkeys.
    destruct (allocate_fresh
                (StringArray ((λ key, inspect (fields key)) <$> ks)) σ)
      as (row & -> & Hrow).
    set (σ1 := <[row := _]> σ).
    assert (Hsub : σ ⊆ σ1) by (by apply insert_subseteq).
    destruct (IH records' σ1) as (rows & σ' & Hmap & Hsub' & Hfresh & Hnodup & Hrows).
    { exact (lookup_weaken _ _ _ _ Hkeys Hsub). }
    { eapply Forall2_impl; [done|]. intros r f Hr.
      exact (lookup_weaken _ _ _ _ Hr Hsub). }
    unfold stepBind. rewrite Hmap. exists (row :: rows), σ'.
    split; [done|]. split; [by etrans|]. split; [|split].
    + constructor; [done|]. eapply Forall_impl; [done|]. intros r Hr. simpl in Hr.
      destruct (σ !! r) eqn:Hσ; [|done].
      eapply lookup_weaken in Hσ; [|done]. congruence.
    + constructor; [|done]. intros Hin.
      eapply Forall_forall in Hfresh; [|done]. unfold σ1 in Hfresh.
      by rewrite lookup_insert_eq in Hfresh.
    + constructor; [|done]. eapply lookup_weaken; [|done].
      unfold σ1. by rewrite lookup_insert_eq.
Qed.

(** The loop of [tableContent.forEach]: every row gets its index in front,
    and nothing but the rows is written. *)
Lemma forEach_rows tableContent rows (base : list (list str)) :
  NoDup rows → tableContent ∉ rows → length base = length rows →
  ∀ m k (σ : store),
    (k + m = length rows)%nat →
    σ !! tableContent = Some (RefArray rows) →
    (∀ i row texts, rows !! i = Some row → base !! i = Some texts →
       σ !! row = Some (StringArray
                         (if decide (i < k)%nat
                          then Number_toString (Z.of_nat i) :: texts else texts))) →
    ∃ σ',
      forEachIndex (prependIndex tableContent) (seq k m) σ = Some ((), σ')
      ∧ σ' !! tableContent = Some (RefArray rows)
      ∧ (∀ i row texts, rows !! i = Some row → base !! i = Some texts →
           σ' !! row = Some (StringArray (Number_toString (Z.of_nat i) :: texts)))
      ∧ ∀ l, l ∉ rows → σ' !! l = σ !! l.
Proof.
  intros Hnodup Hnotin Hlen. induction m as [|m IH]; intros k σ Hk Htc Hrows.
  - exists σ. split; [done|]. split; [done|]. split; [|done].
    intros i row texts Hi Hb. specialize (Hrows i row texts Hi Hb).
    apply lookup_lt_Some in Hi. by rewrite decide_True in Hrows by lia.
  - destruct (lookup_lt_is_Some_2 rows k) as [row Hrow]; [lia|].
    destruct (lookup_lt_is_Some_2 base k) as [texts Htexts]; [lia|].
    pose proof (Hrows k row texts Hrow Htexts) as Hσrow.
    rewrite decide_False in Hσrow by lia.
    assert (Hne : tableContent ≠ row).
    { intros ->. apply Hnotin. by eapply list_elem_of_lookup_2. }
    set (σ1 := <[row := StringArray (Number_toString (Z.of_nat k) :: texts)]> σ).
    destruct (IH (Datatypes.S k) σ1) as (σ' & Hloop & Htc' & Hrows' & Hframe).
    + lia.
    + unfold σ1. by rewrite lookup_insert_ne.
    + intros i row' texts' Hi Hb.
      destruct (decide (i = k)) as [->|Hik].
      * assert (row' = row) as -> by congruence.
        assert (texts' = texts) as -> by congruence.
        unfold σ1. rewrite lookup_insert_eq. by rewrite decide_True by lia.
      * assert (row' ≠ row).
        { intros ->. apply Hik. by eapply NoDup_lookup. }
        unfold σ1. rewrite lookup_insert_ne by done.
        rewrite (Hrows i row' texts' Hi Hb).
        destruct (decide (i < k)%nat);
          [rewrite decide_True by lia|rewrite decide_False by lia]; done.
    + exists σ'. split; [|split; [done|split; [done|]]].
      * simpl. unfold stepBind at 1. unfold prependIndex.
        unfold stepBind at 1. unfold readRefs. rewrite Htc, Hrow.
        unfold unshift, stepBind, readStrings. rewrite Hσrow. exact Hloop.
      * intros l Hl. rewrite (Hframe l Hl). unfold σ1.
        apply lookup_insert_ne. intros ->. apply Hl.
        by eapply list_elem_of_lookup_2.
Qed.

Lemma stringsAt_rows (σ : store) rows (content : list (list str)) :
  Forall2 (λ row texts, σ !! row = Some (StringArray texts)) rows content →
  mapM (stringsAt σ) rows = Some content.
Proof.
  intros H. apply mapM_Some. eapply Forall2_impl; [done|].
  intros row texts Hrow. unfold stringsAt. by rewrite Hrow.
Qed.

(** Lines 30 to 38 on the store: the two new arrays hold what [tableCells]
    computes from the contents of the arguments, and every object that was
    in the store is still there, unchanged. *)
Lemma buildCells_spec items keys records ks indexColumn (σ : store) :
  argumentsIn σ items keys records ks →
  ∃ columnNames tableContent σ',
    buildCells toString inspect items keys indexColumn σ
    = Some ((columnNames, tableContent,
             (tableCells toString inspect records ks indexColumn).2), σ')
    ∧ σ ⊆ σ'
    ∧ stringsAt σ' columnNames
      = Some (tableCells toString inspect records ks indexColumn).1.1
    ∧ rowsAt σ' tableContent
      = Some (tableCells toString inspect records ks indexColumn).1.2.
Proof.
  intros (Hkeys & refs & Hitems & Hrecords).
  set (base := (λ item : Key → Value, (λ key, inspect (item key)) <$> ks) <$> records).
  unfold buildCells. unfold stepBind at 1. unfold readKeys at 1. rewrite Hkeys.
  unfold stepBind at 1. unfold columnNamesOfKeys, stepBind at 1.
  unfold readKeys at 1. rewrite Hkeys.
  destruct (allocate_fresh (StringArray (toString <$> ks)) σ) as (names & -> & Hnames).
  set (σ1 := <[names := StringArray (toString <$> ks)]> σ).
  assert (Hsub1 : σ ⊆ σ1) by (by apply insert_subseteq).
  assert (Hnames1 : σ1 !! names = Some (StringArray (toString <$> ks)))
    by (unfold σ1; by rewrite lookup_insert_eq).
  unfold stepBind at 1. unfold tableContentOfItems, stepBind at 1.
  unfold readRefs at 1. rewrite (lookup_weaken _ _ _ _ Hitems Hsub1).
  destruct (stepMap_rows keys ks refs records σ1)
    as (rows & σ2 & Hmap & Hsub2 & Hfresh & Hnodup & Hrows).
  { exact (lookup_weaken _ _ _ _ Hkeys Hsub1). }
  { eapply Forall2_impl; [done|]. intros r f Hr.
    exact (lookup_weaken _ _ _ _ Hr Hsub1). }
  unfold stepBind at 1. rewrite Hmap.
  destruct (allocate_fresh (RefArray rows) σ2) as (tc & -> & Htc).
  set (σ3 := <[tc := RefArray rows]> σ2).
  assert (Hsub3 : σ2 ⊆ σ3) by (by apply insert_subseteq).
  assert (Htc3 : σ3 !! tc = Some (RefArray rows))
    by (unfold σ3; by rewrite lookup_insert_eq).
  assert (Hnames3 : σ3 !! names = Some (StringArray (toString <$> ks))).
  { eapply lookup_weaken; [|exact Hsub3]. by eapply lookup_weaken. }
  assert (Hbase : ∀ i row texts, rows !! i = Some row → base !! i = Some texts →
            σ2 !! row = Some (StringArray texts)).
  { intros i row texts Hi Hb.
    destruct (Forall2_lookup_l _ _ _ _ _ Hrows Hi) as (fields & Hf & Hrow).
    unfold base in Hb. rewrite list_lookup_fmap, Hf in Hb. by injection Hb as <-. }
  assert (Hlen : length base = length rows).
  { unfold base. rewrite length_fmap. symmetry. by eapply Forall2_length. }
  assert (Hold : ∀ row, row ∈ rows → row ≠ names ∧ row ≠ tc ∧ σ !! row = None).
  { intros row Hin. eapply Forall_forall in Hfresh; [|done]. simpl in Hfresh.
    split; [intros ->; congruence|]. split.
    - intros ->. apply list_elem_of_lookup_1 in Hin as [i Hi].
      destruct (lookup_lt_is_Some_2 base i) as [texts Hb].
      { rewrite Hlen. by eapply lookup_lt_Some. }
      rewrite (Hbase i tc texts Hi Hb) in Htc. done.
    - destruct (σ !! row) eqn:Hσ; [|done].
      eapply lookup_weaken in Hσ; [|exact Hsub1]. congruence. }
  destruct indexColumn; unfold tableCells; fold base; simpl.
  - unfold stepBind at 1. unfold unshift, stepBind at 1.
    unfold readStrings at 1. rewrite Hnames3.
    set (σ4 := <[names := StringArray (lit "(index)" :: (toString <$> ks))]> σ3).
    assert (Hne : tc ≠ names).
    { intros ->. eapply lookup_weaken in Hnames1; [|exact Hsub2]. congruence. }
    assert (Htc4 : σ4 !! tc = Some (RefArray rows))
      by (unfold σ4; by rewrite lookup_insert_ne).
    unfold stepBind at 1. unfold readRefs at 1. rewrite Htc4.
    destruct (forEach_rows tc rows base Hnodup) with (m := length rows)
      (k := 0%nat) (σ := σ4) as (σ5 & Hloop & Htc5 & Hrows5 & Hframe).
    { intros Hin. by destruct (Hold tc Hin) as (_ & ? & _). }
    { done. }
    { done. }
    { done. }
    { intros i row texts Hi Hb. rewrite decide_False by lia.
      destruct (Hold row) as (? & ? & _); [by eapply list_elem_of_lookup_2|].
      unfold σ4, σ3. rewrite !lookup_insert_ne by done. by eapply Hbase. }
    unfold stepBind at 1. rewrite Hloop.
    exists names, tc, σ5. split; [done|]. split; [|split].
    + apply map_subseteq_spec. intros l o Hl.
      assert (l ∉ rows).
      { intros Hin. destruct (Hold l Hin) as (_ & _ & ?). congruence. }
      rewrite Hframe by done. unfold σ4.
      rewrite lookup_insert_ne by (intros ->; congruence).
      eapply lookup_weaken; [|exact Hsub3].
      eapply lookup_weaken; [|exact Hsub2]. by eapply lookup_weaken.
    + unfold stringsAt. rewrite Hframe.
      * unfold σ4. by rewrite lookup_insert_eq.
      * intros Hin. by destruct (Hold names Hin) as (? & _).
    + unfold rowsAt. rewrite Htc5. apply stringsAt_rows.
      apply Forall2_same_length_lookup. split; [by rewrite length_imap|].
      intros i row texts Hi Himap. rewrite list_lookup_imap in Himap.
      destruct (base !! i) as [texts'|] eqn:Hb; [|done].
      injection Himap as <-. by eapply Hrows5.
  - exists names, tc, σ3. split; [done|]. split; [|split].
    + etrans; [exact Hsub1|]. by etrans.
    + unfold stringsAt. by rewrite Hnames3.
    + unfold rowsAt. rewrite Htc3. apply stringsAt_rows.
      apply Forall2_same_length_lookup. split; [done|].
      intros i row texts Hi Hb. eapply lookup_weaken; [|exact Hsub3].
      by eapply Hbase.
Qed.

(** C10. On a store that holds the arguments of a call, [createTable] gives
    the result computed from what the arguments hold, and every object that
    the store held before the call (the array [items], every record in it,
    the array [keys], and any other) is in the store after the call,
    unchanged, whether the call returns or throws: the header ["(index)"]
    and the index cells go in front of arrays that the call allocated. *)
Theorem createTable_arguments_unchanged items keys records ks options (σ : store) :
  argumentsIn σ items keys records ks →
  ∃ σ',
    createTableOnStore toString inspect items keys options σ
    = Some (createTable toString inspect records ks options, σ')
    ∧ σ ⊆ σ'
    ∧ argumentsIn σ' items keys records ks.
Proof.
  intros Hargs.
  destruct (buildCells_spec items keys records ks (indexColumn options) σ Hargs)
    as (names & tc & σ' & Hbuild & Hsub & Hnames & Hcontent).
  exists σ'. split; [|split; [done|]].
  - unfold createTableOnStore, stepBind. rewrite Hbuild, Hnames, Hcontent.
    unfold createTable. by destruct (tableCells _ _ _ _ _) as [[? ?] ?].
  - destruct Hargs as (Hkeys & refs & Hitems & Hrecords).
    split; [exact (lookup_weaken _ _ _ _ Hkeys Hsub)|].
    exists refs. split; [exact (lookup_weaken _ _ _ _ Hitems Hsub)|].
    eapply Forall2_impl; [done|]. intros r f Hr.
    exact (lookup_weaken _ _ _ _ Hr Hsub).
Qed.

End Frame.

(** * The statements at concrete inputs *)

(** C1 at two columns: one short of the minimum, and at the minimum. *)
Lemma createTable_minimum_width_witness :
  (maxWidth width8 < 4 * 2 + 1
   ∧ createTable stringKey inspectInteger [allOnes] [lit "a"; lit "b"] width8
     = Normal (tooSmallMessage 2 8))
  ∧ (4 * 2 + 1 ≤ maxWidth width9
     ∧ createTable stringKey inspectInteger [allOnes] [lit "a"; lit "b"] width9
       ≠ Throw (Error (tooSmallMessage 2 9))).
Proof.
  split; (split; [vm_compute; done|]).
  - apply (proj1 (createTable_minimum_width stringKey inspectInteger [allOnes]
                    [lit "a"; lit "b"] width8)).
    vm_compute. reflexivity.
  - apply (proj2 (createTable_minimum_width stringKey inspectInteger [allOnes]
                    [lit "a"; lit "b"] width9)).
    vm_compute. discriminate.
Defined.

(** C5 at the widths 10, 20, 30 and 4 with an average of 5 and an overflow
    of 25 (the factor is [1 - 25 / 45]: 10 becomes [max(5, 4)], 20 becomes
    [max(5, 8)], 30 loses the 8 that remain), and at two columns of natural
    widths 5 and 3 in a budget of 6. *)
Lemma shrinkColumns_spec_witness :
  shrinkColumns [10; 20; 30; 4] 5 25 = Normal [5; 8; 22; 4]
  ∧ 6 < sumOf [5; 3]
  ∧ finalWidths stringKey inspectInteger [allOnes] [lit "abc"; lit "b"] width9
    = shrinkSpec [5; 3] 3 2
  ∧ finalWidths stringKey inspectInteger [allOnes] [lit "abc"; lit "b"] evenWidth9
    = shrinkSpec [5; 5] 3 4.
Proof.
  split; [|split; [vm_compute; reflexivity|split]].
  - rewrite (proj1 (shrinkColumns_spec stringKey inspectInteger)
               [10; 20; 30; 4] 5 25).
    vm_compute. reflexivity.
  - exact (proj1 (proj2 (shrinkColumns_spec stringKey inspectInteger)
                    [allOnes] [lit "abc"; lit "b"] width9 eq_refl) eq_refl).
  - exact (proj2 (proj2 (shrinkColumns_spec stringKey inspectInteger)
                    [allOnes] [lit "abc"; lit "b"] evenWidth9 eq_refl)
             eq_refl 5 eq_refl).
Defined.

(** C4 on a table of two columns and one item. *)
Lemma createTable_line_lengths_witness :
  ∃ columnWidths,
    finalWidths stringKey inspectInteger [allOnes] [lit "name"; lit "age"]
                defaultOptions = Normal columnWidths
    ∧ Forall (λ line, len line = 1 + sumOf columnWidths + 2 ∧ len line ≤ 80)
             (split LF smallTable).
Proof.
  apply (createTable_line_lengths stringKey inspectInteger [allOnes]
           [lit "name"; lit "age"] defaultOptions smallTable).
  - vm_compute. discriminate.
  - vm_compute. reflexivity.
  - discriminate.
  - apply (bool_decide_unpack _). vm_compute. exact I.
Defined.

(** C3 on a text of five code units in a column four wide. *)
Lemma cellLines_slices_witness :
  3 ≤ 4
  ∧ ∃ lines, cellLines (lit "abcde") 4 = Normal lines
      ∧ (∀ i, lines !! i = sliceAt 2 (lit "abcde") i)
      ∧ concat lines = lit "abcde"
      ∧ Forall (λ line, (0 < length line ≤ 2)%nat) lines
      ∧ (lit "abcde" = [] → lines = []).
Proof.
  split; [vm_compute; discriminate|].
  apply (proj1 (cellLines_slices (lit "abcde") 4 ltac:(vm_compute; discriminate))).
Defined.


(** C6 on two columns in a width of 20, and on widths 5 and 3 in a width
    of 9. *)
Lemma even_sizing_witness :
  (columnSizing even20 = even ∧ 3 * 2 ≤ 17
   ∧ finalWidths stringKey inspectInteger [allOnes] [lit "a"; lit "b"] even20
     = Normal [3; 3])
  ∧ (columnSizing evenWidth9 = even ∧ 6 < 5 * 2
     ∧ finalWidths stringKey inspectInteger [allOnes] [lit "abc"; lit "b"]
                   evenWidth9
       = shrinkColumns [5; 5] 3 4).
Proof.
  split.
  - split; [reflexivity|]. split; [vm_compute; discriminate|].
    apply (proj1 (even_sizing stringKey inspectInteger [allOnes]
                    [lit "a"; lit "b"] even20 3 eq_refl eq_refl)).
    + vm_compute. discriminate.
    + by left.
  - split; [reflexivity|]. split; [vm_compute; reflexivity|].
    apply (proj1 (proj2 (even_sizing stringKey inspectInteger [allOnes]
                           [lit "abc"; lit "b"] evenWidth9 5 eq_refl eq_refl)
                    eq_refl)).
Defined.

(** C10 on a store with one key and one item, with the index column. *)
Lemma createTable_arguments_unchanged_witness :
  argumentsIn exampleStore 2%positive 1%positive [allOnes] [lit "a"]
  ∧ ∃ σ',
      createTableOnStore stringKey inspectInteger 2%positive 1%positive
                         indexed exampleStore
      = Some (createTable stringKey inspectInteger [allOnes] [lit "a"] indexed, σ')
      ∧ exampleStore ⊆ σ'
      ∧ argumentsIn σ' 2%positive 1%positive [allOnes] [lit "a"].
Proof.
  assert (Hargs : argumentsIn exampleStore 2%positive 1%positive [allOnes] [lit "a"]).
  { split; [reflexivity|]. exists [3%positive]. split; [reflexivity|].
    constructor; [reflexivity|constructor]. }
  split; [exact Hargs|].
  exact (createTable_arguments_unchanged stringKey inspectInteger 2%positive
           1%positive [allOnes] [lit "a"] indexed exampleStore Hargs).
Defined.

(** ** Where the source departs from the specification *)

(** Against C3 as stated: the wrapper gives the empty text no line at all,
    and a row whose texts are all empty has no height. *)
Lemma cellLines_empty_text :
  cellLines [] 5 ≠ Normal [[]]
  ∧ ∃ cells, splitCells [[]] [5] = Normal cells ∧ ¬ (1 ≤ rowHeightOf cells)%nat.
Proof.
  split; [vm_compute; discriminate|].
  exists [[]]. split; [vm_compute; reflexivity|]. vm_compute. lia.
Qed.

(** Against C4 as stated: with a line break in a column name, the header
    row is cut in two lines that are shorter than the borders. *)
Lemma createTable_broken_key :
  ¬ ∀ out columnWidths,
      createTable stringKey inspectInteger [allOnes] [brokenKey] defaultOptions
      = Normal out →
      finalWidths stringKey inspectInteger [allOnes] [brokenKey] defaultOptions
      = Normal columnWidths →
      Forall (λ line, len line = 1 + sumOf columnWidths + 1 ∧ len line ≤ 80)
             (split LF out).
Proof.
  intros H.
  specialize (H (returned (createTable stringKey inspectInteger [allOnes]
                             [brokenKey] defaultOptions)) [5]).
  assert (Hlines := H ltac:(vm_compute; reflexivity) ltac:(vm_compute; reflexivity)).
  vm_compute in Hlines.
  apply Forall_cons in Hlines as [_ Hlines].
  apply Forall_cons in Hlines as [[Hlen _] _]. discriminate.
Qed.

(** Without an item, the block of the data rows is the empty string, and the
    result has an empty line where the rows would be. *)
Lemma createTable_no_item_blank_line :
  ∃ out, createTable stringKey inspectInteger [] [lit "a"] defaultOptions
         = Normal out
    ∧ split LF out !! 3%nat = Some [].
Proof. eexists. split; vm_compute; reflexivity. Qed.

(** A header row whose names are all empty has no line: the result has an
    empty line where the names would be. *)
Lemma createTable_empty_names_blank_line :
  ∃ out, createTable stringKey inspectInteger [allOnes] [emptyKey] defaultOptions
         = Normal out
    ∧ split LF out !! 1%nat = Some [].
Proof. eexists. split; vm_compute; reflexivity. Qed.

(** Against C6 as stated: under [even] with [fullWidth], columns that were
    given equal widths within the budget are grown to different widths. *)
Lemma even_fullWidth_unequal :
  let names := [lit "a"; lit "b"] in
  let natural := naturalWidths names [inspectInteger <$> [1; 1]] in
  ∃ final,
    Math_max natural = Some 3
    ∧ 3 * 2 ≤ maxWidth evenFullWidth20 - 2 - 1
    ∧ finalWidths stringKey inspectInteger [allOnes] names evenFullWidth20
      = Normal final
    ∧ ¬ Forall (λ w, w = 3) final
    ∧ ¬ ∀ w1 w2, w1 ∈ final → w2 ∈ final → w1 = w2.
Proof.
  exists [8; 9]. split; [reflexivity|]. split; [vm_compute; discriminate|].
  split; [vm_compute; reflexivity|]. split.
  - intros Hall. apply Forall_cons in Hall as [? _]. done.
  - intros Hall. specialize (Hall 8 9). discriminate Hall; set_solver.
Qed.

(** C2: under [fullWidth], when no column is narrower than the average
    width, [growColumns] has no column to grow and the table stays short of
    [maxWidth]: here 11 of 12. *)
Theorem fullWidth_not_filled :
  let items := [allOnes] in
  let keys := [lit "ab"; lit "cd"] in
  4 * columnCountOf keys fullWidth12 + 1 ≤ maxWidth fullWidth12
  ∧ fullWidth fullWidth12 = true
  ∧ finalWidths stringKey inspectInteger items keys fullWidth12 = Normal [4; 4]
  ∧ noThrow (createTable stringKey inspectInteger items keys fullWidth12)
  ∧ Forall (λ line, len line = 11)
      (split LF (returned (createTable stringKey inspectInteger items keys
                             fullWidth12)))
  ∧ sumOf [4; 4] + columnCountOf keys fullWidth12 + 1 ≠ maxWidth fullWidth12.
Proof.
  intros items keys.
  split; [vm_compute; discriminate|]. split; [reflexivity|].
  split; [vm_compute; reflexivity|].
  split; [intros e; vm_compute; discriminate|].
  split; [vm_compute; repeat constructor|].
  vm_compute. discriminate.
Qed.

(** C7: a column whose name is empty and that has no cell is two wide
    before and after the sizing, and the check after the sizing raises its
    error on a call that passed the feasibility check. *)
Theorem post_check_raised_after_feasibility :
  4 * columnCountOf [emptyKey] defaultOptions + 1 ≤ maxWidth defaultOptions
  ∧ finalWidths stringKey inspectInteger [] [emptyKey] defaultOptions = Normal [2]
  ∧ createTable stringKey inspectInteger [] [emptyKey] defaultOptions
    = Throw (Error bugReportMessage).
Proof.
  split; [vm_compute; discriminate|]. split; vm_compute; reflexivity.
Qed.

(** C8: with [maxWidth] at the minimum of one column, the same column of
    width two makes the call end in the error of the check after the
    sizing. *)
Theorem minimum_width_fails_on_empty_column :
  maxWidth width5 = 4 * columnCountOf [emptyKey] width5 + 1
  ∧ finalWidths stringKey inspectInteger [] [emptyKey] width5 = Normal [2]
  ∧ createTable stringKey inspectInteger [] [emptyKey] width5
    = Throw (Error bugReportMessage).
Proof. split; [|split]; vm_compute; reflexivity. Qed.

(** * Further properties of the source *)

(** ** The widths of a table that is returned *)

Lemma naturalWidths_lookup columnNames tableContent i columnName :
  columnNames !! i = Some columnName →
  naturalWidths columnNames tableContent !! i
  = Some (foldl Z.max (len columnName + 2)
            ((λ row : list str, len (row !!! i) + 2) <$> tableContent)).
Proof. intros Hi. unfold naturalWidths. by rewrite list_lookup_imap, Hi. Qed.

(** No column is narrower than two before the sizing. *)
Lemma naturalWidths_least columnNames tableContent :
  Forall (λ w, 2 ≤ w) (naturalWidths columnNames tableContent).
Proof.
  apply Forall_lookup. intros i w Hw.
  destruct (lookup_lt_is_Some_2 columnNames i) as [name Hname].
  { rewrite <- naturalWidths_length with (tableContent := tableContent).
    by eapply lookup_lt_Some. }
  rewrite (naturalWidths_lookup _ _ _ _ Hname) in Hw. injection Hw as <-.
  destruct (foldl_max_ge (len name + 2)
    ((λ row : list str, len (row !!! i) + 2) <$> tableContent)). unfold len in *.
  lia.
Qed.

Section Widths.

Context {Key Value : Type}.
Variable toString : Key → str.
Variable inspect : Value → str.

Local Abbreviation natural items keys options :=
  (naturalWidths (columnNamesOf toString inspect items keys options)
                 (tableContentOf toString inspect items keys options)).

Lemma finalWidths_sizeColumns items keys options :
  finalWidths toString inspect items keys options
  = sizeColumns (columnSizing options) (fullWidth options)
      (len (natural items keys options))
      (maxWidth options - columnCountOf keys options - 1)
      ((maxWidth options - columnCountOf keys options - 1)
         `div` len (natural items keys options))
      (natural items keys options)
  ∧ len (natural items keys options) = columnCountOf keys options.
Proof.
  pose proof (tableCells_columnCount toString inspect items keys options) as Hc.
  unfold finalWidths, columnNamesOf, tableContentOf.
  destruct (tableCells _ _ _ _ _) as [[names content] c] eqn:Hcells.
  simpl in Hc |- *. subst c.
  apply tableCells_shape in Hcells as (Hcount & _ & _).
  assert (Hn : len (naturalWidths names content) = columnCountOf keys options).
  { unfold len. rewrite naturalWidths_length. by rewrite Hcount. }
  by rewrite Hn.
Qed.

(** For a [maxWidth] and texts in the range of the integers that a double
    holds exactly, and a strategy that is known, the sizing completes. *)
Lemma finalWidths_total items keys options :
  4 * columnCountOf keys options + 1 ≤ maxWidth options < 2 ^ 52 →
  columnSizing options = stretch ∨ columnSizing options = even →
  Forall (λ w, w * columnCountOf keys options < 2 ^ 52)
         (natural items keys options) →
  ∃ columnWidths,
    finalWidths toString inspect items keys options = Normal columnWidths.
Proof.
  intros Hw Hsizing Hrange.
  destruct (finalWidths_sizeColumns items keys options) as [-> Hlen].
  apply sizeColumns_finite.
  - done.
  - apply Z_div_nonneg_nonneg; unfold len in *; lia.
  - unfold len in Hlen. lia.
  - rewrite Hlen. unfold columnNamesOf, tableContentOf in *.
    pose proof (naturalWidths_least
      (tableCells toString inspect items keys (indexColumn options)).1.1
      (tableCells toString inspect items keys (indexColumn options)).1.2) as Hl.
    apply Forall_forall. intros w Hin.
    eapply Forall_forall in Hl; [|done]. eapply Forall_forall in Hrange; [|done].
    simpl in *. lia.
  - done.
Qed.

(** X2. A table that is returned was laid out with one width for every
    column, none below three, and a total that, with the borders, is within
    [maxWidth]. *)
Theorem createTable_widths items keys options out :
  4 * columnCountOf keys options + 1 ≤ maxWidth options →
  createTable toString inspect items keys options = Normal out →
  ∃ columnWidths,
    finalWidths toString inspect items keys options = Normal columnWidths
    ∧ len columnWidths = columnCountOf keys options
    ∧ Forall (λ w, 3 ≤ w) columnWidths
    ∧ sumOf columnWidths + columnCountOf keys options + 1 ≤ maxWidth options.
Proof.
  intros Hw Hout. rewrite createTable_feasible in Hout by done.
  apply bind_Normal in Hout as (ws & Hfinal & Hout).
  apply bind_Normal in Hout as (u & Hcheck & _).
  exists ws. split; [done|].
  destruct (finalWidths_within_maxWidth toString inspect items keys options ws)
    as [Hlen Hsum]; [done..|].
  split; [done|]. split; [|done].
  unfold checkWidths in Hcheck. case_decide as Hex; [done|].
  apply Forall_forall. intros w Hin. destruct (decide (3 ≤ w)); [done|].
  destruct Hex. apply Exists_exists. exists w. split; [done|lia].
Qed.

(** X3. When the columns overflow the budget [maxWidth - columnCount - 1]
    (the natural widths under ['stretch'], the widths all set to the widest
    under ['even']), the sizing completes and the widths that
    [shrinkColumns] leaves add up to the budget exactly: the table is
    [maxWidth] wide, whether or not [fullWidth] is set.  ([maxWidth] and
    the widths are taken in the range of the integers that a double holds
    exactly.) *)
Theorem createTable_overflow_fills items keys options :
  let columnCount := columnCountOf keys options in
  let budget := maxWidth options - columnCount - 1 in
  4 * columnCount + 1 ≤ maxWidth options < 2 ^ 52 →
  Forall (λ w, w * columnCount < 2 ^ 52) (natural items keys options) →
  (columnSizing options = stretch ∧ budget < sumOf (natural items keys options))
  ∨ (columnSizing options = even
     ∧ ∃ widest, Math_max (natural items keys options) = Some widest
         ∧ budget < widest * columnCount) →
  ∃ columnWidths,
    finalWidths toString inspect items keys options = Normal columnWidths
    ∧ sumOf columnWidths + columnCount + 1 = maxWidth options.
Proof.
  intros columnCount budget Hrange Hnatural Hover.
  destruct (finalWidths_total items keys options Hrange) as [columnWidths Hfinal];
    [destruct Hover as [[? _]|[? _]]; auto|done|].
  exists columnWidths. split; [done|].
  assert (Hw : 4 * columnCount + 1 ≤ maxWidth options) by lia.
  clear Hrange Hnatural.
  destruct (finalWidths_sizeColumns items keys options) as [Hsize Hlen].
  rewrite Hsize in Hfinal. clear Hsize. fold columnCount budget in Hfinal, Hlen.
  set (widths := natural items keys options) in *. clearbody widths.
  assert (Havg : ∀ l : list Z, length l = length widths →
            budget `div` len widths * len l ≤ budget).
  { intros l Hl. unfold len. rewrite Hl. apply average_fits; unfold budget, len in *; lia. }
  unfold sizeColumns in Hfinal.
  destruct Hover as [[Hs Hover]|(Hs & widest & Hmax & Hover)];
    rewrite Hs in Hfinal; clear Hs.
  - replace (0 <? sumOf widths - budget) with true in Hfinal
      by (symmetry; apply Z.ltb_lt; lia).
    simpl in Hfinal. apply bind_Normal in Hfinal as ([ws o] & H1 & H2).
    inv_bind H1. simplify_eq. rewrite andb_false_r in H2. injection H2 as <-.
    match goal with H : shrinkColumns _ _ _ = _ |- _ =>
      apply shrinkColumns_to_budget in H as [_ Hs]; [|by apply Havg|lia] end.
    unfold budget in Hs. lia.
  - rewrite Hmax in Hfinal. rewrite <- Hlen in Hover.
    replace (0 <? widest * len widths - budget) with true in Hfinal
      by (symmetry; apply Z.ltb_lt; lia).
    simpl in Hfinal. apply bind_Normal in Hfinal as ([ws o] & H1 & H2).
    inv_bind H1. simplify_eq. rewrite andb_false_r in H2. injection H2 as <-.
    pose proof (sum_const widths widest) as Hsum.
    rewrite <- Hsum in *.
    match goal with H : shrinkColumns _ _ _ = _ |- _ =>
      apply shrinkColumns_to_budget in H as [_ Hs];
        [|apply Havg; by rewrite length_fmap|lia] end.
    unfold budget in Hs. lia.
Qed.

(** X4. Under [fullWidth], when the columns leave room in the budget and at
    least one of them is narrower than the average width
    [floor(budget / columnCount)] (one natural width under ['stretch'], the
    widest under ['even']), the sizing completes and the widths that
    [growColumns] leaves add up to the budget exactly: the table is
    [maxWidth] wide.  ([maxWidth] and the widths are taken in the range of
    the integers that a double holds exactly.) *)
Theorem createTable_fullWidth_fills items keys options :
  let columnCount := columnCountOf keys options in
  let budget := maxWidth options - columnCount - 1 in
  4 * columnCount + 1 ≤ maxWidth options < 2 ^ 52 →
  Forall (λ w, w * columnCount < 2 ^ 52) (natural items keys options) →
  fullWidth options = true →
  (columnSizing options = stretch
   ∧ sumOf (natural items keys options) < budget
   ∧ Exists (λ w, w < budget `div` columnCount) (natural items keys options))
  ∨ (columnSizing options = even
     ∧ ∃ widest, Math_max (natural items keys options) = Some widest
         ∧ widest < budget `div` columnCount) →
  ∃ columnWidths,
    finalWidths toString inspect items keys options = Normal columnWidths
    ∧ sumOf columnWidths + columnCount + 1 = maxWidth options.
Proof.
  intros columnCount budget Hrange Hnatural Hfull Hroom.
  destruct (finalWidths_total items keys options Hrange) as [columnWidths Hfinal];
    [destruct Hroom as [[? _]|[? _]]; auto|done|].
  exists columnWidths. split; [done|].
  assert (Hw : 4 * columnCount + 1 ≤ maxWidth options) by lia.
  clear Hrange Hnatural.
  destruct (finalWidths_sizeColumns items keys options) as [Hsize Hlen].
  rewrite Hsize in Hfinal. clear Hsize. fold columnCount budget in Hfinal, Hlen.
  set (widths := natural items keys options) in *. clearbody widths.
  unfold sizeColumns in Hfinal. rewrite Hfull in Hfinal.
  destruct Hroom as [(Hs & Hroom & Hsmall)|(Hs & widest & Hmax & Hsmall)];
    rewrite Hs in Hfinal; clear Hs.
  - replace (0 <? sumOf widths - budget) with false in Hfinal
      by (symmetry; apply Z.ltb_ge; lia).
    simpl in Hfinal.
    replace (sumOf widths - budget <? 0) with true in Hfinal
      by (symmetry; apply Z.ltb_lt; lia).
    apply growColumns_total in Hfinal as (_ & Hs & _).
    rewrite Hlen in Hs. rewrite Hs by done. unfold budget. lia.
  - rewrite Hmax in Hfinal. rewrite <- Hlen in Hsmall.
    assert (0 < len widths) as Hpos.
    { destruct widths; [done|]. unfold len. simpl. lia. }
    assert (widest * len widths < budget) as Hroom.
    { pose proof (Z.mul_div_le budget (len widths) Hpos). nia. }
    replace (0 <? widest * len widths - budget) with false in Hfinal
      by (symmetry; apply Z.ltb_ge; lia).
    simpl in Hfinal.
    replace (widest * len widths - budget <? 0) with true in Hfinal
      by (symmetry; apply Z.ltb_lt; lia).
    apply growColumns_total in Hfinal as (_ & Hs & _).
    pose proof (sum_const widths widest) as Hsum.
    rewrite Hs.
    + rewrite Hsum. unfold budget. lia.
    + destruct widths as [|w widths]; [done|]. by left.
Qed.

(** Under ['stretch'], widths that fit and have nothing to grow are final. *)
Lemma finalWidths_natural items keys options :
  let columnCount := columnCountOf keys options in
  let budget := maxWidth options - columnCount - 1 in
  columnSizing options = stretch →
  sumOf (natural items keys options) ≤ budget →
  fullWidth options = false
  ∨ ¬ Exists (λ w, w < budget `div` columnCount) (natural items keys options) →
  finalWidths toString inspect items keys options
  = Normal (natural items keys options).
Proof.
  intros columnCount budget Hsizing Hfits Hgrow.
  destruct (finalWidths_sizeColumns items keys options) as [-> Hlen].
  fold columnCount budget. fold columnCount in Hlen.
  unfold sizeColumns. rewrite Hsizing.
  replace (0 <? sumOf (natural items keys options) - budget) with false
    by (symmetry; apply Z.ltb_ge; lia).
  simpl. destruct Hgrow as [->|Hnone]; [done|].
  destruct (fullWidth options && _); [|done].
  rewrite growColumns_walk. unfold growSpec. rewrite Hlen.
  by apply growWalk_none.
Qed.

End Widths.

(** ** The two steps of the sizing, column by column *)

Lemma shrinkWalk_none shrinkFactor averageWidth overflow widths :
  ¬ Exists (λ w, averageWidth < w) widths →
  shrinkWalk shrinkFactor averageWidth overflow widths = Normal widths.
Proof.
  induction widths as [|w widths IH]; [done|]. intros Hn. simpl.
  rewrite decide_False by (intros ?; apply Hn; by left).
  rewrite IH by (intros ?; apply Hn; by right). done.
Qed.

Lemma shrinkWalk_columns shrinkFactor averageWidth widths :
  ∀ overflow widths',
    shrinkWalk shrinkFactor averageWidth overflow widths = Normal widths' →
    ∀ i w, widths !! i = Some w →
      (w ≤ averageWidth → widths' !! i = Some w)
      ∧ (averageWidth < w →
         Exists (λ w, averageWidth < w) (drop (S i) widths) →
         ∃ w', widths' !! i = Some w' ∧ averageWidth ≤ w').
Proof.
  induction widths as [|width widths IH]; intros o ws' H i w Hi; [done|].
  simpl in H. destruct (decide (averageWidth < width)) as [Hbig|Hsmall].
  - destruct (decide (Exists _ widths)) as [Hmore|Hlast].
    + inv_bind H. subst ws'. destruct i as [|i]; simpl in *.
      * injection Hi as <-. split; [lia|]. intros _ _. eexists. split; [done|lia].
      * match goal with H : shrinkWalk _ _ _ _ = _ |- _ =>
          exact (IH _ _ H i w Hi) end.
    + injection H as <-. destruct i as [|i]; simpl in *.
      * injection Hi as <-. split; [lia|]. intros _ Hex. by destruct Hlast.
      * split; [done|]. intros Hw Hex. destruct Hlast.
        apply Exists_exists. exists w. split; [by eapply list_elem_of_lookup_2|done].
  - inv_bind H. subst ws'. destruct i as [|i]; simpl in *.
    + injection Hi as <-. split; [done|lia].
    + match goal with H : shrinkWalk _ _ _ _ = _ |- _ =>
        exact (IH _ _ H i w Hi) end.
Qed.

Lemma growWalk_columns growFactor averageWidth widths :
  ∀ growth widths',
    growWalk growFactor averageWidth growth widths = Normal widths' →
    ∀ i w, widths !! i = Some w → averageWidth ≤ w → widths' !! i = Some w.
Proof.
  induction widths as [|width widths IH]; intros g ws' H i w Hi Hw; [done|].
  simpl in H. destruct (decide (width < averageWidth)) as [Hsmall|Hwide].
  - destruct (decide (Exists _ widths)) as [Hmore|Hlast].
    + inv_bind H. subst ws'. destruct i as [|i]; simpl in *.
      * injection Hi as <-. lia.
      * match goal with H : growWalk _ _ _ _ = _ |- _ =>
          exact (IH _ _ H i w Hi Hw) end.
    + injection H as <-. destruct i as [|i]; simpl in *; [|done].
      injection Hi as <-. lia.
  - inv_bind H. subst ws'. destruct i as [|i]; simpl in *; [done|].
    match goal with H : growWalk _ _ _ _ = _ |- _ =>
      exact (IH _ _ H i w Hi Hw) end.
Qed.

(** With one column wider than the average, the walk takes the whole
    overflow from it and computes no factor. *)
Lemma shrinkWalk_one_big shrinkFactor averageWidth overflow before wide after :
  ¬ Exists (λ w, averageWidth < w) before → averageWidth < wide →
  ¬ Exists (λ w, averageWidth < w) after →
  shrinkWalk shrinkFactor averageWidth overflow (before ++ wide :: after)
  = Normal (before ++ wide - overflow :: after).
Proof.
  intros Hbefore Hwide Hafter. induction before as [|w before IH]; simpl.
  - rewrite decide_True by done. by rewrite decide_False.
  - rewrite decide_False by (intros ?; apply Hbefore; by left).
    rewrite IH by (intros ?; apply Hbefore; by right). done.
Qed.

(** X5. What [shrinkColumns] does to the array, whatever the overflow it is
    given.  With no column wider than [minimumWidth] it changes nothing.
    With positive widths, a positive overflow and a [minimumWidth] that is
    not negative, all in the range of the integers that a double holds
    exactly, it completes.  When it completes: the array keeps its length;
    a column that is not wider than [minimumWidth] keeps its width; a
    column that is, and is not the last such column, ends no narrower than
    [minimumWidth]; and the total width falls by the overflow exactly. *)
Theorem shrinkColumns_effect columnWidths minimumWidth overflow :
  (¬ Exists (λ w, minimumWidth < w) columnWidths →
   shrinkColumns columnWidths minimumWidth overflow = Normal columnWidths)
  ∧ (0 ≤ minimumWidth → 0 < overflow < 2 ^ 53 →
     Forall (λ w, 0 < w) columnWidths → sumOf columnWidths < 2 ^ 53 →
     ∃ widths', shrinkColumns columnWidths minimumWidth overflow = Normal widths')
  ∧ ∀ widths',
      shrinkColumns columnWidths minimumWidth overflow = Normal widths' →
      length widths' = length columnWidths
      ∧ (∀ i w, columnWidths !! i = Some w → w ≤ minimumWidth →
           widths' !! i = Some w)
      ∧ (∀ i w, columnWidths !! i = Some w → minimumWidth < w →
           Exists (λ w, minimumWidth < w) (drop (S i) columnWidths) →
           ∃ w', widths' !! i = Some w' ∧ minimumWidth ≤ w')
      ∧ (Exists (λ w, minimumWidth < w) columnWidths →
           sumOf widths' = sumOf columnWidths - overflow).
Proof.
  split; [|split; [apply shrinkColumns_finite|]];
    rewrite shrinkColumns_walk; unfold shrinkSpec.
    change (fsub (of_int 1) (fdiv (of_int ?o) (of_int ?e))) with (shrinkFactorOf o e).
  - apply shrinkWalk_none.
  - intros widths' H.
    pose proof (shrinkWalk_total _ _ _ _ _ H) as (Hlen & Hsum & _).
    pose proof (shrinkWalk_columns _ _ _ _ _ H) as Hcolumns.
    split; [done|]. split; [|split; [|done]].
    + intros i w Hi. by apply Hcolumns.
    + intros i w Hi. by apply Hcolumns.
Qed.

(** X6. What [growColumns] does to the array, whatever the growth it is
    given.  With no column narrower than [minimumWidth] it changes nothing:
    the growth is dropped.  With positive widths and a positive growth in
    the range of the integers that a double holds exactly, it completes.
    When it completes: the array keeps its length; a column that is not
    narrower than [minimumWidth] keeps its width; and, if some column is
    narrower, the total width rises by the growth exactly. *)
Theorem growColumns_effect columnWidths minimumWidth growth :
  (¬ Exists (λ w, w < minimumWidth) columnWidths →
   growColumns columnWidths minimumWidth growth = Normal columnWidths)
  ∧ (0 < growth < 2 ^ 53 →
     Forall (λ w, 0 < w) columnWidths → sumOf columnWidths < 2 ^ 53 →
     ∃ widths', growColumns columnWidths minimumWidth growth = Normal widths')
  ∧ ∀ widths',
      growColumns columnWidths minimumWidth growth = Normal widths' →
      length widths' = length columnWidths
      ∧ (∀ i w, columnWidths !! i = Some w → minimumWidth ≤ w →
           widths' !! i = Some w)
      ∧ (Exists (λ w, w < minimumWidth) columnWidths →
           sumOf widths' = sumOf columnWidths + growth).
Proof.
  split; [|split; [apply growColumns_finite|]];
    rewrite growColumns_walk; unfold growSpec.
  - apply growWalk_none.
  - intros widths' H.
    pose proof (growWalk_total _ _ _ _ _ H) as (Hlen & Hsum & _).
    split; [done|]. split; [|done].
    intros i w Hi Hw. by eapply growWalk_columns.
Qed.

(** ** The lines of a table *)

Lemma split_join_blocks (groups : list (list str)) :
  Forall (λ lines, lines ≠ [] ∧ Forall singleLine lines) groups →
  split LF <$> (join [LF] <$> groups) = groups.
Proof.
  induction 1 as [|lines groups [Hne Hs] _ IH]; [done|].
  rewrite !fmap_cons, IH. f_equal. by apply split_join.
Qed.

(** The rendering of a table of plain rows, block by block: the lines of the
    result are the top border, the lines of the header block, the middle
    line, the lines of the block of every row in order, and the bottom
    border. *)
Lemma renderTable_blocks columnNames tableContent columnWidths
    horizontalAlignment verticalAlignment :
  Forall (λ w, 3 ≤ w) columnWidths →
  Forall (λ row, length row = length columnWidths) (columnNames :: tableContent) →
  Forall plainRow (columnNames :: tableContent) →
  tableContent ≠ [] →
  ∃ top header middle blocks bottom out,
    createTableTop columnWidths = Normal top
    ∧ createMultiLineRows columnNames columnWidths horizontalAlignment
        verticalAlignment = Normal header
    ∧ createTableMiddleLine columnWidths = Normal middle
    ∧ Forall2 (λ row block,
         createMultiLineRows row columnWidths horizontalAlignment
           verticalAlignment = Normal block) tableContent blocks
    ∧ createTableBottom columnWidths = Normal bottom
    ∧ renderTable columnNames tableContent columnWidths horizontalAlignment
        verticalAlignment = Normal out
    ∧ split LF out
      = [top] ++ split LF header ++ [middle]
        ++ concat (split LF <$> blocks) ++ [bottom].
Proof.
  intros Hws Hshape Hplain Hcontent.
  apply Forall_cons in Hshape as [Hnames Hshape].
  apply Forall_cons in Hplain as [[Hsingle Hsome] Hplain].
  assert (Hne : columnWidths ≠ []).
  { intros ->. destruct columnNames; [by inversion Hsome|done]. }
  assert (Hpos : Forall (λ w, 0 ≤ w) columnWidths)
    by (eapply Forall_impl; [done|]; simpl; lia).
  unfold renderTable, createTableTop, createTableColumnNames,
    createTableMiddleLine, createTableBottom, createTableRows.
  rewrite border_runs by done. simpl.
  destruct (createMultiLineRows_lines columnNames columnWidths
              horizontalAlignment verticalAlignment Hne Hws Hnames)
    as (cells & header & _ & -> & _ & _ & Hhs & Hhne). simpl.
  specialize (Hhs Hsingle). specialize (Hhne Hsome).
  destruct (mapM_total (λ row, createMultiLineRows row columnWidths
              horizontalAlignment verticalAlignment) tableContent)
    as [blocks Hblocks].
  { eapply Forall_impl; [exact Hshape|]. intros row Hrow.
    destruct (createMultiLineRows_lines row columnWidths horizontalAlignment
                verticalAlignment Hne Hws Hrow) as (? & lines & _ & ? & _).
    eauto. }
  rewrite Hblocks. simpl. apply mapM_Normal in Hblocks.
  do 6 eexists. do 5 (split; [done|]). split; [done|].
  destruct (blocks_of_rows
    (λ lines, lines ≠ [] ∧ Forall singleLine lines)
    _ _ _ Hblocks) as (groups & -> & Hgroups & Hlen).
  { apply Forall_forall. intros row Hrow block Hblock.
    destruct (createMultiLineRows_lines row columnWidths horizontalAlignment
                verticalAlignment Hne Hws) as (? & lines & _ & Hl & _ & _ & Hs & Hn).
    { by eapply Forall_forall in Hshape. }
    eapply Forall_forall in Hplain as [Hps Hpe]; [|done].
    exists lines. split; [congruence|]. split; [by apply Hn|by apply Hs]. }
  rewrite split_join_blocks by done. rewrite split_join by done.
  pose (runs := (λ w, replicate (Z.to_nat w) HORIZONTAL) <$> columnWidths).
  pose (top := framed TOP_LEFT TOP_MIDDLE TOP_RIGHT runs).
  pose (middle := framed LEFT_MIDDLE MIDDLE RIGHT_MIDDLE runs).
  pose (bottom := framed BOTTOM_LEFT BOTTOM_MIDDLE BOTTOM_RIGHT runs).
  change (split LF (join [LF] [top; join [LF] header ++ [LF] ++ middle;
                               join [LF] (join [LF] <$> groups); bottom])
          = [top] ++ header ++ [middle] ++ concat groups ++ [bottom]).
  destruct (border_line TOP_LEFT TOP_MIDDLE TOP_RIGHT columnWidths)
    as [_ Hts]; [done..|].
  destruct (border_line LEFT_MIDDLE MIDDLE RIGHT_MIDDLE columnWidths)
    as [_ Hms]; [done..|].
  destruct (border_line BOTTOM_LEFT BOTTOM_MIDDLE BOTTOM_RIGHT columnWidths)
    as [_ Hbs]; [done..|].
  fold runs in Hts, Hms, Hbs. fold top in Hts. fold middle in Hms.
  fold bottom in Hbs. clearbody top middle bottom.
  assert (Hgne : concat groups ≠ []).
  { destruct groups as [|group groups]; [by destruct tableContent|].
    inversion Hgroups as [|? ? [Hg _] _]; subst. simpl. by destruct group. }
  replace (join [LF] header ++ [LF] ++ middle)
    with (join [LF] (header ++ [middle])) by (by rewrite join_app).
  rewrite join_blocks by (eapply Forall_impl; [done|]; by intros ? [? _]).
  change [top; join [LF] (header ++ [middle]); join [LF] (concat groups); bottom]
    with (join [LF] <$> [[top]; header ++ [middle]; concat groups; [bottom]]).
  rewrite join_blocks.
  2:{ repeat constructor; try done. by destruct header. }
  rewrite split_join.
  - simpl. by rewrite <- !app_assoc.
  - done.
  - simpl. constructor; [done|].
    rewrite !Forall_app. split; [split|split].
    + done.
    + by constructor.
    + apply Forall_concat. eapply Forall_impl; [done|]. by intros ? [_ ?].
    + by constructor.
Qed.

(** X7. The lines of a table of plain rows, with every column at least
    three wide: the top border, the lines of the header block, the middle
    line, the lines of the block of every row in the order of the rows, and
    the bottom border, each block being what [createMultiLineRows] makes of
    its row. *)
Theorem renderTable_structure columnNames tableContent columnWidths
    horizontalAlignment verticalAlignment :
  Forall (λ w, 3 ≤ w) columnWidths →
  Forall (λ row, length row = length columnWidths) (columnNames :: tableContent) →
  Forall plainRow (columnNames :: tableContent) →
  tableContent ≠ [] →
  ∃ top header middle blocks bottom out,
    createTableTop columnWidths = Normal top
    ∧ createMultiLineRows columnNames columnWidths horizontalAlignment
        verticalAlignment = Normal header
    ∧ createTableMiddleLine columnWidths = Normal middle
    ∧ Forall2 (λ row block,
         createMultiLineRows row columnWidths horizontalAlignment
           verticalAlignment = Normal block) tableContent blocks
    ∧ createTableBottom columnWidths = Normal bottom
    ∧ renderTable columnNames tableContent columnWidths horizontalAlignment
        verticalAlignment = Normal out
    ∧ split LF out
      = [top] ++ split LF header ++ [middle]
        ++ concat (split LF <$> blocks) ++ [bottom].
Proof. apply renderTable_blocks. Qed.

Lemma slices_count k text (lines : list str) :
  (0 < k)%nat → (∀ i, lines !! i = sliceAt k text i) →
  len lines = (len text + Z.of_nat k - 1) `div` Z.of_nat k.
Proof.
  intros Hk Hs.
  destruct (sliceAt_lines k text lines Hk Hs) as (_ & _ & Hu & Hlo).
  apply Nat2Z.inj_lt in Hu. apply Nat2Z.inj_le in Hlo.
  rewrite Nat2Z.inj_add, Nat2Z.inj_mul in Hu. rewrite Nat2Z.inj_mul in Hlo.
  unfold len.
  apply Z.div_unique with
    (r := Z.of_nat (length text) + Z.of_nat k - 1
          - Z.of_nat k * Z.of_nat (length lines)); lia.
Qed.

(** The height of a row is the line count of its tallest cell. *)
Lemma splitCells_height row columnWidths cells :
  Forall (λ w, 3 ≤ w) columnWidths → length row = length columnWidths →
  splitCells row columnWidths = Normal cells →
  rowHeightOf cells = heightOf columnWidths row.
Proof.
  intros Hws Hlen Hsplit.
  destruct (splitCells_Normal row columnWidths Hws Hlen)
    as (cells' & Hsplit' & Hcl & Hcells).
  assert (cells' = cells) as -> by congruence.
  rewrite rowHeightOf_max. unfold heightOf. f_equal.
  apply list_eq. intros c. rewrite list_lookup_fmap, lookup_zip_with.
  destruct (row !! c) as [text|] eqn:Ht; simpl.
  - destruct (lookup_lt_is_Some_2 columnWidths c) as [w Hw].
    { rewrite <- Hlen. by eapply lookup_lt_Some. }
    rewrite Hw. simpl. destruct (Hcells c text w Ht Hw) as (lines & -> & Hs).
    simpl. f_equal. unfold lineCount.
    assert (3 ≤ w) by (by eapply Forall_lookup_1 in Hws).
    pose proof (slices_count (Z.to_nat (w - 2)) text lines ltac:(lia) Hs) as Hn.
    rewrite Z2Nat.id in Hn by lia. rewrite <- Hn. unfold len. lia.
  - rewrite (lookup_ge_None_2 cells); [done|].
    rewrite Hcl, <- Hlen. by apply lookup_ge_None.
Qed.

Lemma length_concat_sum {A} (l : list (list A)) :
  length (concat l) = sum_list (length <$> l).
Proof.
  induction l as [|k l IH]; [done|]. simpl. by rewrite length_app, IH.
Qed.

(** X23. The height of a table.  For columns at least three wide and plain
    rows, the table has three border lines and, for the header and for
    every row, as many lines as its tallest cell needs:
    [ceil(length / (columnWidth - 2))] for a text of that length. *)
Theorem renderTable_height columnNames tableContent columnWidths
    horizontalAlignment verticalAlignment :
  Forall (λ w, 3 ≤ w) columnWidths →
  Forall (λ row, length row = length columnWidths) (columnNames :: tableContent) →
  Forall plainRow (columnNames :: tableContent) →
  tableContent ≠ [] →
  ∃ out,
    renderTable columnNames tableContent columnWidths horizontalAlignment
      verticalAlignment = Normal out
    ∧ length (split LF out)
      = (3 + heightOf columnWidths columnNames
         + sum_list (heightOf columnWidths <$> tableContent))%nat.
Proof.
  intros Hws Hshape Hplain Hcontent.
  destruct (renderTable_blocks columnNames tableContent columnWidths
              horizontalAlignment verticalAlignment Hws Hshape Hplain Hcontent)
    as (top & header & middle & blocks & bottom & out & _ & Hheader & _
        & Hblocks & _ & Hout & Hsplit).
  exists out. split; [done|]. rewrite Hsplit.
  apply Forall_cons in Hshape as [Hnames Hshape].
  apply Forall_cons in Hplain as [Hplainn Hplainc].
  assert (Hne : columnWidths ≠ []).
  { intros ->. destruct Hplainn as [_ Hsome].
    destruct columnNames; [by inversion Hsome|done]. }
  assert (Hblock : ∀ row block,
            length row = length columnWidths → plainRow row →
            createMultiLineRows row columnWidths horizontalAlignment
              verticalAlignment = Normal block →
            length (split LF block) = heightOf columnWidths row).
  { intros row block Hrow [Hsingle Hsome] Hb.
    destruct (createMultiLineRows_lines row columnWidths horizontalAlignment
                verticalAlignment Hne Hws Hrow)
      as (cells & lines & Hcells & Hlines & Hheight & _ & Hs & Hn).
    assert (block = join [LF] lines) as -> by congruence.
    rewrite split_join by auto.
    by rewrite Hheight, (splitCells_height row columnWidths cells). }
  rewrite !length_app. simpl.
  rewrite (Hblock columnNames header) by done.
  rewrite length_concat_sum.
  assert (length <$> (split LF <$> blocks)
          = heightOf columnWidths <$> tableContent) as ->; [|lia].
  apply list_eq. intros i. rewrite !list_lookup_fmap.
  destruct (tableContent !! i) as [row|] eqn:Hrow; simpl.
  - destruct (Forall2_lookup_l _ _ _ _ _ Hblocks Hrow) as (block & -> & Hb).
    simpl. f_equal. apply Hblock; [|by eapply Forall_lookup_1 in Hplainc|done].
    by eapply Forall_lookup_1 in Hshape.
  - rewrite (lookup_ge_None_2 blocks); [done|].
    rewrite <- (Forall2_length _ _ _ Hblocks). by apply lookup_ge_None.
Qed.

(** ** A table that fits *)

(** Every text fits in the natural width of its column, with a space on
    each side. *)
Lemma naturalWidths_fit columnNames tableContent :
  Forall (λ row, length row = length columnNames) tableContent →
  Forall (λ row, fitsColumns row (naturalWidths columnNames tableContent))
         (columnNames :: tableContent).
Proof.
  intros Hshape. constructor.
  - apply Forall2_same_length_lookup. split; [by rewrite naturalWidths_length|].
    intros i name w Hname. rewrite (naturalWidths_lookup _ _ _ _ Hname).
    intros [= <-]. destruct (foldl_max_ge (len name + 2)
      ((λ row : list str, len (row !!! i) + 2) <$> tableContent)). lia.
  - apply Forall_forall. intros row Hrow.
    apply Forall2_same_length_lookup. split.
    { rewrite naturalWidths_length. by eapply Forall_forall in Hshape. }
    intros i text w Htext Hw.
    destruct (lookup_lt_is_Some_2 columnNames i) as [name Hname].
    { rewrite <- naturalWidths_length with (tableContent := tableContent).
      by eapply lookup_lt_Some. }
    rewrite (naturalWidths_lookup _ _ _ _ Hname) in Hw. injection Hw as <-.
    destruct (foldl_max_ge (len name + 2)
      ((λ row : list str, len (row !!! i) + 2) <$> tableContent)) as [_ Hall].
    eapply Forall_forall in Hall.
    2:{ apply list_elem_of_fmap. exists row. split; [done|done]. }
    simpl in Hall. rewrite (list_lookup_total_correct _ _ _ Htext) in Hall. lia.
Qed.

Lemma rowHeightOf_le cells n :
  Forall (λ lines : list str, (length lines ≤ n)%nat) cells →
  (rowHeightOf cells ≤ n)%nat.
Proof.
  rewrite rowHeightOf_max. induction 1 as [|lines cells Hl _ IH]; csimpl; lia.
Qed.

(** A plain row whose texts fit in their columns is rendered on one line. *)
Lemma createMultiLineRows_one_line row columnWidths horizontalAlignment
    verticalAlignment :
  Forall (λ w, 3 ≤ w) columnWidths → fitsColumns row columnWidths →
  plainRow row →
  ∃ line, createMultiLineRows row columnWidths horizontalAlignment
            verticalAlignment = Normal line
    ∧ split LF line = [line].
Proof.
  intros Hws Hfit [Hsingle Hsome].
  pose proof (Forall2_length _ _ _ Hfit) as Hlen.
  assert (Hne : columnWidths ≠ []).
  { intros ->. destruct row; [by inversion Hsome|done]. }
  destruct (createMultiLineRows_lines row columnWidths horizontalAlignment
              verticalAlignment Hne Hws Hlen)
    as (cells & lines & Hsplit & Hout & Hheight & _ & Hs & Hn).
  specialize (Hs Hsingle). specialize (Hn Hsome).
  assert (rowHeightOf cells ≤ 1)%nat as Hle.
  { apply rowHeightOf_le, Forall_lookup. intros c cellLines Hc.
    destruct (splitCells_Normal row columnWidths Hws Hlen)
      as (cells' & Hsplit' & Hcl & Hcells).
    assert (cells' = cells) as -> by congruence.
    destruct (lookup_lt_is_Some_2 row c) as [text Ht].
    { rewrite Hlen, <- Hcl. by eapply lookup_lt_Some. }
    destruct (lookup_lt_is_Some_2 columnWidths c) as [w Hw].
    { rewrite <- Hcl. by eapply lookup_lt_Some. }
    destruct (Hcells c text w Ht Hw) as (cellLines' & Hc' & Hslices).
    assert (cellLines' = cellLines) as -> by congruence.
    pose proof (Forall2_lookup_lr _ _ _ _ _ _ Hfit Ht Hw) as Hfits.
    simpl in Hfits. unfold len in Hfits.
    specialize (Hslices 1%nat). unfold sliceAt in Hslices.
    rewrite decide_False in Hslices by lia.
    apply lookup_ge_None in Hslices. lia. }
  destruct lines as [|line [|line' lines]]; [done| |simpl in Hheight; lia].
  exists line. split; [done|]. apply split_singleLine. by inversion Hs.
Qed.

Lemma concat_singletons {A} (l : list (list A)) :
  Forall (λ k, length k = 1%nat) l → length (concat l) = length l.
Proof.
  induction 1 as [|k l Hk _ IH]; [done|]. simpl. rewrite length_app. lia.
Qed.

Section Fits.

Context {Key Value : Type}.
Variable toString : Key → str.
Variable inspect : Value → str.

Local Abbreviation natural items keys options :=
  (naturalWidths (columnNamesOf toString inspect items keys options)
                 (tableContentOf toString inspect items keys options)).

(** X8. Under ['stretch'], when the natural widths (the longest text of
    every column plus two) fit in the budget and nothing is to grow
    ([fullWidth] is off, or no column is narrower than the average width),
    the columns keep their natural widths.  If none of these is below
    three, a table is returned; and if its rows are plain and there is at
    least one item, no text is wrapped: the table has one line for the
    header, one for every item, and the three borders. *)
Theorem createTable_fits items keys options :
  let columnCount := columnCountOf keys options in
  let budget := maxWidth options - columnCount - 1 in
  4 * columnCount + 1 ≤ maxWidth options →
  columnSizing options = stretch →
  sumOf (natural items keys options) ≤ budget →
  fullWidth options = false
  ∨ ¬ Exists (λ w, w < budget `div` columnCount) (natural items keys options) →
  finalWidths toString inspect items keys options
  = Normal (natural items keys options)
  ∧ (Forall (λ w, 3 ≤ w) (natural items keys options) →
     ∃ out, createTable toString inspect items keys options = Normal out
       ∧ (items ≠ [] →
          Forall plainRow (tableRows toString inspect items keys options) →
          length (split LF out) = (4 + length items)%nat)).
Proof.
  intros columnCount budget Hw Hsizing Hfits Hgrow.
  pose proof (finalWidths_natural toString inspect items keys options
                Hsizing Hfits Hgrow) as Hfinal.
  split; [done|]. intros Hwide.
  rewrite createTable_feasible by done. rewrite Hfinal. simpl.
  unfold checkWidths. rewrite decide_False.
  2:{ intros (w & Hin & Hlt)%Exists_exists.
      eapply Forall_forall in Hwide; [|done]. simpl in Hwide. lia. }
  simpl. unfold tableRows, columnNamesOf, tableContentOf in *.
  destruct (tableCells toString inspect items keys (indexColumn options))
    as [[names content] c] eqn:Hcells. simpl in *.
  apply tableCells_shape in Hcells as (_ & Hshape & Hitems).
  assert (Hrows : Forall (λ row, length row
                          = length (naturalWidths names content))
                         (names :: content)).
  { rewrite naturalWidths_length. by constructor. }
  destruct (renderTable_total names content (naturalWidths names content)
              (horizontalAlignment options) (verticalAlignment options))
    as [out Hout]; [done..|].
  exists out. split; [done|]. intros Hne Hplain.
  destruct (renderTable_blocks names content (naturalWidths names content)
              (horizontalAlignment options) (verticalAlignment options))
    as (top & header & middle & blocks & bottom & out' & _ & Hheader & _
        & Hblocks & _ & Hout' & Hsplit);
    [done|done|done|intros ->; by destruct items|].
  assert (out' = out) as -> by congruence. rewrite Hsplit.
  pose proof (naturalWidths_fit names content Hshape) as Hfit.
  apply Forall_cons in Hfit as [Hfitn Hfitc].
  apply Forall_cons in Hplain as [Hplainn Hplainc].
  destruct (createMultiLineRows_one_line names (naturalWidths names content)
              (horizontalAlignment options) (verticalAlignment options))
    as (line & Hline & Hone); [done..|].
  assert (header = line) as -> by congruence. rewrite Hone.
  rewrite !length_app. simpl. rewrite concat_singletons.
  - rewrite length_fmap, <- (Forall2_length _ _ _ Hblocks). lia.
  - apply Forall_fmap, Forall_lookup. intros i block Hblock.
    destruct (Forall2_lookup_r _ _ _ _ _ Hblocks Hblock) as (row & Hrow & Hb).
    destruct (createMultiLineRows_one_line row (naturalWidths names content)
                (horizontalAlignment options) (verticalAlignment options))
      as (line' & Hline' & Hone').
    + done.
    + eapply Forall_lookup_1 in Hfitc; done.
    + eapply Forall_lookup_1 in Hplainc; done.
    + assert (block = line') as -> by congruence. simpl. by rewrite Hone'.
Qed.

(** X9. A column whose name and cells are all empty has the natural width
    two.  Under ['stretch'] without [fullWidth] such a column is never
    widened: a call with such a column returns no table, however large
    [maxWidth] is, and when the natural widths fit in the budget it ends in
    the error of the check after the sizing. *)
Theorem createTable_narrow_column items keys options :
  let columnCount := columnCountOf keys options in
  let budget := maxWidth options - columnCount - 1 in
  4 * columnCount + 1 ≤ maxWidth options →
  columnSizing options = stretch →
  fullWidth options = false →
  Exists (λ w, w < 3) (natural items keys options) →
  (∀ out, createTable toString inspect items keys options ≠ Normal out)
  ∧ (sumOf (natural items keys options) ≤ budget →
     createTable toString inspect items keys options
     = Throw (Error bugReportMessage)).
Proof.
  intros columnCount budget Hw Hsizing Hfull Hnarrow. split.
  - intros out Hout.
    destruct (finalWidths toString inspect items keys options)
      as [ws|e| |] eqn:Hfinal;
      [|rewrite createTable_feasible, Hfinal in Hout by done; done..].
    destruct (createTable_post_check toString inspect items keys options ws)
      as [Hthrow _]; [done..| |congruence].
    destruct (finalWidths_sizeColumns toString inspect items keys options)
      as [Hsize Hlen].
    rewrite Hsize in Hfinal. clear Hsize. fold columnCount budget in Hfinal, Hlen.
    set (widths := natural items keys options) in *. clearbody widths.
    unfold sizeColumns in Hfinal. rewrite Hsizing, Hfull in Hfinal.
    apply bind_Normal in Hfinal as ([ws' o] & H1 & H2).
    assert (ws' = ws) as ->.
    { destruct o; simpl in H2; by injection H2. }
    clear H2. destruct (0 <? sumOf widths - budget);
      [|by injection H1 as <- <-].
    apply bind_Normal in H1 as (ws' & Hshrink & [= -> _]).
    rewrite shrinkColumns_walk in Hshrink. unfold shrinkSpec in Hshrink.
    change (fsub (of_int 1) (fdiv (of_int ?o) (of_int ?e))) with (shrinkFactorOf o e) in Hshrink.
    apply Exists_exists in Hnarrow as (w & [i Hi]%list_elem_of_lookup_1 & Hlt).
    assert (3 ≤ budget `div` len widths) as Havg.
    { apply Z.div_le_lower_bound.
      - apply lookup_lt_Some in Hi. unfold len. lia.
      - unfold budget. lia. }
    destruct (shrinkWalk_columns _ _ _ _ _ Hshrink i w Hi) as [Hkeep _].
    apply Exists_exists. exists w. split; [|done].
    eapply list_elem_of_lookup_2. apply Hkeep. lia.
  - intros Hfits.
    pose proof (finalWidths_natural toString inspect items keys options
                  Hsizing Hfits (or_introl Hfull)) as Hfinal.
    by destruct (createTable_post_check toString inspect items keys options
                   (natural items keys options)).
Qed.

(** X10. One column too wide.  Under ['stretch'], when the natural widths
    overflow the budget and a single column is wider than the average width
    [floor(budget / columnCount)], that column gives up the whole overflow
    and every other column keeps its natural width; the total is the
    budget.  If no other column is narrower than three, the call returns a
    table. *)
Theorem createTable_one_wide_column items keys options before wide after :
  let columnCount := columnCountOf keys options in
  let budget := maxWidth options - columnCount - 1 in
  let averageWidth := budget `div` columnCount in
  4 * columnCount + 1 ≤ maxWidth options →
  columnSizing options = stretch →
  natural items keys options = before ++ wide :: after →
  Forall (λ w, w ≤ averageWidth) (before ++ after) →
  budget < sumOf (before ++ wide :: after) →
  finalWidths toString inspect items keys options
  = Normal (before ++ budget - sumOf before - sumOf after :: after)
  ∧ (Forall (λ w, 3 ≤ w) (before ++ after) →
     ∃ out, createTable toString inspect items keys options = Normal out).
Proof.
  intros columnCount budget averageWidth Hw Hsizing Hnatural Hothers Hover.
  destruct (finalWidths_sizeColumns toString inspect items keys options)
    as [Hsize Hlen].
  rewrite Hnatural in Hsize, Hlen. fold columnCount budget in Hsize, Hlen.
  apply Forall_app in Hothers as [Hbefore Hafter].
  assert (Hnone : ∀ l, Forall (λ w, w ≤ averageWidth) l →
            ¬ Exists (λ w, averageWidth < w) l).
  { intros l Hl (w & Hin & Hlt)%Exists_exists.
    eapply Forall_forall in Hl; [|done]. simpl in Hl. lia. }
  assert (0 < columnCount) as Hpos.
  { rewrite <- Hlen. unfold len. rewrite length_app. simpl. lia. }
  assert (averageWidth * columnCount ≤ budget) as Havg.
  { unfold averageWidth. pose proof (Z.mul_div_le budget columnCount Hpos). lia. }
  assert (sumOf before + sumOf after ≤ averageWidth * (columnCount - 1)) as Hsum.
  { pose proof (sum_le_max before averageWidth Hbefore).
    pose proof (sum_le_max after averageWidth Hafter).
    rewrite <- Hlen. unfold len in *. rewrite length_app. simpl length. nia. }
  rewrite sum_app, sum_cons in Hover.
  assert (averageWidth < wide) as Hwide by nia.
  assert (Hfinal : finalWidths toString inspect items keys options
                   = Normal (before ++ budget - sumOf before - sumOf after :: after)).
  { rewrite Hsize. unfold sizeColumns. rewrite Hsizing.
    rewrite sum_app, sum_cons.
    replace (0 <? sumOf before + (wide + sumOf after) - budget) with true
      by (symmetry; apply Z.ltb_lt; lia).
    rewrite shrinkColumns_walk. unfold shrinkSpec.
    change (fsub (of_int 1) (fdiv (of_int ?o) (of_int ?e))) with (shrinkFactorOf o e). rewrite Hlen.
    fold averageWidth. rewrite shrinkWalk_one_big by auto. simpl.
    rewrite andb_false_r. do 3 f_equal. lia. }
  split; [done|]. intros Hwidths.
  rewrite createTable_feasible by done. rewrite Hfinal. simpl.
  assert (3 ≤ averageWidth) as Hthree.
  { unfold averageWidth. apply Z.div_le_lower_bound; unfold budget; lia. }
  unfold checkWidths. rewrite decide_False.
  2:{ intros (w & Hin & Hlt)%Exists_exists.
      apply elem_of_app in Hin as [Hin|[->|Hin]%elem_of_cons].
      - eapply Forall_forall in Hwidths; [|apply elem_of_app; by left].
        simpl in Hwidths. lia.
      - nia.
      - eapply Forall_forall in Hwidths; [|apply elem_of_app; by right].
        simpl in Hwidths. lia. }
  simpl. apply renderTable_total.
  - apply Forall_app in Hwidths as [Hb Ha]. apply Forall_app. split; [done|].
    constructor; [nia|done].
  - pose proof (tableCells_shape toString inspect items keys
                  (indexColumn options)) as Hshape.
    assert (length (before ++ budget - sumOf before - sumOf after :: after)
            = length (natural items keys options)) as ->
      by (rewrite Hnatural, !length_app; done).
    unfold columnNamesOf, tableContentOf.
    destruct (tableCells _ _ _ _ _) as [[names content] c]. simpl.
    destruct (Hshape names content c eq_refl) as (_ & Hrows & _).
    rewrite naturalWidths_length. by constructor.
Qed.

End Fits.

(** ** How a call ends *)

Lemma longestOf_bounds texts :
  0 ≤ longestOf texts ∧ Forall (λ text, len text ≤ longestOf texts) texts.
Proof.
  unfold longestOf. induction texts as [|text texts [IH0 IH]]; simpl.
  - split; [done|constructor].
  - split; [unfold len in *; lia|]. constructor; [lia|].
    eapply Forall_impl; [done|]. simpl. intros x Hx.
    etrans; [exact Hx|apply Z.le_max_r].
Qed.

Lemma foldl_max_le x l b :
  x ≤ b → Forall (λ y, y ≤ b) l → foldl Z.max x l ≤ b.
Proof.
  intros Hx Hl. revert x Hx.
  induction Hl as [|y l Hy _ IH]; intros x Hx; simpl; [done|].
  apply IH. lia.
Qed.

(** No column is wider, before the sizing, than the longest text and its
    two spaces. *)
Lemma naturalWidths_longest columnNames tableContent :
  Forall (λ w, w ≤ longestOf (columnNames ++ concat tableContent) + 2)
         (naturalWidths columnNames tableContent).
Proof.
  destruct (longestOf_bounds (columnNames ++ concat tableContent))
    as [H0 Hall].
  apply Forall_app in Hall as [Hnames Hcells].
  apply Forall_lookup. intros i w Hw.
  destruct (lookup_lt_is_Some_2 columnNames i) as [name Hname].
  { rewrite <- naturalWidths_length with (tableContent := tableContent).
    by eapply lookup_lt_Some. }
  rewrite (naturalWidths_lookup _ _ _ _ Hname) in Hw. injection Hw as <-.
  apply foldl_max_le.
  - eapply Forall_lookup_1 in Hnames; [|done]. simpl in Hnames. lia.
  - apply Forall_fmap, Forall_forall. intros row Hrow. simpl.
    rewrite list_lookup_total_alt.
    destruct (row !! i) as [text|] eqn:Htext; simpl; [|unfold len; simpl; lia].
    eapply Forall_forall in Hcells.
    + simpl in Hcells. apply Z.add_le_mono_r, Hcells.
    + apply list_elem_of_In, in_concat. exists row.
      split; apply list_elem_of_In; [done|by eapply list_elem_of_lookup_2].
Qed.

Section Outcomes.

Context {Key Value : Type}.
Variable toString : Key → str.
Variable inspect : Value → str.

Local Abbreviation capacity items keys options :=
  (withinCapacity (columnNamesOf toString inspect items keys options)
                  (tableContentOf toString inspect items keys options)
                  (maxWidth options)).

(** Within the capacity of an engine the sizing, for a strategy that is
    known, completes with integer widths: no quotient, factor or product of
    [shrinkColumns] and [growColumns] is a NaN or an infinity. *)
Lemma finalWidths_capacity items keys options :
  capacity items keys options →
  4 * columnCountOf keys options + 1 ≤ maxWidth options →
  columnSizing options = stretch ∨ columnSizing options = even →
  ∃ columnWidths,
    finalWidths toString inspect items keys options = Normal columnWidths.
Proof.
  intros (Hitems & Hcolumns & Hlongest & Hsize) Hw Hsizing.
  pose proof (tableCells_shape toString inspect items keys
                (indexColumn options)) as Hshape.
  pose proof (tableCells_columnCount toString inspect items keys options) as Hc.
  pose proof (naturalWidths_longest
                (columnNamesOf toString inspect items keys options)
                (tableContentOf toString inspect items keys options)) as Hnat.
  destruct (longestOf_bounds
              (columnNamesOf toString inspect items keys options
               ++ concat (tableContentOf toString inspect items keys options)))
    as [Hl0 _].
  unfold columnNamesOf, tableContentOf in *.
  destruct (tableCells _ _ _ _ _) as [[names content] c] eqn:Hcells.
  simpl in *. subst c.
  destruct (Hshape names content _ eq_refl) as (Hcount & _ & _).
  assert (0 ≤ len content) by (unfold len; lia).
  assert (0 ≤ columnCountOf keys options) by (unfold len in *; lia).
  apply finalWidths_total; [|done|].
  - split; [done|]. assert (maxWidth options + 1 < 2 ^ 24); [nia|lia].
  - unfold columnNamesOf, tableContentOf. rewrite Hcells. simpl.
    eapply Forall_impl; [exact Hnat|]. simpl. intros w Hle.
    assert (w * columnCountOf keys options < 2 ^ 15 * 2 ^ 14); [|lia].
    destruct (decide (0 ≤ w)); [|nia].
    apply Z.mul_lt_mono_nonneg; unfold len in *; lia.
Qed.

(** After a sizing that completes, a call of sufficient width returns a
    table when no width is below three, and throws the error of the check
    after the sizing when one is. *)
Lemma createTable_after_sizing items keys options columnWidths :
  4 * columnCountOf keys options + 1 ≤ maxWidth options →
  finalWidths toString inspect items keys options = Normal columnWidths →
  (Forall (λ w, 3 ≤ w) columnWidths
   ∧ ∃ out, createTable toString inspect items keys options = Normal out)
  ∨ (Exists (λ w, w < 3) columnWidths
     ∧ createTable toString inspect items keys options
       = Throw (Error bugReportMessage)).
Proof.
  intros Hw Hws. rename columnWidths into ws.
  destruct (decide (Exists (λ w, w < 3) ws)) as [Hex|Hex].
  - right. split; [done|].
    by destruct (createTable_post_check toString inspect items keys options ws);
      [lia|..].
  - left. assert (Forall (λ w, 3 ≤ w) ws) as Hall.
    { apply Forall_forall. intros w Hin. destruct (decide (3 ≤ w)); [done|].
      destruct Hex. apply Exists_exists. exists w. split; [done|lia]. }
    split; [done|]. rewrite createTable_feasible by lia. rewrite Hws. simpl.
    unfold checkWidths. rewrite decide_False by done. simpl.
    apply renderTable_total; [done|].
    destruct (finalWidths_within_maxWidth toString inspect items keys options
                ws ltac:(lia) Hws) as [Hwl _].
    pose proof (tableCells_shape toString inspect items keys
                  (indexColumn options)) as Hshape.
    pose proof (tableCells_columnCount toString inspect items keys options)
      as Hc.
    unfold columnNamesOf, tableContentOf.
    destruct (tableCells _ _ _ _ _) as [[names content] c]. simpl in *.
    destruct (Hshape names content c eq_refl) as (Hcount & Hrows & _).
    assert (length names = length ws) as Heq by (unfold len in *; lia).
    constructor; [done|]. eapply Forall_impl; [done|]. simpl. congruence.
Qed.

(** X1. How a call within the capacity of an engine ends.  It returns a
    string or throws one of the three errors that the source constructs,
    each under its own condition: the error of the feasibility check when
    [maxWidth] is below [4 * columnCount + 1] and [throwIfTooSmall] is set;
    the error of the [default] branch when the width suffices and the
    strategy is neither ['stretch'] nor ['even']; the error of the check
    after the sizing when the width suffices and the sizing left a column
    narrower than three.  It does not loop, its sizing does not leave the
    integers, and no error of the runtime (a [RangeError] of [repeat], a
    [TypeError] on [undefined]) comes out of it.  A strategy that is not
    known always ends a call of sufficient width in its error. *)
Theorem createTable_errors items keys options :
  let columnCount := columnCountOf keys options in
  let result := createTable toString inspect items keys options in
  capacity items keys options →
  ((∃ out, result = Normal out) ∨ (∃ message, result = Throw (Error message)))
  ∧ (∀ e, result = Throw e →
       (e = Error (tooSmallMessage columnCount (maxWidth options))
        ∧ maxWidth options < 4 * columnCount + 1
        ∧ throwIfTooSmall options = true)
       ∨ (∃ name, e = Error (unknownSizingMessage name)
            ∧ columnSizing options = unknownSizing name
            ∧ 4 * columnCount + 1 ≤ maxWidth options)
       ∨ (e = Error bugReportMessage
          ∧ 4 * columnCount + 1 ≤ maxWidth options
          ∧ ∃ columnWidths,
              finalWidths toString inspect items keys options = Normal columnWidths
              ∧ Exists (λ w, w < 3) columnWidths))
  ∧ (∀ name, columnSizing options = unknownSizing name →
       4 * columnCount + 1 ≤ maxWidth options →
       result = Throw (Error (unknownSizingMessage name))).
Proof.
  intros columnCount result Hcapacity.
  assert (Hunknown : ∀ name, columnSizing options = unknownSizing name →
            4 * columnCount + 1 ≤ maxWidth options →
            result = Throw (Error (unknownSizingMessage name))).
  { intros name Hname Hw. unfold result.
    rewrite createTable_feasible by done. unfold finalWidths.
    destruct (tableCells _ _ _ _ _) as [[names content] c].
    unfold sizeColumns. by rewrite Hname. }
  split; [|split; [|done]].
  - destruct (createTable_outcomes toString inspect items keys options)
      as [Hout|[Hthrow|Hn]]; [by left|by right|exfalso].
    fold result in Hn.
    destruct (decide (4 * columnCount + 1 ≤ maxWidth options)) as [Hw|Hw].
    + destruct (columnSizing options) as [| |name] eqn:Hsizing.
      * destruct (finalWidths_capacity items keys options Hcapacity Hw)
          as [ws Hws]; [by left|].
        destruct (createTable_after_sizing items keys options ws Hw Hws)
          as [[_ [out Hout]]|[_ Hthrow]]; unfold result in Hn; congruence.
      * destruct (finalWidths_capacity items keys options Hcapacity Hw)
          as [ws Hws]; [by right|].
        destruct (createTable_after_sizing items keys options ws Hw Hws)
          as [[_ [out Hout]]|[_ Hthrow]]; unfold result in Hn; congruence.
      * rewrite (Hunknown name eq_refl Hw) in Hn. done.
    + pose proof (tableCells_columnCount toString inspect items keys options) as Hc.
      unfold result, createTable, layoutTable in Hn.
      destruct (tableCells _ _ _ _ _) as [[names content] c]. simpl in Hc. subst c.
      fold columnCount in Hn.
      replace (maxWidth options <? 4 * columnCount + 1) with true in Hn
        by (symmetry; apply Z.ltb_lt; lia).
      by destruct (throwIfTooSmall options).
  - intros e He. unfold result in He.
    destruct (decide (4 * columnCount + 1 ≤ maxWidth options)) as [Hw|Hw].
    + right. rewrite createTable_feasible in He by done.
      destruct (finalWidths toString inspect items keys options)
        as [ws|e'| |] eqn:Hfinal; simpl in He; try done.
      * right. unfold checkWidths in He. case_decide as Hex; simpl in He.
        -- injection He as <-. split; [done|]. split; [done|]. by exists ws.
        -- exfalso.
           pose proof (throwsOnly_renderTable _ _ _ _ _ _ He) as Hruntime.
           destruct (createTable_outcomes toString inspect items keys options)
             as [[out Hout]|[[message Hm]|Hn]];
             rewrite createTable_feasible in * by done;
             rewrite Hfinal in *; simpl in *; unfold checkWidths in *;
             rewrite decide_False in * by done; simpl in *;
             try congruence.
           rewrite He in Hm. injection Hm as ->. done.
      * left. injection He as ->. unfold finalWidths in Hfinal.
        destruct (tableCells _ _ _ _ _) as [[names content] c].
        apply sizeColumns_Throw in Hfinal as (name & Hname & ->).
        by exists name.
    + left.
      pose proof (tableCells_columnCount toString inspect items keys options) as Hc.
      unfold createTable, layoutTable in He.
      destruct (tableCells _ _ _ _ _) as [[names content] c]. simpl in Hc. subst c.
      fold columnCount in He.
      replace (maxWidth options <? 4 * columnCount + 1) with true in He
        by (symmetry; apply Z.ltb_lt; lia).
      destruct (throwIfTooSmall options); [|done].
      injection He as <-. split; [done|]. split; [lia|done].
Qed.

(** X21. A call within the capacity of an engine, of sufficient width and
    with a strategy that is known, ends in one of two ways.  Its sizing
    completes with integer widths; then it returns a table, laid out with
    widths none of which is below three, or a width is below three and it
    throws the error of the check after the sizing. *)
Theorem createTable_total items keys options :
  capacity items keys options →
  4 * columnCountOf keys options + 1 ≤ maxWidth options →
  columnSizing options = stretch ∨ columnSizing options = even →
  ∃ columnWidths,
    finalWidths toString inspect items keys options = Normal columnWidths
    ∧ ((Forall (λ w, 3 ≤ w) columnWidths
        ∧ ∃ out, createTable toString inspect items keys options = Normal out)
       ∨ (Exists (λ w, w < 3) columnWidths
          ∧ createTable toString inspect items keys options
            = Throw (Error bugReportMessage))).
Proof.
  intros Hcapacity Hw Hsizing.
  destruct (finalWidths_capacity items keys options Hcapacity Hw Hsizing)
    as [ws Hws].
  exists ws. split; [done|].
  by apply createTable_after_sizing.
Qed.

End Outcomes.

(** ** Tables without rows, without columns, and at the minimum width *)

Lemma join_empty_lines n : join [LF] (replicate n []) = replicate (n - 1) LF.
Proof.
  induction n as [|n IH]; [done|]. destruct n as [|n]; [done|].
  change (replicate (Datatypes.S (Datatypes.S n)) ([] : str))
    with ([] :: replicate (Datatypes.S n) ([] : str)).
  rewrite join_cons by done. rewrite IH. simpl. by rewrite Nat.sub_0_r.
Qed.

Lemma createTableRows_no_columns (tableContent : list (list str))
    horizontalAlignment verticalAlignment :
  createTableRows tableContent [] horizontalAlignment verticalAlignment
  = Normal (replicate (length tableContent - 1) LF).
Proof.
  unfold createTableRows.
  assert (mapM (λ row, createMultiLineRows row [] horizontalAlignment
                         verticalAlignment) tableContent
          = Normal (replicate (length tableContent) [])) as ->.
  { induction tableContent as [|row content IH]; [done|].
    simpl. rewrite IH. done. }
  simpl. by rewrite join_empty_lines.
Qed.

Section Edges.

Context {Key Value : Type}.
Variable toString : Key → str.
Variable inspect : Value → str.

(** X11. A table without items: when the call returns, its result is the
    top border, the header rows with the middle line, an empty line where
    the data rows would be, and the bottom border. *)
Theorem createTable_no_items keys options out :
  4 * columnCountOf keys options + 1 ≤ maxWidth options →
  createTable toString inspect [] keys options = Normal out →
  ∃ columnWidths top names bottom,
    finalWidths toString inspect [] keys options = Normal columnWidths
    ∧ createTableTop columnWidths = Normal top
    ∧ createTableColumnNames (columnNamesOf toString inspect [] keys options)
        columnWidths (horizontalAlignment options) (verticalAlignment options)
      = Normal names
    ∧ createTableBottom columnWidths = Normal bottom
    ∧ out = top ++ [LF] ++ names ++ [LF; LF] ++ bottom.
Proof.
  intros Hw Hout. rewrite createTable_feasible in Hout by done.
  apply bind_Normal in Hout as (ws & Hfinal & Hout).
  apply bind_Normal in Hout as (u & _ & Hout).
  assert (tableContentOf toString inspect [] keys options = []) as Hcontent.
  { unfold tableContentOf, tableCells. by destruct (indexColumn options). }
  rewrite Hcontent in Hout. unfold renderTable in Hout.
  apply bind_Normal in Hout as (top & Htop & Hout).
  apply bind_Normal in Hout as (names & Hnames & Hout).
  apply bind_Normal in Hout as (rows & Hrows & Hout).
  apply bind_Normal in Hout as (bottom & Hbottom & [= <-]).
  injection Hrows as <-.
  exists ws, top, names, bottom. by do 4 (split; [done|]).
Qed.

(** X12. A table without columns (no key, no index column): for every list
    of items and every [maxWidth] of at least one, under both strategies
    and whatever [fullWidth] is, the call returns the two corners of the top
    border, an empty header line, the two ends of the middle line, an empty
    line for every item (one when there is no item), and the two corners of
    the bottom border. *)
Theorem createTable_no_columns items options :
  indexColumn options = false →
  1 ≤ maxWidth options →
  columnSizing options = stretch ∨ columnSizing options = even →
  createTable toString inspect items [] options
  = Normal ([TOP_LEFT; TOP_RIGHT; LF; LF; LEFT_MIDDLE; RIGHT_MIDDLE; LF]
            ++ replicate (length items - 1) LF
            ++ [LF; BOTTOM_LEFT; BOTTOM_RIGHT]).
Proof.
  intros Hindex Hw Hsizing. unfold createTable, tableCells. rewrite Hindex.
  unfold layoutTable. simpl. change (len (@nil Key)) with 0.
  replace (maxWidth options <? 4 * 0 + 1) with false
    by (symmetry; apply Z.ltb_ge; lia).
  change (naturalWidths [] ((λ _ : Key → Value, []) <$> items)) with (@nil Z).
  assert (sizeColumns (columnSizing options) (fullWidth options) 0
            (maxWidth options - 0 - 1) ((maxWidth options - 0 - 1) `div` 0) []
          = Normal []) as ->.
  { unfold sizeColumns. destruct Hsizing as [-> | ->]; [|done].
    rewrite sum_nil.
    replace (0 <? 0 - (maxWidth options - 0 - 1)) with false
      by (symmetry; apply Z.ltb_ge; lia).
    simpl. by destruct (fullWidth options && _). }
  simpl. unfold renderTable.
  rewrite createTableRows_no_columns. simpl. by rewrite length_fmap.
Qed.

(** X13. At the minimum width: when [maxWidth] is exactly
    [4 * columnCount + 1] and every column has a natural width of at least
    three (a name or a cell that is not empty), both strategies give every
    column the width three and the call returns a table.  (The natural
    widths are taken in the range of the integers that a double holds
    exactly.) *)
Theorem createTable_minimum_all_three items keys options :
  let columnCount := columnCountOf keys options in
  let natural := naturalWidths (columnNamesOf toString inspect items keys options)
                   (tableContentOf toString inspect items keys options) in
  maxWidth options = 4 * columnCount + 1 →
  columnSizing options = stretch ∨ columnSizing options = even →
  Forall (λ w, 3 ≤ w ∧ w * columnCount < 2 ^ 53) natural →
  finalWidths toString inspect items keys options = Normal ((λ _, 3) <$> natural)
  ∧ ∃ out, createTable toString inspect items keys options = Normal out.
Proof. apply createTable_at_minimum. Qed.

(** X14. The cells that lines 30 to 38 build are a rectangle: as many names
    as [columnCount], one row for every item, and [columnCount] cells in
    every row; cell [j] of row [i] is [inspect] of field [keys[j]] of
    [items[i]] under the name [keys[j].toString()], one place to the right
    when the index column is there, which is then named ["(index)"] and
    holds the index of the row in decimal. *)
Theorem tableCells_rectangular items keys options :
  let columnNames := columnNamesOf toString inspect items keys options in
  let tableContent := tableContentOf toString inspect items keys options in
  let offset := if indexColumn options then 1%nat else 0%nat in
  len columnNames = columnCountOf keys options
  ∧ length tableContent = length items
  ∧ Forall (λ row, len row = columnCountOf keys options) tableContent
  ∧ (∀ j key, keys !! j = Some key →
       columnNames !! (offset + j)%nat = Some (toString key))
  ∧ (∀ i item j key, items !! i = Some item → keys !! j = Some key →
       tableContent !! i ≫= (λ row, row !! (offset + j)%nat)
       = Some (inspect (item key)))
  ∧ (indexColumn options = true →
       columnNames !! 0%nat = Some (lit "(index)")
       ∧ ∀ i item, items !! i = Some item →
           tableContent !! i ≫= (λ row, row !! 0%nat)
           = Some (Number_toString (Z.of_nat i))).
Proof.
  intros columnNames tableContent offset.
  pose proof (tableCells_columnCount toString inspect items keys options) as Hc.
  pose proof (tableCells_shape toString inspect items keys (indexColumn options))
    as Hshape.
  subst columnNames tableContent offset. unfold columnNamesOf, tableContentOf.
  destruct (tableCells _ _ _ _ _) as [[names content] c] eqn:Hcells.
  simpl in Hc |- *. subst c.
  destruct (Hshape names content _ eq_refl) as (Hcount & Hrows & Hitems).
  split; [done|]. split; [done|]. split.
  { eapply Forall_impl; [done|]. intros row Hrow. simpl in *.
    unfold len in *. lia. }
  unfold tableCells in Hcells. destruct (indexColumn options);
    injection Hcells as <- <- _.
  - split; [|split].
    + intros j key Hkey. simpl. by rewrite list_lookup_fmap, Hkey.
    + intros i item j key Hitem Hkey. rewrite list_lookup_imap.
      rewrite list_lookup_fmap, Hitem. simpl.
      by rewrite list_lookup_fmap, Hkey.
    + intros _. split; [done|]. intros i item Hitem. rewrite list_lookup_imap.
      by rewrite list_lookup_fmap, Hitem.
  - split; [|split; [|done]].
    + intros j key Hkey. simpl. by rewrite list_lookup_fmap, Hkey.
    + intros i item j key Hitem Hkey. rewrite list_lookup_fmap, Hitem. simpl.
      by rewrite list_lookup_fmap, Hkey.
Qed.

End Edges.

(** ** Cells, rows and borders *)

(** X15. The number of lines of a cell.  In a column at least three wide a
    text of [n] code units is cut into [ceil(n / innerWidth)] lines, with
    [innerWidth = columnWidth - 2]: every line but the last is full, and the
    last holds what remains. *)
Theorem cellLines_count text columnWidth :
  3 ≤ columnWidth →
  let innerWidth := columnWidth - 2 in
  ∃ lines, cellLines text columnWidth = Normal lines
    ∧ len lines = (len text + innerWidth - 1) `div` innerWidth
    ∧ (∀ i line, lines !! i = Some line → (i + 1 < length lines)%nat →
         len line = innerWidth)
    ∧ (∀ line, last lines = Some line →
         len line = len text - (len lines - 1) * innerWidth).
Proof.
  intros Hw innerWidth.
  destruct (cellLinesLoop_exits (Datatypes.S (length text)) text columnWidth Hw)
    as (lines & Hlines & Hs); [lia|].
  exists lines. split; [done|].
  set (k := Z.to_nat (columnWidth - 2)) in *.
  assert (Hk : Z.of_nat k = innerWidth) by (unfold k, innerWidth; lia).
  destruct (sliceAt_lines k text lines) as (_ & _ & Hu & Hlo); [lia|done|].
  assert (Hline : ∀ i line, lines !! i = Some line →
            length line = (k `min` (length text - i * k))%nat).
  { intros i line Hi. rewrite Hs in Hi. unfold sliceAt in Hi.
    case_decide; [|done]. injection Hi as <-.
    by rewrite length_take, length_drop. }
  apply Nat2Z.inj_lt in Hu. apply Nat2Z.inj_le in Hlo.
  rewrite Nat2Z.inj_add, Nat2Z.inj_mul, Hk in Hu.
  rewrite Nat2Z.inj_mul, Hk in Hlo.
  split; [|split].
  - unfold len.
    apply Z.div_unique with
      (r := Z.of_nat (length text) + innerWidth - 1
            - innerWidth * Z.of_nat (length lines)); lia.
  - intros i line Hi Hlast. unfold len. rewrite (Hline i line Hi).
    assert ((i + 1) * k ≤ (length lines - 1) * k)%nat
      by (apply Nat.mul_le_mono_r; lia).
    assert (Z.of_nat ((length lines - 1) * k)
            = (Z.of_nat (length lines) - 1) * innerWidth)
      by (rewrite Nat2Z.inj_mul, Nat2Z.inj_sub, Hk by lia; done).
    assert (Z.of_nat ((i + 1) * k) = Z.of_nat (i * k) + innerWidth)
      by (rewrite !Nat2Z.inj_mul, Nat2Z.inj_add, Hk; lia).
    lia.
  - intros line Hlast. rewrite last_lookup in Hlast.
    unfold len. rewrite (Hline _ line Hlast).
    assert (0 < length lines)%nat
      by (apply lookup_lt_Some in Hlast; lia).
    replace (Init.Nat.pred (length lines)) with (length lines - 1)%nat by lia.
    assert (Z.of_nat ((length lines - 1) * k)
            = (Z.of_nat (length lines) - 1) * innerWidth)
      by (rewrite Nat2Z.inj_mul, Nat2Z.inj_sub, Hk by lia; done).
    lia.
Qed.

Lemma imapM_Diverge {A B} (f : nat → A → completion B) l c x :
  l !! c = Some x → f c x = Diverge →
  (∀ i y, (i < c)%nat → l !! i = Some y → ∃ z, f i y = Normal z) →
  imapM f l = Diverge.
Proof.
  revert f c. induction l as [|y l IH]; intros f c Hc Hf Hbefore; [done|].
  rewrite imapM_cons. destruct c as [|c]; simpl in Hc.
  - injection Hc as ->. by rewrite Hf.
  - destruct (Hbefore 0%nat y) as [z ->]; [lia|done|]. simpl.
    rewrite (IH (λ i, f (Datatypes.S i)) c); [done|done|done|].
    intros i y' Hi Hy'. apply (Hbefore (Datatypes.S i) y'); [lia|done].
Qed.

(** X16. A column narrower than three.  On a text that is not empty the
    loop that cuts a cell into lines never exits: the slices it takes are
    empty, or leave the last code unit in place.  [createMultiLineRows]
    therefore never returns on a row with such a cell, when the columns to
    its left are at least three wide. *)
Theorem createMultiLineRows_never_exits cell columnWidth :
  columnWidth ≤ 2 → cell ≠ [] →
  (∀ fuel, cellLinesLoop fuel cell columnWidth = Diverge)
  ∧ ∀ row columnWidths c horizontalAlignment verticalAlignment,
      row !! c = Some cell → columnWidths !! c = Some columnWidth →
      Forall (λ w, 3 ≤ w) (take c columnWidths) →
      createMultiLineRows row columnWidths horizontalAlignment
        verticalAlignment = Diverge.
Proof.
  intros Hw Hcell. split.
  - intros fuel. by apply cellLinesLoop_never_exits.
  - intros row ws c ha va Hrow Hc Hleft. unfold createMultiLineRows, splitCells.
    rewrite (imapM_Diverge _ ws c columnWidth); [done|done| |].
    + rewrite Hrow. by apply cellLinesLoop_never_exits.
    + intros i w Hi Hwi.
      destruct (lookup_lt_is_Some_2 row i) as [text ->].
      { apply lookup_lt_Some in Hrow. lia. }
      destruct (cellLinesLoop_exits (Datatypes.S (length text)) text w)
        as (lines & Hlines & _); [|lia|by exists lines].
      eapply Forall_lookup_1 in Hleft; [done|].
      by rewrite lookup_take_lt.
Qed.

(** X17. [centerText].  A text that, once trimmed, fits in the width is put
    between [floor((width - n) / 2)] spaces on its left and the remaining
    spaces on its right, so that the odd space, if any, is on the right.  A
    text that does not fit makes [repeat] throw a [RangeError]. *)
Theorem centerText_spec text width :
  let trimmed := trim text in
  let padding := (width - len trimmed) `div` 2 in
  (len trimmed ≤ width →
   centerText (Some text) width
   = Normal (replicate (Z.to_nat padding) SPACE ++ trimmed
             ++ replicate (Z.to_nat (width - len trimmed - padding)) SPACE)
   ∧ 0 ≤ padding ≤ width - len trimmed - padding ≤ padding + 1)
  ∧ (width < len trimmed →
     ∃ message, centerText (Some text) width = Throw (RangeError message)).
Proof.
  intros trimmed padding. unfold centerText. fold trimmed. fold padding. split.
  - intros Hfit.
    assert (0 ≤ padding ≤ width - len trimmed - padding ≤ padding + 1) as Hp.
    { unfold padding.
      pose proof (Z.div_mod (width - len trimmed) 2 ltac:(lia)).
      pose proof (Z.mod_pos_bound (width - len trimmed) 2 ltac:(lia)). lia. }
    split; [|done]. rewrite String_repeat_unit by lia. simpl.
    unfold padEnd. rewrite <- app_assoc. do 3 f_equal.
    rewrite length_app, length_replicate. f_equal. unfold len in *. lia.
  - intros Hlong. unfold String_repeat.
    replace (padding <? 0) with true; [by eexists|].
    symmetry. apply Z.ltb_lt. unfold padding.
    apply Z.div_lt_upper_bound; lia.
Qed.

Lemma fitting_cell text w (lines : list str) :
  3 ≤ w → len text ≤ w - 2 →
  (∀ j, lines !! j = sliceAt (Z.to_nat (w - 2)) text j) →
  lines = if decide (text = []) then [] else [text].
Proof.
  intros Hw Hfit Hlines. unfold len in Hfit. apply list_eq. intros j.
  rewrite Hlines. unfold sliceAt. destruct j as [|j].
  - destruct (decide (text = [])) as [->|Ht].
    + by rewrite decide_False by (simpl; lia).
    + rewrite decide_True by (destruct text; [done|simpl; lia]).
      simpl. rewrite drop_0, take_ge by lia. done.
  - rewrite decide_False by (simpl; nia). by destruct (decide (text = [])).
Qed.

(** X22. A row that fits is rendered as it is.  When every column is at
    least three wide, every text of the row fits in its column and not all
    texts are empty, the block of the row is the one line that [createRow]
    makes of the texts themselves, whatever the vertical alignment. *)
Theorem createMultiLineRows_fits row columnWidths horizontalAlignment
    verticalAlignment :
  Forall (λ w, 3 ≤ w) columnWidths → fitsColumns row columnWidths →
  Exists (λ text, text ≠ []) row →
  createMultiLineRows row columnWidths horizontalAlignment verticalAlignment
  = createRow row columnWidths horizontalAlignment.
Proof.
  intros Hws Hfit Hsome.
  pose proof (Forall2_length _ _ _ Hfit) as Hlen.
  destruct (splitCells_Normal row columnWidths Hws Hlen)
    as (cells & Hsplit & Hcl & Hcells).
  assert (Hcell : ∀ c text, row !! c = Some text →
            cells !! c = Some (if decide (text = []) then [] else [text])).
  { intros c text Ht.
    destruct (lookup_lt_is_Some_2 columnWidths c) as [w Hw].
    { rewrite <- Hlen. by eapply lookup_lt_Some. }
    destruct (Hcells c text w Ht Hw) as (lines & Hc & Hslices).
    rewrite Hc. f_equal. apply (fitting_cell text w); [| |done].
    - by eapply Forall_lookup_1 in Hws.
    - by pose proof (Forall2_lookup_lr _ _ _ _ _ _ Hfit Ht Hw). }
  assert (Hheight : rowHeightOf cells = 1%nat).
  { apply Nat.le_antisymm.
    - apply rowHeightOf_le, Forall_lookup. intros c lines Hc.
      destruct (lookup_lt_is_Some_2 row c) as [text Ht].
      { rewrite Hlen, <- Hcl. by eapply lookup_lt_Some. }
      rewrite (Hcell c text Ht) in Hc. injection Hc as <-.
      case_decide; simpl; lia.
    - apply rowHeightOf_positive.
      apply Exists_exists in Hsome as (text & [c Ht]%list_elem_of_lookup_1 & Hne).
      apply Exists_exists. exists [text]. split; [|done].
      eapply list_elem_of_lookup_2. rewrite (Hcell c text Ht).
      by rewrite decide_False. }
  unfold createMultiLineRows. rewrite Hsplit. simpl. rewrite Hheight.
  assert (cellRowsOf 1 (alignCells verticalAlignment 1 cells) = [row]) as ->.
  { unfold cellRowsOf. simpl. f_equal. apply list_eq. intros c.
    rewrite list_lookup_fmap.
    destruct (row !! c) as [text|] eqn:Ht.
    - rewrite (alignCells_lookup _ _ _ _ _ (Hcell c text Ht)). simpl. f_equal.
      case_decide as Hempty.
      + subst. rewrite app_nil_r.
        by destruct (replicate _ _ !! 0%nat) as [line|] eqn:Hl;
          [apply list_elem_of_lookup_2, elem_of_replicate_inv in Hl|].
      + by destruct verticalAlignment.
    - rewrite (lookup_ge_None_2 (alignCells _ _ _)); [done|].
      rewrite alignCells_length, Hcl, <- Hlen. by apply lookup_ge_None. }
  simpl. by destruct (createRow row columnWidths horizontalAlignment).
Qed.

Lemma framed_length_any first between last_ parts :
  parts ≠ [] →
  len (framed first between last_ parts) = 1 + sumOf (len <$> parts) + len parts.
Proof.
  intros Hne. rewrite (framed_length _ _ _ parts (len <$> parts)).
  - unfold len. by rewrite length_fmap.
  - by destruct parts.
  - apply Forall2_fmap_r, Forall_Forall2_diag, Forall_forall. by intros.
Qed.

(** X18. Under ['left'] and ['right'] a text is never cut and nothing
    throws: a cell is the text with one space before it (['left']) or after
    it (['right']), filled with spaces to the width of the column when it
    is shorter, so that the cell is [max(columnWidth, length + 1)] wide and
    a text that does not fit makes its row longer than the borders. *)
Theorem createRow_never_cuts texts columnWidths horizontalAlignment :
  horizontalAlignment = h_left ∨ horizontalAlignment = h_right →
  length texts = length columnWidths → columnWidths ≠ [] →
  ∃ parts,
    createRow texts columnWidths horizontalAlignment
    = Normal ([VERTICAL] ++ join [VERTICAL] parts ++ [VERTICAL])
    ∧ length parts = length columnWidths
    ∧ (∀ i text w, texts !! i = Some text → columnWidths !! i = Some w →
         ∃ fill, parts !! i
                 = Some (match horizontalAlignment with
                         | h_left => [SPACE] ++ text ++ replicate fill SPACE
                         | _ => replicate fill SPACE ++ text ++ [SPACE]
                         end)
           ∧ 1 + len text + Z.of_nat fill = Z.max w (len text + 1))
    ∧ len ([VERTICAL] ++ join [VERTICAL] parts ++ [VERTICAL])
      = 1 + len columnWidths
        + sumOf (zip_with (λ text w, Z.max w (len text + 1)) texts columnWidths).
Proof.
  intros Hside Hlen Hne. unfold createRow.
  set (f := λ (i : nat) (columnWidth : Z), match horizontalAlignment with
            | h_left => _ | h_middle => _ | h_right => _ end).
  assert (Hcell : ∀ i text w, texts !! i = Some text →
            ∃ fill, f i w
                    = Normal (match horizontalAlignment with
                              | h_left => [SPACE] ++ text ++ replicate fill SPACE
                              | _ => replicate fill SPACE ++ text ++ [SPACE]
                              end)
              ∧ 1 + len text + Z.of_nat fill = Z.max w (len text + 1)).
  { intros i text w Ht. unfold f. rewrite Ht. simpl.
    exists (Z.to_nat w - length (text ++ [SPACE]))%nat.
    destruct Hside as [-> | ->].
    - split.
      + unfold padEnd. simpl. do 3 f_equal.
        rewrite !length_app. simpl. f_equal. lia.
      + unfold len. rewrite length_app. simpl. lia.
    - split.
      + done.
      + unfold len. rewrite length_app. simpl. lia. }
  destruct (imapM_total f columnWidths) as [parts Hparts].
  { intros i w Hw. destruct (lookup_lt_is_Some_2 texts i) as [text Ht].
    { rewrite Hlen. by eapply lookup_lt_Some. }
    destruct (Hcell i text w Ht) as (fill & -> & _). by eexists. }
  rewrite Hparts. simpl. exists parts. split; [done|].
  apply imapM_Normal in Hparts as [Hpl Hparts]. split; [done|].
  assert (Hall : ∀ i text w, texts !! i = Some text → columnWidths !! i = Some w →
            ∃ fill, parts !! i
                    = Some (match horizontalAlignment with
                            | h_left => [SPACE] ++ text ++ replicate fill SPACE
                            | _ => replicate fill SPACE ++ text ++ [SPACE]
                            end)
              ∧ 1 + len text + Z.of_nat fill = Z.max w (len text + 1)).
  { intros i text w Ht Hw. destruct (Hparts i w Hw) as (part & Hp & Hf).
    destruct (Hcell i text w Ht) as (fill & Hf' & Hfill).
    exists fill. split; [congruence|done]. }
  split; [done|].
  change (len (framed VERTICAL VERTICAL VERTICAL parts)
          = 1 + len columnWidths
            + sumOf (zip_with (λ text w, Z.max w (len text + 1))
                       texts columnWidths)).
  rewrite framed_length_any by (destruct parts, columnWidths; done).
  assert (len <$> parts
          = zip_with (λ text w, Z.max w (len text + 1)) texts columnWidths) as ->.
  { apply list_eq. intros i. rewrite list_lookup_fmap, lookup_zip_with.
    destruct (texts !! i) as [text|] eqn:Ht; simpl.
    - destruct (lookup_lt_is_Some_2 columnWidths i) as [w Hw].
      { rewrite <- Hlen. by eapply lookup_lt_Some. }
      rewrite Hw. simpl. destruct (Hall i text w Ht Hw) as (fill & -> & Hfill).
      simpl. f_equal. rewrite <- Hfill. unfold len.
      destruct Hside as [-> | ->];
        rewrite ?length_cons, !length_app, length_replicate; simpl; lia.
    - rewrite (lookup_ge_None_2 parts); [done|].
      apply lookup_ge_None in Ht. lia. }
  unfold len. rewrite Hpl. lia.
Qed.

Lemma mapM_Throw {A B} (P : exn → Prop) (f : A → completion B) l :
  Forall (λ x, (∃ y, f x = Normal y) ∨ ∃ e, f x = Throw e ∧ P e) l →
  Exists (λ x, ∃ e, f x = Throw e) l →
  ∃ e, mapM f l = Throw e ∧ P e.
Proof.
  induction 1 as [|x l Hx _ IH]; [by inversion 1|].
  intros Hex. simpl. destruct Hx as [[y Hy]|(e & He & HP)].
  - rewrite Hy. simpl. apply Exists_cons in Hex as [[e He]|Hex]; [congruence|].
    destruct (IH Hex) as (e & -> & HP). by exists e.
  - rewrite He. by exists e.
Qed.

(** X19. The three borders.  For widths that are not negative, each border
    is one line of [1 + sum(columnWidths) + columnCount] code units: as
    wide as a row whose texts fit.  A negative width makes [repeat] throw a
    [RangeError] in each of them. *)
Theorem borders_spec columnWidths :
  (Forall (λ w, 0 ≤ w) columnWidths → columnWidths ≠ [] →
   ∃ top middle bottom,
     createTableTop columnWidths = Normal top
     ∧ createTableMiddleLine columnWidths = Normal middle
     ∧ createTableBottom columnWidths = Normal bottom
     ∧ Forall (λ line,
          len line = 1 + sumOf columnWidths + len columnWidths
          ∧ singleLine line) [top; middle; bottom])
  ∧ (Exists (λ w, w < 0) columnWidths →
     (∃ message, createTableTop columnWidths = Throw (RangeError message))
     ∧ (∃ message, createTableMiddleLine columnWidths = Throw (RangeError message))
     ∧ (∃ message, createTableBottom columnWidths = Throw (RangeError message))).
Proof.
  unfold createTableTop, createTableMiddleLine, createTableBottom. split.
  - intros Hpos Hne. rewrite border_runs by done. simpl. do 3 eexists.
    do 3 (split; [done|]).
    assert (Hborder : ∀ a b c, a ≠ LF → b ≠ LF → c ≠ LF →
      let line := framed a b c
                    ((λ w, replicate (Z.to_nat w) HORIZONTAL) <$> columnWidths) in
      len line = 1 + sumOf columnWidths + len columnWidths ∧ singleLine line).
    { intros a b c Ha Hb Hc. split.
      - apply framed_length; [done|]. apply Forall2_fmap_l, Forall_Forall2_diag.
        eapply Forall_impl; [done|]. intros w Hw. simpl in *. unfold len.
        rewrite length_replicate. lia.
      - apply framed_singleLine; try done. apply Forall_fmap, Forall_forall.
        intros w _. unfold singleLine. simpl. by intros [? _]%elem_of_replicate. }
    repeat constructor; by apply Hborder.
  - intros Hneg.
    destruct (mapM_Throw (λ e, ∃ message, e = RangeError message)
                (λ size, String_repeat [HORIZONTAL] size) columnWidths)
      as (e & -> & message & ->).
    + apply Forall_forall. intros w _. unfold String_repeat.
      destruct (w <? 0); [right|left]; by eauto.
    + eapply Exists_impl; [done|]. intros w Hw. simpl in Hw.
      unfold String_repeat.
      replace (w <? 0) with true by (symmetry; apply Z.ltb_lt; lia).
      by eexists.
    + repeat split; by exists message.
Qed.

Lemma createRow_parts texts columnWidths horizontalAlignment :
  fitsColumns texts columnWidths →
  ∃ parts, createRow texts columnWidths horizontalAlignment
           = Normal (framed VERTICAL VERTICAL VERTICAL parts)
    ∧ Forall2 (λ part w, len part = w) parts columnWidths.
Proof.
  intros Hfit. unfold createRow.
  set (f := λ (i : nat) (columnWidth : Z), match horizontalAlignment with
            | h_left => _ | h_middle => _ | h_right => _ end).
  assert (Hcell : ∀ i w, columnWidths !! i = Some w →
            ∃ part, f i w = Normal part ∧ len part = w).
  { intros i w Hw.
    destruct (Forall2_lookup_r _ _ _ _ _ Hfit Hw) as (text & Ht & Hlen).
    destruct (aligned_cell horizontalAlignment text w Hlen) as (part & Hp & ? & _).
    exists part. split; [|done].
    unfold f. rewrite Ht. simpl. by destruct horizontalAlignment. }
  destruct (imapM_total f columnWidths) as [parts Hparts].
  { intros i w Hw. destruct (Hcell i w Hw) as (part & ? & _). eauto. }
  rewrite Hparts. simpl. exists parts. split; [done|].
  apply imapM_Normal in Hparts as [Hlen Hparts].
  apply Forall2_same_length_lookup. split; [done|]. intros i part w Hp Hw.
  destruct (Hparts i w Hw) as (part' & Hp' & Hf).
  destruct (Hcell i w Hw) as (part'' & Hf' & ?). congruence.
Qed.

Lemma framed_separators h between last_ (parts parts' : list str) :
  Forall2 (λ p p', length p = length p') parts parts' →
  Forall (Forall (λ x, x = h)) parts →
  ∀ k x, (join [between] parts ++ [last_]) !! k = Some x → x ≠ h →
    (join [VERTICAL] parts' ++ [VERTICAL]) !! k = Some VERTICAL.
Proof.
  induction 1 as [|p p' ps ps' Hp Hps IH]; intros Hh k x Hk Hx.
  - simpl in *. destruct k; [done|].
    apply lookup_lt_Some in Hk. simpl in Hk. lia.
  - apply Forall_cons in Hh as [Hhp Hhs].
    assert (Hin : (k < length p)%nat → False).
    { intros Hlt. destruct Hps.
      - simpl in Hk. rewrite lookup_app_l in Hk by done.
        by eapply Forall_lookup_1 in Hhp.
      - rewrite join_cons in Hk by done.
        rewrite <- !app_assoc, lookup_app_l in Hk by done.
        by eapply Forall_lookup_1 in Hhp. }
    destruct (decide (k < length p)%nat) as [?|Hge]; [done|].
    destruct Hps as [|q q' qs qs' Hq Hqs].
    + simpl in *. rewrite lookup_app_r in Hk |- * by lia.
      rewrite Hp in Hk. destruct (k - length p')%nat; [done|].
      apply lookup_lt_Some in Hk. simpl in Hk. lia.
    + rewrite join_cons in Hk |- * by done.
      rewrite <- !app_assoc in Hk |- *.
      rewrite lookup_app_r in Hk |- * by lia. rewrite <- Hp.
      destruct (k - length p)%nat as [|k'] eqn:Hk'; [done|]. simpl in Hk |- *.
      by eapply IH.
Qed.

Lemma join_same_length b b' (l l' : list str) :
  Forall2 (λ p p', length p = length p') l l' →
  length (join [b] l) = length (join [b'] l').
Proof.
  induction 1 as [|p p' ps ps' Hp Hps IH]; [done|].
  destruct Hps; [done|].
  rewrite (join_cons [b]), (join_cons [b']) by done.
  rewrite !length_app, IH, Hp. done.
Qed.

(** X20. The columns line up.  A row whose texts fit in their columns is as
    long as each border, and wherever a border has a corner or a junction
    (any glyph but the horizontal bar), the row has a vertical bar. *)
Theorem createRow_under_borders texts columnWidths horizontalAlignment :
  fitsColumns texts columnWidths →
  ∃ line top middle bottom,
    createRow texts columnWidths horizontalAlignment = Normal line
    ∧ createTableTop columnWidths = Normal top
    ∧ createTableMiddleLine columnWidths = Normal middle
    ∧ createTableBottom columnWidths = Normal bottom
    ∧ Forall (λ border : str,
         length border = length line
         ∧ ∀ k x, border !! k = Some x → x ≠ HORIZONTAL →
             line !! k = Some VERTICAL) [top; middle; bottom].
Proof.
  intros Hfit.
  destruct (createRow_parts texts columnWidths horizontalAlignment Hfit)
    as (parts & Hrow & Hparts).
  assert (Hpos : Forall (λ w, 0 ≤ w) columnWidths).
  { apply Forall_lookup. intros i w Hw.
    destruct (Forall2_lookup_r _ _ _ _ _ Hfit Hw) as (text & _ & Hlen).
    unfold len in Hlen. lia. }
  unfold createTableTop, createTableMiddleLine, createTableBottom.
  rewrite border_runs by done. simpl. do 4 eexists.
  do 4 (split; [done|]).
  set (runs := (λ w, replicate (Z.to_nat w) HORIZONTAL) <$> columnWidths).
  assert (Hruns : Forall2 (λ p p' : str, length p = length p') runs parts).
  { unfold runs. apply Forall2_fmap_l. apply Forall2_flip.
    eapply Forall2_impl; [done|]. intros part w Hpart. simpl in *.
    rewrite length_replicate. unfold len in Hpart. lia. }
  assert (Hbars : Forall (Forall (λ x, x = HORIZONTAL)) runs).
  { unfold runs. apply Forall_fmap, Forall_forall. intros w _. simpl.
    apply Forall_forall. by intros x [? _]%elem_of_replicate. }
  assert (Hjoin : ∀ b, length (join [b] runs)
                       = length (join [VERTICAL] parts))
    by (intros b; by apply join_same_length).
  assert (Hborder : ∀ a b c : N, 
            length ([a] ++ join [b] runs ++ [c])
            = length (framed VERTICAL VERTICAL VERTICAL parts)
            ∧ ∀ k x, ([a] ++ join [b] runs ++ [c]) !! k = Some x →
                x ≠ HORIZONTAL →
                framed VERTICAL VERTICAL VERTICAL parts !! k = Some VERTICAL).
  { intros a b c. split.
    - unfold framed. rewrite !length_app, Hjoin. done.
    - intros [|k] x Hk Hx; [done|]. unfold framed. simpl in Hk |- *.
      by eapply framed_separators. }
  repeat constructor; apply Hborder.
Qed.

(** ** The further properties at concrete inputs *)

(** X1 on a strategy named ['wide']. *)
Lemma createTable_errors_witness :
  createTable stringKey inspectInteger [allOnes] [lit "a"] (sizedBy (lit "wide"))
  = Throw (Error (unknownSizingMessage (lit "wide"))).
Proof.
  refine (proj2 (proj2 (createTable_errors stringKey inspectInteger [allOnes]
                          [lit "a"] (sizedBy (lit "wide")) _)) (lit "wide") _ _).
  - vm_compute. repeat split.
  - reflexivity.
  - vm_compute. discriminate.
Defined.

(** X2 on a table of two columns and one item. *)
Lemma createTable_widths_witness :
  ∃ columnWidths,
    finalWidths stringKey inspectInteger [allOnes] [lit "name"; lit "age"]
                defaultOptions = Normal columnWidths
    ∧ len columnWidths = 2
    ∧ Forall (λ w, 3 ≤ w) columnWidths
    ∧ sumOf columnWidths + 2 + 1 ≤ 80.
Proof.
  apply (createTable_widths stringKey inspectInteger [allOnes]
           [lit "name"; lit "age"] defaultOptions smallTable).
  - vm_compute. discriminate.
  - vm_compute. reflexivity.
Defined.

(** X3 on natural widths 5 and 3 in a width of 9. *)
Lemma createTable_overflow_fills_witness :
  finalWidths stringKey inspectInteger [allOnes] [lit "abc"; lit "b"] width9
  = Normal [3; 3]
  ∧ sumOf [3; 3] + 2 + 1 = 9.
Proof.
  destruct (createTable_overflow_fills stringKey inspectInteger [allOnes]
              [lit "abc"; lit "b"] width9) as (columnWidths & Hfinal & Hsum).
  - vm_compute. split; [discriminate|reflexivity].
  - apply (bool_decide_unpack _). vm_compute. exact I.
  - left. split; [reflexivity|vm_compute; reflexivity].
  - assert (columnWidths = [3; 3]) as ->.
    { vm_compute in Hfinal. injection Hfinal as <-. reflexivity. }
    split; [exact Hfinal|exact Hsum].
Defined.

(** X4 on natural widths 3 and 5 in a width of 20. *)
Lemma createTable_fullWidth_fills_witness :
  finalWidths stringKey inspectInteger [allOnes] [lit "a"; lit "bcd"] fullWidth20
  = Normal [6; 11]
  ∧ sumOf [6; 11] + 2 + 1 = 20.
Proof.
  destruct (createTable_fullWidth_fills stringKey inspectInteger [allOnes]
              [lit "a"; lit "bcd"] fullWidth20) as (columnWidths & Hfinal & Hsum).
  - vm_compute. split; [discriminate|reflexivity].
  - apply (bool_decide_unpack _). vm_compute. exact I.
  - reflexivity.
  - left. split; [reflexivity|]. split; [vm_compute; reflexivity|].
    apply (bool_decide_unpack _). vm_compute. exact I.
  - assert (columnWidths = [6; 11]) as ->.
    { vm_compute in Hfinal. injection Hfinal as <-. reflexivity. }
    split; [exact Hfinal|exact Hsum].
Defined.

(** X7 on a header and one row, in columns 6 and 5 wide. *)
Lemma renderTable_structure_witness :
  ∃ top header middle blocks bottom out,
    createTableTop [6; 5] = Normal top
    ∧ createMultiLineRows [lit "name"; lit "age"] [6; 5] h_middle v_middle
      = Normal header
    ∧ createTableMiddleLine [6; 5] = Normal middle
    ∧ Forall2 (λ row block,
         createMultiLineRows row [6; 5] h_middle v_middle = Normal block)
        [[lit "1"; lit "1"]] blocks
    ∧ createTableBottom [6; 5] = Normal bottom
    ∧ renderTable [lit "name"; lit "age"] [[lit "1"; lit "1"]] [6; 5]
        h_middle v_middle = Normal out
    ∧ split LF out
      = [top] ++ split LF header ++ [middle]
        ++ concat (split LF <$> blocks) ++ [bottom].
Proof.
  apply (renderTable_structure [lit "name"; lit "age"] [[lit "1"; lit "1"]]
           [6; 5] h_middle v_middle).
  - apply (bool_decide_unpack _). vm_compute. exact I.
  - apply (bool_decide_unpack _). vm_compute. exact I.
  - apply (bool_decide_unpack _). vm_compute. exact I.
  - discriminate.
Defined.

(** X8 on a table of two columns and one item: five lines. *)
Lemma createTable_fits_witness :
  finalWidths stringKey inspectInteger [allOnes] [lit "name"; lit "age"]
              defaultOptions = Normal [6; 5]
  ∧ ∃ out,
      createTable stringKey inspectInteger [allOnes] [lit "name"; lit "age"]
                  defaultOptions = Normal out
      ∧ length (split LF out) = 5%nat.
Proof.
  assert (H := createTable_fits stringKey inspectInteger [allOnes]
                 [lit "name"; lit "age"] defaultOptions).
  destruct H as [Hfinal Hout].
  - vm_compute. discriminate.
  - reflexivity.
  - vm_compute. discriminate.
  - left. reflexivity.
  - split; [exact Hfinal|].
    destruct Hout as (out & Hout & Hlines).
    + apply (bool_decide_unpack _). vm_compute. exact I.
    + exists out. split; [exact Hout|]. apply Hlines.
      * discriminate.
      * apply (bool_decide_unpack _). vm_compute. exact I.
Defined.

(** X5 on widths 3 and 3, none above 3, and on widths 5 and 3. *)
Lemma shrinkColumns_effect_witness :
  shrinkColumns [3; 3] 3 1 = Normal [3; 3]
  ∧ (shrinkColumns [5; 3] 3 2 = Normal [3; 3]
     ∧ sumOf [3; 3] = sumOf [5; 3] - 2).
Proof.
  split.
  - apply (proj1 (shrinkColumns_effect [3; 3] 3 1)).
    apply (bool_decide_unpack _). vm_compute. exact I.
  - split; [vm_compute; reflexivity|].
    apply (proj2 (proj2 (shrinkColumns_effect [5; 3] 3 2)) [3; 3]).
    + vm_compute. reflexivity.
    + apply (bool_decide_unpack _). vm_compute. exact I.
Defined.

(** X6 on widths 4 and 4, none below 4, and on widths 3 and 5. *)
Lemma growColumns_effect_witness :
  growColumns [4; 4] 4 1 = Normal [4; 4]
  ∧ (growColumns [3; 5] 8 9 = Normal [6; 11]
     ∧ sumOf [6; 11] = sumOf [3; 5] + 9).
Proof.
  split.
  - apply (proj1 (growColumns_effect [4; 4] 4 1)).
    apply (bool_decide_unpack _). vm_compute. exact I.
  - split; [vm_compute; reflexivity|].
    apply (proj2 (proj2 (growColumns_effect [3; 5] 8 9)) [6; 11]).
    + vm_compute. reflexivity.
    + apply (bool_decide_unpack _). vm_compute. exact I.
Defined.

(** X9 on a single column named [""], without items. *)
Lemma createTable_narrow_column_witness :
  createTable stringKey inspectInteger noItems [emptyKey] defaultOptions
  = Throw (Error bugReportMessage).
Proof.
  apply (proj2 (createTable_narrow_column stringKey inspectInteger noItems
                  [emptyKey] defaultOptions ltac:(vm_compute; discriminate)
                  eq_refl eq_refl
                  ltac:(apply (bool_decide_unpack _); vm_compute; exact I))).
  vm_compute. discriminate.
Defined.

(** X11 on a single column named ["a"], without items. *)
Lemma createTable_no_items_witness :
  ∃ columnWidths top names bottom,
    finalWidths stringKey inspectInteger noItems [lit "a"] defaultOptions
    = Normal columnWidths
    ∧ createTableTop columnWidths = Normal top
    ∧ createTableColumnNames [lit "a"] columnWidths h_middle v_middle
      = Normal names
    ∧ createTableBottom columnWidths = Normal bottom
    ∧ emptyTable = top ++ [LF] ++ names ++ [LF; LF] ++ bottom.
Proof.
  apply (createTable_no_items stringKey inspectInteger [lit "a"] defaultOptions
           emptyTable).
  - vm_compute. discriminate.
  - vm_compute. reflexivity.
Defined.

(** X12 on two items and no key. *)
Lemma createTable_no_columns_witness :
  createTable stringKey inspectInteger [allOnes; allOnes] [] defaultOptions
  = Normal [TOP_LEFT; TOP_RIGHT; LF; LF; LEFT_MIDDLE; RIGHT_MIDDLE; LF; LF; LF;
            BOTTOM_LEFT; BOTTOM_RIGHT].
Proof.
  apply (createTable_no_columns stringKey inspectInteger [allOnes; allOnes]
           defaultOptions).
  - reflexivity.
  - vm_compute. discriminate.
  - left. reflexivity.
Defined.

(** X13 on natural widths 5 and 3 in a width of 9, the minimum for two
    columns. *)
Lemma createTable_minimum_all_three_witness :
  finalWidths stringKey inspectInteger [allOnes] [lit "abc"; lit "b"] width9
  = Normal [3; 3]
  ∧ ∃ out, createTable stringKey inspectInteger [allOnes] [lit "abc"; lit "b"]
             width9 = Normal out.
Proof.
  apply (createTable_minimum_all_three stringKey inspectInteger [allOnes]
           [lit "abc"; lit "b"] width9).
  - reflexivity.
  - left. reflexivity.
  - apply (bool_decide_unpack _). vm_compute. exact I.
Defined.

(** X14 with the index column: the name of key 0 is at place 1. *)
Lemma tableCells_rectangular_witness :
  columnNamesOf stringKey inspectInteger [allOnes] [lit "a"] indexed !! 1%nat
  = Some (lit "a").
Proof.
  apply (proj1 (proj2 (proj2 (proj2
           (tableCells_rectangular stringKey inspectInteger [allOnes]
              [lit "a"] indexed)))) 0%nat (lit "a")).
  reflexivity.
Defined.

(** X15 on five code units in a column four wide: three lines. *)
Lemma cellLines_count_witness :
  ∃ lines, cellLines (lit "abcde") 4 = Normal lines
    ∧ len lines = 3
    ∧ (∀ i line, lines !! i = Some line → (i + 1 < length lines)%nat →
         len line = 2)
    ∧ (∀ line, last lines = Some line → len line = 5 - (len lines - 1) * 2).
Proof.
  apply (cellLines_count (lit "abcde") 4). lia.
Defined.

(** X16 on one code unit in a column two wide. *)
Lemma createMultiLineRows_never_exits_witness :
  createMultiLineRows [lit "a"] [2] h_left v_top = Diverge.
Proof.
  apply (proj2 (createMultiLineRows_never_exits (lit "a") 2
                  ltac:(lia) ltac:(discriminate))
           [lit "a"] [2] 0%nat h_left v_top).
  - reflexivity.
  - reflexivity.
  - constructor.
Defined.

(** X17 on two code units in a width of five, and on six in a width of
    three. *)
Lemma centerText_spec_witness :
  centerText (Some (lit "ab")) 5 = Normal (lit " ab  ")
  ∧ ∃ message, centerText (Some (lit "abcdef")) 3 = Throw (RangeError message).
Proof.
  split.
  - apply (proj1 (proj1 (centerText_spec (lit "ab") 5) ltac:(vm_compute; discriminate))).
  - apply (proj2 (centerText_spec (lit "abcdef") 3)). vm_compute. reflexivity.
Defined.

(** X18 on a text of six code units in a column four wide. *)
Lemma createRow_never_cuts_witness :
  ∃ parts,
    createRow [lit "abcdef"] [4] h_left
    = Normal ([VERTICAL] ++ join [VERTICAL] parts ++ [VERTICAL])
    ∧ length parts = 1%nat
    ∧ (∀ i text w, [lit "abcdef"] !! i = Some text → [4] !! i = Some w →
         ∃ fill, parts !! i = Some ([SPACE] ++ text ++ replicate fill SPACE)
           ∧ 1 + len text + Z.of_nat fill = Z.max w (len text + 1))
    ∧ len ([VERTICAL] ++ join [VERTICAL] parts ++ [VERTICAL]) = 1 + 1 + 7.
Proof.
  apply (createRow_never_cuts [lit "abcdef"] [4] h_left).
  - left. reflexivity.
  - reflexivity.
  - discriminate.
Defined.

(** X19 on widths 3 and 4, and on widths 3 and -1. *)
Lemma borders_spec_witness :
  (∃ top middle bottom,
     createTableTop [3; 4] = Normal top
     ∧ createTableMiddleLine [3; 4] = Normal middle
     ∧ createTableBottom [3; 4] = Normal bottom
     ∧ Forall (λ line, len line = 1 + 7 + 2 ∧ singleLine line)
              [top; middle; bottom])
  ∧ ∃ message, createTableTop [3; -1] = Throw (RangeError message).
Proof.
  split.
  - apply (proj1 (borders_spec [3; 4])).
    + apply (bool_decide_unpack _). vm_compute. exact I.
    + discriminate.
  - apply (proj2 (borders_spec [3; -1])).
    apply (bool_decide_unpack _). vm_compute. exact I.
Defined.

(** X20 on two texts in columns 3 and 4 wide. *)
Lemma createRow_under_borders_witness :
  ∃ line top middle bottom,
    createRow [lit "a"; lit "bc"] [3; 4] h_middle = Normal line
    ∧ createTableTop [3; 4] = Normal top
    ∧ createTableMiddleLine [3; 4] = Normal middle
    ∧ createTableBottom [3; 4] = Normal bottom
    ∧ Forall (λ border : str,
         length border = length line
         ∧ ∀ k x, border !! k = Some x → x ≠ HORIZONTAL →
             line !! k = Some VERTICAL) [top; middle; bottom].
Proof.
  apply (createRow_under_borders [lit "a"; lit "bc"] [3; 4] h_middle).
  unfold fitsColumns. apply (bool_decide_unpack _). vm_compute. exact I.
Defined.

(** X10 on natural widths 5 and 3 in a width of 9. *)
Lemma createTable_one_wide_column_witness :
  finalWidths stringKey inspectInteger [allOnes] [lit "abc"; lit "b"] width9
  = Normal [3; 3]
  ∧ ∃ out, createTable stringKey inspectInteger [allOnes] [lit "abc"; lit "b"]
             width9 = Normal out.
Proof.
  assert (H := createTable_one_wide_column stringKey inspectInteger [allOnes]
                 [lit "abc"; lit "b"] width9 [] 5 [3]).
  destruct H as [Hfinal Hout].
  - vm_compute. discriminate.
  - reflexivity.
  - vm_compute. reflexivity.
  - apply (bool_decide_unpack _). vm_compute. exact I.
  - vm_compute. reflexivity.
  - split; [exact Hfinal|]. apply Hout.
    apply (bool_decide_unpack _). vm_compute. exact I.
Defined.

(** X21 on a table of two columns and one item. *)
Lemma createTable_total_witness :
  ∃ columnWidths,
    finalWidths stringKey inspectInteger [allOnes] [lit "name"; lit "age"]
                defaultOptions = Normal columnWidths
    ∧ ((Forall (λ w, 3 ≤ w) columnWidths
        ∧ ∃ out, createTable stringKey inspectInteger [allOnes]
                   [lit "name"; lit "age"] defaultOptions = Normal out)
       ∨ (Exists (λ w, w < 3) columnWidths
          ∧ createTable stringKey inspectInteger [allOnes]
              [lit "name"; lit "age"] defaultOptions
            = Throw (Error bugReportMessage))).
Proof.
  apply (createTable_total stringKey inspectInteger [allOnes]
           [lit "name"; lit "age"] defaultOptions).
  - vm_compute. repeat split.
  - vm_compute. discriminate.
  - left. reflexivity.
Defined.

(** X22 on two texts that fit, bottom-aligned. *)
Lemma createMultiLineRows_fits_witness :
  createMultiLineRows [lit "a"; lit "bc"] [3; 4] h_middle v_bottom
  = createRow [lit "a"; lit "bc"] [3; 4] h_middle.
Proof.
  apply (createMultiLineRows_fits [lit "a"; lit "bc"] [3; 4] h_middle v_bottom).
  - apply (bool_decide_unpack _). vm_compute. exact I.
  - unfold fitsColumns. apply (bool_decide_unpack _). vm_compute. exact I.
  - apply (bool_decide_unpack _). vm_compute. exact I.
Defined.

(** X23 on a header of two lines and a row of two lines: seven lines. *)
Lemma renderTable_height_witness :
  ∃ out,
    renderTable [lit "name"; lit "age"] [[lit "1"; lit "12345"]] [4; 5]
      h_middle v_middle = Normal out
    ∧ length (split LF out)
      = (3 + heightOf [4%Z; 5%Z] [lit "name"; lit "age"]
         + sum_list (heightOf [4%Z; 5%Z] <$> [[lit "1"; lit "12345"]]))%nat.
Proof.
  apply (renderTable_height [lit "name"; lit "age"] [[lit "1"; lit "12345"]]
           [4; 5] h_middle v_middle).
  - apply (bool_decide_unpack _). vm_compute. exact I.
  - apply (bool_decide_unpack _). vm_compute. exact I.
  - apply (bool_decide_unpack _). vm_compute. exact I.
  - discriminate.
Defined.
